(** * Elevator API: dispatcher, movement simulator and state store

    A shallow embedding of [src/db/db.js], [src/services/elevatorService.js],
    [src/routes/elevator.js] and the middleware of [src/app.js].  The SQLite
    tables are lists of rows in rowid order, every [async] function is a
    computation over the process state in a state-and-exception monad, and
    every [setTimeout] callback is a first-order task kept in a timer queue,
    so that a run of the program is a sequence of calls and timer firings.

    What the model takes for granted: floors and ids are integers, of a
    size a double holds exactly; text is UTF-8; SQLite itself never fails,
    and scans table [elevators] by ascending rowid, which is the order
    [initializeDb] inserts the rows in; an [async] function has the database
    to itself until it settles, and so has a promise nobody awaits, which
    runs where it is created (in the program it settles some database round
    trips later, and statements that depend on when are stated with that
    proviso or not at all); the [uuid] package is a sequence of identifiers,
    one drawn per call of [uuidv4].  Of the two copies of [src/db/db.js],
    which differ in the default number of elevators, the first is followed. *)

From Stdlib Require Import ZArith List String Ascii Bool Lia Sorted Permutation.
From Stdlib Require Import DecimalString DecimalZ DecimalNat DecimalPos.
Import ListNotations.

Set Warnings "-register-all".

Local Open Scope Z_scope.

Declare Scope js_scope.
Delimit Scope js_scope with js.
Infix "+++" := String.append (right associativity, at level 60) : js_scope.
Local Open Scope js_scope.

(** ** JSON text

    [JSON.stringify] on the values the program serialises (numbers, strings,
    arrays, objects whose [undefined] properties are dropped), and
    [JSON.parse] on the one column the program reads back, [job_queue]. *)

Module Json.

Inductive value : Type :=
| Num (z : Z)
| Str (s : string)
| Arr (items : list value)
| Obj (props : list (string * value)).

(** The double quote and the backslash, by code. *)
Definition dquote : ascii := ascii_of_nat 34.
Definition backslash : ascii := ascii_of_nat 92.

(** A JS integer printed in decimal. *)
Definition string_of_Z (z : Z) : string := NilZero.string_of_int (Z.to_int z).

Definition hex_digit (n : nat) : ascii :=
  if Nat.ltb n 10 then ascii_of_nat (48 + n) else ascii_of_nat (87 + n).

(** One character of a quoted JSON string, as [JSON.stringify] escapes it. *)
Definition escape_char (c : ascii) : string :=
  let n := nat_of_ascii c in
  if Ascii.eqb c dquote then String backslash (String dquote EmptyString)
  else if Ascii.eqb c backslash then String backslash (String backslash EmptyString)
  else if Nat.eqb n 8 then String backslash "b"
  else if Nat.eqb n 9 then String backslash "t"
  else if Nat.eqb n 10 then String backslash "n"
  else if Nat.eqb n 12 then String backslash "f"
  else if Nat.eqb n 13 then String backslash "r"
  else if Nat.ltb n 32 then
    String backslash
      (String "u" (String "0" (String "0"
        (String (hex_digit (Nat.div n 16)) (String (hex_digit (Nat.modulo n 16)) EmptyString)))))
  else String c EmptyString.

Fixpoint escape (s : string) : string :=
  match s with
  | EmptyString => EmptyString
  | String c r => escape_char c +++ escape r
  end.

Definition quoted (s : string) : string :=
  String dquote (escape s +++ String dquote EmptyString).

(** [Array.prototype.join]. *)
Fixpoint join (sep : string) (l : list string) : string :=
  match l with
  | [] => EmptyString
  | x :: r =>
      match r with
      | [] => x
      | _ :: _ => x +++ sep +++ join sep r
      end
  end.

Fixpoint stringify (v : value) : string :=
  match v with
  | Num z => string_of_Z z
  | Str s => quoted s
  | Arr items => "[" +++ join "," (map stringify items) +++ "]"
  | Obj props =>
      "{" +++
      join "," (map (fun p => quoted (fst p) +++ ":" +++ stringify (snd p)) props)
      +++ "}"
  end.

(** An object literal some of whose properties may be [undefined]:
    [JSON.stringify] leaves those out. *)
Definition object (props : list (string * option value)) : value :=
  Obj ((fix keep (l : list (string * option value)) : list (string * value) :=
          match l with
          | [] => []
          | (k, Some v) :: r => (k, v) :: keep r
          | (_, None) :: r => keep r
          end) props).

(** *** Reading the [job_queue] column back

    [JSON.parse], on the texts [JSON.stringify] writes for arrays of jobs,
    which are the texts the program stores; any other text is refused here,
    valid JSON or not. *)

(** [expect lit s] is what follows [lit] at the head of [s]. *)
Fixpoint expect (lit s : string) : option string :=
  match lit with
  | EmptyString => Some s
  | String a lit' =>
      match s with
      | String b s' => if Ascii.eqb a b then expect lit' s' else None
      | EmptyString => None
      end
  end.

Definition is_int_char (c : ascii) : bool :=
  Ascii.eqb c "-" || (Nat.leb 48 (nat_of_ascii c) && Nat.leb (nat_of_ascii c) 57).

(** The longest prefix of sign and digit characters, and what follows it. *)
Fixpoint span_int (s : string) : string * string :=
  match s with
  | EmptyString => (EmptyString, EmptyString)
  | String c r =>
      if is_int_char c
      then let (a, b) := span_int r in (String c a, b)
      else (EmptyString, s)
  end.

Definition parse_int (s : string) : option (Z * string) :=
  let (digits, rest) := span_int s in
  match NilZero.int_of_string digits with
  | Some d => Some (Z.of_int d, rest)
  | None => None
  end.

Definition hex_value (c : ascii) : option nat :=
  let n := nat_of_ascii c in
  if Nat.leb 48 n && Nat.leb n 57 then Some (n - 48)%nat
  else if Nat.leb 97 n && Nat.leb n 102 then Some (n - 87)%nat
  else if Nat.leb 65 n && Nat.leb n 70 then Some (n - 55)%nat
  else None.

Definition simple_escape (e : ascii) : option ascii :=
  if Ascii.eqb e dquote then Some dquote
  else if Ascii.eqb e backslash then Some backslash
  else if Ascii.eqb e "/" then Some "/"%char
  else if Ascii.eqb e "b" then Some (ascii_of_nat 8)
  else if Ascii.eqb e "t" then Some (ascii_of_nat 9)
  else if Ascii.eqb e "n" then Some (ascii_of_nat 10)
  else if Ascii.eqb e "f" then Some (ascii_of_nat 12)
  else if Ascii.eqb e "r" then Some (ascii_of_nat 13)
  else None.

Definition cons_body (c : ascii) (r : option (string * string)) : option (string * string) :=
  match r with
  | Some (body, rest) => Some (String c body, rest)
  | None => None
  end.

(** The characters of a string literal after its opening quote, up to the
    closing quote, with the escapes undone. *)
Fixpoint string_body (s : string) : option (string * string) :=
  match s with
  | EmptyString => None
  | String c r =>
      if Ascii.eqb c dquote then Some (EmptyString, r)
      else if Ascii.eqb c backslash then
        match r with
        | EmptyString => None
        | String e r1 =>
            if Ascii.eqb e "u" then
              match r1 with
              | String h1 (String h2 (String h3 (String h4 r2))) =>
                  match hex_value h1, hex_value h2, hex_value h3, hex_value h4 with
                  | Some 0%nat, Some 0%nat, Some a, Some b =>
                      cons_body (ascii_of_nat (16 * a + b)) (string_body r2)
                  | _, _, _, _ => None
                  end
              | _ => None
              end
            else
              match simple_escape e with
              | Some c' => cons_body c' (string_body r1)
              | None => None
              end
        end
      else cons_body c (string_body r)
  end.

Definition parse_string (s : string) : option (string * string) :=
  match s with
  | String c r => if Ascii.eqb c dquote then string_body r else None
  | EmptyString => None
  end.

End Json.

(** ** Data model *)

(** One entry of an elevator's [job_queue]: [{ start, end, jobId }]. *)
Record job : Type := { start : Z; end_ : Z; jobId : string }.

Definition job_value (j : job) : Json.value :=
  Json.Obj [("start"%string, Json.Num (start j));
            ("end"%string, Json.Num (end_ j));
            ("jobId"%string, Json.Str (jobId j))].

(** [JSON.stringify] of a job array. *)
Definition stringify_jobs (q : list job) : string :=
  Json.stringify (Json.Arr (map job_value q)).

Definition parse_job (s : string) : option (job * string) :=
  match Json.expect ("{" +++ Json.quoted "start" +++ ":") s with
  | None => None
  | Some s1 =>
  match Json.parse_int s1 with
  | None => None
  | Some (a, s2) =>
  match Json.expect ("," +++ Json.quoted "end" +++ ":") s2 with
  | None => None
  | Some s3 =>
  match Json.parse_int s3 with
  | None => None
  | Some (b, s4) =>
  match Json.expect ("," +++ Json.quoted "jobId" +++ ":") s4 with
  | None => None
  | Some s5 =>
  match Json.parse_string s5 with
  | None => None
  | Some (j, s6) =>
  match Json.expect "}" s6 with
  | None => None
  | Some s7 => Some ({| start := a; end_ := b; jobId := j |}, s7)
  end end end end end end end.

(** The elements of a non-empty array, up to and including its bracket. *)
Fixpoint parse_elems (fuel : nat) (s : string) : option (list job * string) :=
  match fuel with
  | O => None
  | S fuel' =>
      match parse_job s with
      | None => None
      | Some (j, r) =>
          match r with
          | EmptyString => None
          | String c r' =>
              if Ascii.eqb c "]" then Some ([j], r')
              else if Ascii.eqb c "," then
                match parse_elems fuel' r' with
                | Some (js, r2) => Some (j :: js, r2)
                | None => None
                end
              else None
          end
      end
  end.

(** [JSON.parse] of the [job_queue] column.  The column is written by
    [initializeDb] (the literal for the empty array) and by
    [updateElevatorState] (the output of [JSON.stringify]) only, so the
    reader covers the texts [JSON.stringify] produces for job arrays; on any
    other text it answers [None], which the callers turn into a thrown
    [SyntaxError]. *)
Definition parse_jobs (s : string) : option (list job) :=
  match s with
  | String c r =>
      if Ascii.eqb c "[" then
        match r with
        | String c' EmptyString => if Ascii.eqb c' "]" then Some [] else None
        | _ =>
            match parse_elems (String.length r) r with
            | Some (js, EmptyString) => Some js
            | _ => None
            end
        end
      else None
  | EmptyString => None
  end.

(** A row of table [elevators]; [job_queue] is a TEXT column. *)
Record elevator_row : Type := {
  row_id : Z;
  row_current_floor : Z;
  row_state : string;
  row_direction : string;
  row_job_queue : string
}.

(** What the [job_queue] property of an elevator object holds: the column's
    text as [dbAll] returns it, or the array [getElevatorById] parsed. *)
Inductive queue_value : Type :=
| QText (text : string)
| QJobs (jobs : list job).

(** An elevator object, as the db functions hand it to their callers. *)
Record elevator : Type := {
  id : Z;
  current_floor : Z;
  state : string;
  direction : string;
  job_queue : queue_value
}.

(** A row of table [event_logs].  [timestamp] holds the clock's
    milliseconds; the ISO rendering of [toISOString] is not modelled. *)
Record event_row : Type := {
  event_id : string;
  timestamp : Z;
  elevator_id : Z;
  event_type : string;
  details : string
}.

(** A row of table [sql_logs]. *)
Record sql_row : Type := {
  sql_id : string;
  sql_timestamp : Z;
  query_text : string;
  who : string;
  where_from : option string;
  what : option string
}.

(** The [newState] argument of [updateElevatorState]: any property may be
    missing. *)
Record partial : Type := {
  new_current_floor : option Z;
  new_state : option string;
  new_direction : option string;
  new_job_queue : option (list job)
}.

(** The callbacks handed to [setTimeout], with the variables each closure
    captures. *)
Inductive task : Type :=
| FloorStep (elevatorId : Z) (dir : string) (endFloor nextFloor : Z)
| DoorClose (elevatorId floor : Z)
| SecondLeg (elevatorId startFloor endFloor : Z) (jobId : string).

(** The module-level [config] object of the service. *)
Record Config : Type := {
  FLOOR_TRAVEL_TIME_MS : Z;
  DOOR_ACTION_TIME_MS : Z;
  MAX_FLOORS : Z
}.

(** [parseInt(process.env.X, 10) || d]: an unset or unreadable variable
    ([None]) and a zero both give the default. *)
Definition or_default (env : option Z) (d : Z) : Z :=
  match env with
  | Some v => if v =? 0 then d else v
  | None => d
  end.

Definition config_of_env (travel door floors : option Z) : Config :=
  {| FLOOR_TRAVEL_TIME_MS := or_default travel 5000;
     DOOR_ACTION_TIME_MS := or_default door 2000;
     MAX_FLOORS := or_default floors 20 |}.

(** The process state: the three tables, how many identifiers [uuidv4] has
    handed out, the clock in milliseconds, and the pending timers in the
    order they were registered, each with the time it is due. *)
Record world : Type := {
  elevators : list elevator_row;
  event_logs : list event_row;
  sql_logs : list sql_row;
  uuids_drawn : nat;
  now : Z;
  timers : list (Z * task)
}.

Definition set_elevators (l : list elevator_row) (w : world) : world :=
  {| elevators := l; event_logs := event_logs w; sql_logs := sql_logs w;
     uuids_drawn := uuids_drawn w; now := now w; timers := timers w |}.

Definition set_event_logs (l : list event_row) (w : world) : world :=
  {| elevators := elevators w; event_logs := l; sql_logs := sql_logs w;
     uuids_drawn := uuids_drawn w; now := now w; timers := timers w |}.

Definition set_sql_logs (l : list sql_row) (w : world) : world :=
  {| elevators := elevators w; event_logs := event_logs w; sql_logs := l;
     uuids_drawn := uuids_drawn w; now := now w; timers := timers w |}.

Definition set_uuids_drawn (n : nat) (w : world) : world :=
  {| elevators := elevators w; event_logs := event_logs w; sql_logs := sql_logs w;
     uuids_drawn := n; now := now w; timers := timers w |}.

Definition set_now (t : Z) (w : world) : world :=
  {| elevators := elevators w; event_logs := event_logs w; sql_logs := sql_logs w;
     uuids_drawn := uuids_drawn w; now := t; timers := timers w |}.

Definition set_timers (l : list (Z * task)) (w : world) : world :=
  {| elevators := elevators w; event_logs := event_logs w; sql_logs := sql_logs w;
     uuids_drawn := uuids_drawn w; now := now w; timers := l |}.

(** A fresh process: empty database, clock at zero, nothing scheduled. *)
Definition empty_world : world :=
  {| elevators := []; event_logs := []; sql_logs := [];
     uuids_drawn := 0%nat; now := 0; timers := [] |}.

(** ** Asynchronous functions

    An [async] function runs on the process state and either resolves or
    rejects.  Each one runs to completion before the next timer fires: the
    database answers within the tick. *)

Inductive result (A : Type) : Type :=
| Ok (a : A)
| Throw (msg : string).
Arguments Ok {A} a.
Arguments Throw {A} msg.

Definition M (A : Type) : Type := world -> result A * world.

Definition ret {A} (a : A) : M A := fun w => (Ok a, w).

Definition bind {A B} (m : M A) (k : A -> M B) : M B :=
  fun w =>
    match m w with
    | (Ok a, w') => k a w'
    | (Throw e, w') => (Throw e, w')
    end.

Definition throw {A} (msg : string) : M A := fun w => (Throw msg, w).

Declare Scope async_scope.
Delimit Scope async_scope with async.
Notation "x <- m ;; k" := (bind m (fun x => k))
  (at level 61, m at next level, right associativity) : async_scope.
Notation "m ;; k" := (bind m (fun _ => k))
  (at level 61, right associativity) : async_scope.
Local Open Scope async_scope.

(** A promise nobody awaits: its effects happen, its rejection is lost.
    Its effects happen here, before the caller goes on; in the program they
    happen once its awaits have been served, while the caller goes on. *)
Definition detached {A} (m : M A) : M unit :=
  fun w => (Ok tt, snd (m w)).

Definition modify (f : world -> world) : M unit := fun w => (Ok tt, f w).
Definition gets {A} (f : world -> A) : M A := fun w => (Ok (f w), w).

(** ** JavaScript operators *)

(** [a || b] where [a] is a number or [undefined]: zero is falsy. *)
Definition or_number (a : option Z) (b : Z) : Z :=
  match a with
  | Some v => if v =? 0 then b else v
  | None => b
  end.

(** [a || b] where [a] is a string or [undefined]: the empty string is
    falsy. *)
Definition or_string (a : option string) (b : string) : string :=
  match a with
  | Some v => if String.eqb v EmptyString then b else v
  | None => b
  end.

(** [a || b] where [a] is an array or [undefined]: every array is truthy. *)
Definition or_queue (a : option (list job)) (b : queue_value) : queue_value :=
  match a with
  | Some q => QJobs q
  | None => b
  end.

(** [JSON.stringify] of a [job_queue] property. *)
Definition stringify_queue (q : queue_value) : string :=
  match q with
  | QText s => Json.quoted s
  | QJobs l => stringify_jobs l
  end.

(** The argument of [getElevatorStatus]: the route passes the query-string
    value, the JSDoc allows a number, a string or nothing. *)
Inductive id_arg : Type :=
| Undefined
| Number (n : Z)
| Text (s : string).

Definition truthy (a : id_arg) : bool :=
  match a with
  | Undefined => false
  | Number n => negb (n =? 0)
  | Text s => negb (String.eqb s EmptyString)
  end.

(** The white space and the line ends [parseInt] strips.  Of one byte: tab
    to carriage return, the space, and 160, the no-break space of a text
    given in Latin-1 (a byte no UTF-8 character starts with). *)
Definition is_space (c : ascii) : bool :=
  let n := nat_of_ascii c in
  Nat.eqb n 32 || (Nat.leb 9 n && Nat.leb n 13) || Nat.eqb n 160.

(** Of two bytes: U+00A0, the no-break space. *)
Definition is_space2 (a b : ascii) : bool :=
  Nat.eqb (nat_of_ascii a) 194 && Nat.eqb (nat_of_ascii b) 160.

(** Of three bytes: U+1680, U+2000 to U+200A, U+2028, U+2029, U+202F,
    U+205F, U+3000 and U+FEFF. *)
Definition is_space3 (a b c : ascii) : bool :=
  let x := nat_of_ascii a in
  let y := nat_of_ascii b in
  let z := nat_of_ascii c in
  (Nat.eqb x 225 && Nat.eqb y 154 && Nat.eqb z 128)
  || (Nat.eqb x 226 && Nat.eqb y 128
      && ((Nat.leb 128 z && Nat.leb z 138) || Nat.eqb z 168 || Nat.eqb z 169
          || Nat.eqb z 175))
  || (Nat.eqb x 226 && Nat.eqb y 129 && Nat.eqb z 159)
  || (Nat.eqb x 227 && Nat.eqb y 128 && Nat.eqb z 128)
  || (Nat.eqb x 239 && Nat.eqb y 187 && Nat.eqb z 191).

Fixpoint skip_spaces (s : string) : string :=
  match s with
  | String a r =>
      if is_space a then skip_spaces r
      else
        match r with
        | String b r' =>
            if is_space2 a b then skip_spaces r'
            else
              match r' with
              | String c r'' => if is_space3 a b c then skip_spaces r'' else s
              | EmptyString => s
              end
        | EmptyString => s
        end
  | EmptyString => EmptyString
  end.

Definition digit_value (radix : Z) (c : ascii) : option Z :=
  match Json.hex_value c with
  | Some d => if Z.of_nat d <? radix then Some (Z.of_nat d) else None
  | None => None
  end.

Fixpoint read_digits (radix : Z) (s : string) (acc : option Z) : option Z :=
  match s with
  | EmptyString => acc
  | String c r =>
      match digit_value radix c with
      | Some d =>
          read_digits radix r
            (Some (match acc with Some a => a * radix + d | None => d end))
      | None => acc
      end
  end.

(** [parseInt(s)] with no radix; [None] is [NaN]. *)
Definition parseInt_string (s : string) : option Z :=
  let s1 := skip_spaces s in
  let signed :=
    match s1 with
    | String c r =>
        if Ascii.eqb c "-" then (true, r)
        else if Ascii.eqb c "+" then (false, r)
        else (false, s1)
    | EmptyString => (false, s1)
    end in
  let s2 := snd signed in
  let magnitude :=
    match s2 with
    | String c (String x r) =>
        if Ascii.eqb c "0" && (Ascii.eqb x "x" || Ascii.eqb x "X")
        then read_digits 16 r None
        else read_digits 10 s2 None
    | _ => read_digits 10 s2 None
    end in
  option_map (fun z => if fst signed then - z else z) magnitude.

(** The digit an integer starts with. *)
Definition leading_digit (n : Z) : Z :=
  match Json.string_of_Z (Z.abs n) with
  | String c _ => match digit_value 10 c with Some d => d | None => 0 end
  | EmptyString => 0
  end.

(** [parseInt] reads the text of its argument.  The text of an integer
    below 10^21 in size is all its digits; from there on it is in exponent
    notation, of which [parseInt] reads the sign and the one digit before
    the point. *)
Definition parseInt (a : id_arg) : option Z :=
  match a with
  | Undefined => None
  | Number n =>
      if Z.abs n <? 10 ^ 21 then Some n else Some (Z.sgn n * leading_digit n)
  | Text s => parseInt_string s
  end.

(** A number inside a template literal: an integer of a size a double
    holds exactly and prints in full. *)
Definition render_number (n : option Z) : string :=
  match n with
  | Some z => Json.string_of_Z z
  | None => "NaN"
  end.

(** [setTimeout] runs a callback whose delay is below 1 or above
    2147483647 after 1 ms. *)
Definition timer_delay (delay : Z) : Z :=
  if (delay <? 1) || (2147483647 <? delay) then 1 else delay.

Section Program.

(** [uuid_of n] is the [n]-th identifier the [uuid] package hands out in this
    run of the process. *)
Variable uuid_of : nat -> string.

Variable config : Config.

Definition uuidv4 : M string :=
  fun w => (Ok (uuid_of (uuids_drawn w)), set_uuids_drawn (S (uuids_drawn w)) w).

Definition setTimeout (callback : task) (delay : Z) : M unit :=
  modify (fun w => set_timers (timers w ++ [(now w + timer_delay delay, callback)]) w).

(** *** db/db.js *)

Definition logSql (query who_ : string) (where_ what_ : option string) : M unit :=
  id_ <- uuidv4 ;;
  modify (fun w =>
    set_sql_logs
      (sql_logs w ++
       [{| sql_id := id_; sql_timestamp := now w; query_text := query;
           who := who_; where_from := where_; what := what_ |}]) w).

Definition logEvent (elevator_id_ : Z) (event_type_ : string) (details_ : Json.value)
  : M unit :=
  let detailsString := Json.stringify details_ in
  id_ <- uuidv4 ;;
  modify (fun w =>
    set_event_logs
      (event_logs w ++
       [{| event_id := id_; timestamp := now w; elevator_id := elevator_id_;
           event_type := event_type_; details := detailsString |}]) w).

(** [INSERT INTO elevators ... VALUES (i, 1, 'Idle', 'None', '[]')]. *)
Definition initial_row (i : Z) : elevator_row :=
  {| row_id := i; row_current_floor := 1; row_state := "Idle";
     row_direction := "None"; row_job_queue := "[]" |}.

(** The loop [for (let i = 1; i <= numElevators; i++)], by the number of
    iterations left. *)
Fixpoint insert_elevators (iterations : nat) (i : Z) : M unit :=
  match iterations with
  | O => ret tt
  | S n =>
      modify (fun w => set_elevators (elevators w ++ [initial_row i]) w) ;;
      insert_elevators n (i + 1)
  end.

(** [NUM_ELEVATORS] is the environment variable as [parseInt] read it.  The
    default is 3 (5 in the second copy of the file). *)
Definition initializeDb (NUM_ELEVATORS : option Z) : M unit :=
  let numElevators := or_default NUM_ELEVATORS 3 in
  elevatorCount <- gets (fun w => List.length (elevators w)) ;;
  if Nat.eqb elevatorCount 0
  then insert_elevators (Z.to_nat numElevators) 1
  else ret tt.

(** A row as [dbAll] and [dbGet] return it. *)
Definition object_of_row (r : elevator_row) : elevator :=
  {| id := row_id r; current_floor := row_current_floor r; state := row_state r;
     direction := row_direction r; job_queue := QText (row_job_queue r) |}.

Definition getElevators : M (list elevator) :=
  logSql "SELECT * FROM elevators" "system" None None ;;
  gets (fun w => map object_of_row (elevators w)).

(** [SELECT * FROM elevators WHERE id = ?]; [NaN] is bound as NULL and
    matches no row. *)
Definition select_by_id (i : option Z) (rows : list elevator_row) : option elevator_row :=
  match i with
  | Some n => find (fun r => row_id r =? n) rows
  | None => None
  end.

(** [{ ...row, job_queue: JSON.parse(row.job_queue) }]. *)
Definition with_parsed_queue (r : elevator_row) (q : list job) : elevator :=
  {| id := row_id r; current_floor := row_current_floor r; state := row_state r;
     direction := row_direction r; job_queue := QJobs q |}.

Definition getElevatorById (i : option Z) : M (option elevator) :=
  logSql ("SELECT * FROM elevators WHERE id = " +++ render_number i) "system" None None ;;
  row <- gets (fun w => select_by_id i (elevators w)) ;;
  match row with
  | Some r =>
      match parse_jobs (row_job_queue r) with
      | Some q => ret (Some (with_parsed_queue r q))
      | None => throw "SyntaxError"
      end
  | None => ret None
  end.

(** [UPDATE elevators SET ... WHERE id = ?]. *)
Definition update_row (i floor : Z) (st dir queue : string) (r : elevator_row)
  : elevator_row :=
  if row_id r =? i
  then {| row_id := row_id r; row_current_floor := floor; row_state := st;
          row_direction := dir; row_job_queue := queue |}
  else r.

Definition state_update_details (newState : partial) : Json.value :=
  Json.object
    [("state"%string, option_map Json.Str (new_state newState));
     ("direction"%string, option_map Json.Str (new_direction newState));
     ("current_floor"%string, option_map Json.Num (new_current_floor newState))].

Definition updateElevatorState (i : Z) (newState : partial) : M unit :=
  found <- getElevatorById (Some i) ;;
  match found with
  | None => ret tt
  | Some e =>
      let newJobQueue := stringify_queue (or_queue (new_job_queue newState) (job_queue e)) in
      modify (fun w =>
        set_elevators
          (map (update_row i
                  (or_number (new_current_floor newState) (current_floor e))
                  (or_string (new_state newState) (state e))
                  (or_string (new_direction newState) (direction e))
                  newJobQueue)
               (elevators w)) w) ;;
      logEvent i "state_update" (state_update_details newState)
  end.

(** *** services/elevatorService.js *)

Definition distance_to (startFloor : Z) (e : elevator) : Z :=
  Z.abs (current_floor e - startFloor).

(** The [for] loop of [findClosestIdleElevator] over [elevators[1..]]. *)
Fixpoint closest_loop (startFloor : Z) (rest : list elevator)
    (closestElevator : elevator) (minDistance : Z) : elevator :=
  match rest with
  | [] => closestElevator
  | e :: rest' =>
      let distance := distance_to startFloor e in
      if distance <? minDistance
      then closest_loop startFloor rest' e distance
      else closest_loop startFloor rest' closestElevator minDistance
  end.

Definition is_idle (e : elevator) : bool := String.eqb (state e) "Idle".

Definition closest_of (startFloor : Z) (idle : list elevator) : option elevator :=
  match idle with
  | [] => None
  | e0 :: rest => Some (closest_loop startFloor rest e0 (distance_to startFloor e0))
  end.

Definition findClosestIdleElevator (startFloor : Z) : M (option elevator) :=
  all <- getElevators ;;
  ret (closest_of startFloor (filter is_idle all)).

Definition doors_details (floor : Z) (doors : string) : Json.value :=
  Json.Obj [("current_floor"%string, Json.Num floor); ("doors"%string, Json.Str doors)].

Definition arriveAtFloor (elevatorId floor : Z) : M unit :=
  updateElevatorState elevatorId
    {| new_current_floor := None; new_state := Some "DoorsOpen"%string;
       new_direction := None; new_job_queue := None |} ;;
  logEvent elevatorId "arrival" (doors_details floor "open") ;;
  setTimeout (DoorClose elevatorId floor) (DOOR_ACTION_TIME_MS config).

(** The callback [arriveAtFloor] schedules. *)
Definition closeDoors (elevatorId floor : Z) : M unit :=
  updateElevatorState elevatorId
    {| new_current_floor := None; new_state := Some "Idle"%string;
       new_direction := Some "None"%string; new_job_queue := Some [] |} ;;
  logEvent elevatorId "door_close" (doors_details floor "closed").

(** One run of the closure [floorIterator] of a [moveElevator] call: neither
    the state update nor [arriveAtFloor] is awaited. *)
Definition floorIterator (elevatorId : Z) (dir : string) (endFloor currentFloor : Z)
  : M unit :=
  if currentFloor =? endFloor then detached (arriveAtFloor elevatorId endFloor)
  else
    detached (updateElevatorState elevatorId
      {| new_current_floor := Some currentFloor; new_state := None;
         new_direction := None; new_job_queue := None |}) ;;
    let nextFloor := if String.eqb dir "Up" then currentFloor + 1 else currentFloor - 1 in
    setTimeout (FloorStep elevatorId dir endFloor nextFloor) (FLOOR_TRAVEL_TIME_MS config).

Definition moveElevator (elevatorId startFloor endFloor : Z) (jobId_ : string) : M unit :=
  found <- getElevatorById (Some elevatorId) ;;
  match found with
  | None => ret tt
  | Some _ =>
      let dir := if endFloor >? startFloor then "Up"%string else "Down"%string in
      updateElevatorState elevatorId
        {| new_current_floor := None; new_state := Some "Moving"%string;
           new_direction := Some dir;
           new_job_queue :=
             Some [{| start := startFloor; end_ := endFloor; jobId := jobId_ |}] |} ;;
      floorIterator elevatorId dir endFloor startFloor
  end.

(** What [callElevator] resolves with. *)
Record call_result : Type := {
  success : bool;
  result_jobId : option string;
  message : string;
  result_elevator_id : option Z;
  status : option string
}.

Definition rejected (msg : string) : call_result :=
  {| success := false; result_jobId := None; message := msg;
     result_elevator_id := None; status := None |}.

Definition call_details (startFloor endFloor : Z) (jobId_ : string) : Json.value :=
  Json.Obj [("start_floor"%string, Json.Num startFloor);
            ("end_floor"%string, Json.Num endFloor);
            ("jobId"%string, Json.Str jobId_)].

Definition callElevator (startFloor endFloor : Z) : M call_result :=
  if (startFloor =? endFloor) || (startFloor >? MAX_FLOORS config)
     || (endFloor >? MAX_FLOORS config)
  then ret (rejected "Invalid floor numbers.")
  else
    found <- findClosestIdleElevator startFloor ;;
    match found with
    | None => ret (rejected "No idle elevators available.")
    | Some e =>
        jobId_ <- uuidv4 ;;
        logEvent (id e) "call" (call_details startFloor endFloor jobId_) ;;
        moveElevator (id e) (current_floor e) startFloor jobId_ ;;
        let timeToArriveAtStart :=
          Z.abs (startFloor - current_floor e) * FLOOR_TRAVEL_TIME_MS config in
        setTimeout (SecondLeg (id e) startFloor endFloor jobId_)
          (timeToArriveAtStart + DOOR_ACTION_TIME_MS config * 2) ;;
        ret {| success := true; result_jobId := Some jobId_;
               message := "Elevator dispatched.";
               result_elevator_id := Some (id e); status := Some "Moving"%string |}
    end.

Definition getElevatorStatus (elevatorId : id_arg) : M (list elevator) :=
  if truthy elevatorId then
    found <- getElevatorById (parseInt elevatorId) ;;
    ret (match found with Some e => [e] | None => [] end)
  else getElevators.

(** ** The event loop *)

Definition run_task (t : task) : M unit :=
  match t with
  | FloorStep elevatorId dir endFloor nextFloor =>
      floorIterator elevatorId dir endFloor nextFloor
  | DoorClose elevatorId floor => closeDoors elevatorId floor
  | SecondLeg elevatorId startFloor endFloor jobId_ =>
      moveElevator elevatorId startFloor endFloor jobId_
  end.

(** The pending timer that fires next: the earliest due, the first
    registered among equals; and the timers that stay. *)
Fixpoint next_timer (l : list (Z * task)) : option ((Z * task) * list (Z * task)) :=
  match l with
  | [] => None
  | t :: r =>
      match next_timer r with
      | None => Some (t, [])
      | Some (t', r') =>
          if fst t <=? fst t' then Some (t, r) else Some (t', t :: r')
      end
  end.

(** The clock reaches the next timer and its callback runs; a rejection
    of the callback's promise is not handled by anyone. *)
Definition fire_next (w : world) : option world :=
  match next_timer (timers w) with
  | None => None
  | Some ((due, t), rest) =>
      Some (snd (run_task t (set_now (Z.max (now w) due) (set_timers rest w))))
  end.

(** Let the clock reach [deadline], firing what is due on the way. *)
Fixpoint run_until (fuel : nat) (deadline : Z) (w : world) : world :=
  match fuel with
  | O => w
  | S fuel' =>
      match next_timer (timers w) with
      | Some ((due, _), _) =>
          if due <=? deadline
          then match fire_next w with
               | Some w' => run_until fuel' deadline w'
               | None => w
               end
          else set_now (Z.max (now w) deadline) w
      | None => set_now (Z.max (now w) deadline) w
      end
  end.

Definition advance (fuel : nat) (ms : Z) (w : world) : world :=
  run_until fuel (now w + ms) w.

(** What can happen to a running process: a request to either entry point
    of the service, a timer firing, time passing short of the next timer. *)
Inductive step : world -> world -> Prop :=
| step_call (w : world) (startFloor endFloor : Z) :
    step w (snd (callElevator startFloor endFloor w))
| step_status (w : world) (elevatorId : id_arg) :
    step w (snd (getElevatorStatus elevatorId w))
| step_timer (w w' : world) :
    fire_next w = Some w' -> step w w'
| step_wait (w : world) (t : Z) :
    now w <= t ->
    (forall due task_ rest, next_timer (timers w) = Some ((due, task_), rest) -> t <= due) ->
    step w (set_now t w).

(** The states of a process started on an empty database. *)
Inductive reachable (NUM_ELEVATORS : option Z) : world -> Prop :=
| reachable_init :
    reachable NUM_ELEVATORS (snd (initializeDb NUM_ELEVATORS empty_world))
| reachable_step (w w' : world) :
    reachable NUM_ELEVATORS w -> step w w' -> reachable NUM_ELEVATORS w'.

End Program.

(** A row removed behind the program's back ([DELETE FROM elevators WHERE
    id = ?] run by someone else on the database file). *)
Definition delete_elevator (i : Z) (w : world) : world :=
  set_elevators (filter (fun r => negb (row_id r =? i)) (elevators w)) w.

(** ** The HTTP surface: routes/elevator.js and app.js

    A request is given with the route it reached (which route a method and
    a path select is Express's business) and with the fields of [req] the
    logging middleware of app.js reads. *)

(** A property of a parsed JSON body; a number is an integer, as the floors
    are throughout, and [JsObject] stands for objects and arrays. *)
Inductive js_value : Type :=
| JsUndefined
| JsNull
| JsBoolean (b : bool)
| JsNumber (n : Z)
| JsString (s : string)
| JsObject.

Definition typeof (v : js_value) : string :=
  match v with
  | JsUndefined => "undefined"
  | JsNull => "object"
  | JsBoolean _ => "boolean"
  | JsNumber _ => "number"
  | JsString _ => "string"
  | JsObject => "object"
  end.

(** [req.body] of [POST /call], a JSON object, destructured: a property the
    object lacks is [JsUndefined]. *)
Record call_body : Type := { start_floor : js_value; end_floor : js_value }.

Inductive endpoint : Type :=
| PostCall (body : call_body)
| GetStatus (elevator_id_param : option string)
| GetLogs.

Record request : Type := {
  method : string;
  originalUrl : string;
  path : string;
  ip : string;
  target : endpoint
}.

(** What [res.json] is given. *)
Inductive response_body : Type :=
| Dispatched (r : call_result)
| ErrorBody (error : string)
| StatusBody (elevators_ : list elevator)
| LogsBody (eventLogs : list event_row) (sqlLogs : list sql_row).

Record response : Type := { status_code : Z; json : response_body }.

(** [try { ... } catch (err) { ... }] around an [async] body. *)
Definition try_catch {A} (body : M A) (handler : string -> M A) : M A :=
  fun w =>
    match body w with
    | (Ok a, w') => (Ok a, w')
    | (Throw err, w') => handler err w'
    end.

Definition internal_error : M response :=
  ret {| status_code := 500; json := ErrorBody "Internal server error." |}.

Section Server.

Variable uuid_of : nat -> string.
Variable config : Config.

(** db/db.js: both log tables as they are; this read is not audited. *)
Definition getLogs : M (list event_row * list sql_row) :=
  eventLogs <- gets event_logs ;;
  sqlLogs <- gets sql_logs ;;
  ret (eventLogs, sqlLogs).

(** [router.post('/call', ...)]; [typeof v !== 'number'] holds of every
    value but a [JsNumber]. *)
Definition post_call (body : call_body) : M response :=
  try_catch
    (match start_floor body, end_floor body with
     | JsNumber s, JsNumber e =>
         result <- callElevator uuid_of config s e ;;
         if success result
         then ret {| status_code := 202; json := Dispatched result |}
         else ret {| status_code := 400; json := ErrorBody (message result) |}
     | _, _ =>
         ret {| status_code := 400;
                json := ErrorBody "Start and end floors must be numbers." |}
     end)
    (fun _ => internal_error).

(** [router.get('/status', ...)]; [req.query.elevator_id] is a string or
    absent. *)
Definition get_status (elevator_id_param : option string) : M response :=
  try_catch
    (status_ <- getElevatorStatus uuid_of
                  (match elevator_id_param with
                   | Some s => Text s
                   | None => Undefined
                   end) ;;
     ret {| status_code := 200; json := StatusBody status_ |})
    (fun _ => internal_error).

(** [router.get('/logs', ...)]. *)
Definition get_logs : M response :=
  try_catch
    (logs <- getLogs ;;
     ret {| status_code := 200; json := LogsBody (fst logs) (snd logs) |})
    (fun _ => internal_error).

(** The middleware of app.js: one audit line per request, not awaited.
    (The other revision of the file quotes the two texts with plain quotes,
    so that they are written as they stand, without the method and the
    path.) *)
Definition track_request (req : request) : M unit :=
  detached
    (logSql uuid_of ("Logged API request: " +++ method req +++ " " +++ path req)
       "API_Client" (Some (ip req)) (Some (method req +++ " " +++ originalUrl req))).

(** A request through the middleware and its route. *)
Definition serve (req : request) : M response :=
  track_request req ;;
  match target req with
  | PostCall body => post_call body
  | GetStatus elevator_id_param => get_status elevator_id_param
  | GetLogs => get_logs
  end.

(** What can happen to the server: a request, a timer firing, time passing
    short of the next timer. *)
Inductive serve_step : world -> world -> Prop :=
| serve_request (w : world) (req : request) :
    serve_step w (snd (serve req w))
| serve_timer (w w' : world) :
    fire_next uuid_of config w = Some w' -> serve_step w w'
| serve_wait (w : world) (t : Z) :
    now w <= t ->
    (forall due task_ rest, next_timer (timers w) = Some ((due, task_), rest) -> t <= due) ->
    serve_step w (set_now t w).

(** The states of a server started on an empty database. *)
Inductive served (NUM_ELEVATORS : option Z) : world -> Prop :=
| served_init :
    served NUM_ELEVATORS (snd (initializeDb NUM_ELEVATORS empty_world))
| served_step (w w' : world) :
    served NUM_ELEVATORS w -> serve_step w w' -> served NUM_ELEVATORS w'.

(** Any number of steps of the server. *)
Inductive serve_steps : world -> world -> Prop :=
| serve_steps_refl (w : world) : serve_steps w w
| serve_steps_next (w1 w2 w3 : world) :
    serve_steps w1 w2 -> serve_step w2 w3 -> serve_steps w1 w3.

End Server.

(** A new process on the database file an old one left: the tables are
    those of the old process, its timers are gone with it, and
    [initializeDb] runs again before the server listens. *)
Definition restart (NUM_ELEVATORS : option Z) (w : world) : world :=
  snd (initializeDb NUM_ELEVATORS (set_timers [] w)).

(** ** Vocabulary of the statements *)

(** The text of a [job_queue] column that [JSON.stringify] wrote. *)
Definition canonical (r : elevator_row) : Prop :=
  exists q, row_job_queue r = stringify_jobs q.

Definition well_formed (w : world) : Prop := Forall canonical (elevators w).

Definition has_idle (w : world) : Prop :=
  exists r, In r (elevators w) /\ row_state r = "Idle"%string.

(** A call the spec counts as valid. *)
Definition valid_call (config : Config) (startFloor endFloor : Z) : Prop :=
  startFloor <> endFloor /\
  1 <= startFloor <= MAX_FLOORS config /\
  1 <= endFloor <= MAX_FLOORS config.

(** What holds of the state, direction and queue columns of every row. *)
Definition fields_inv (st dir queue : string) : Prop :=
  exists q, queue = stringify_jobs q /\
            (dir = "None"%string <-> q = []) /\
            (st = "Idle"%string -> dir = "None"%string).

Definition row_inv (r : elevator_row) : Prop :=
  fields_inv (row_state r) (row_direction r) (row_job_queue r).

Definition store_inv (rows : list elevator_row) : Prop :=
  Forall row_inv rows /\ StronglySorted Z.lt (map row_id rows).

(** An update that keeps [fields_inv]. *)
Definition inv_partial (p : partial) : Prop :=
  forall st dir queue q,
    fields_inv st dir queue -> parse_jobs queue = Some q ->
    fields_inv (or_string (new_state p) st) (or_string (new_direction p) dir)
      (stringify_queue (or_queue (new_job_queue p) (QJobs q))).

(** The direction [moveElevator] computes for a leg. *)
Definition leg_direction (startFloor endFloor : Z) : string :=
  if endFloor >? startFloor then "Up" else "Down".

(** The row [updateElevatorState] writes over row [r], whose queue reads
    back as [q]. *)
Definition merged_row (r : elevator_row) (p : partial) (q : list job) : elevator_row :=
  {| row_id := row_id r;
     row_current_floor := or_number (new_current_floor p) (row_current_floor r);
     row_state := or_string (new_state p) (row_state r);
     row_direction := or_string (new_direction p) (row_direction r);
     row_job_queue := stringify_queue (or_queue (new_job_queue p) (QJobs q)) |}.

(** Delays that [setTimeout] takes as they are. *)
Definition timers_in_range (config : Config) : Prop :=
  1 <= FLOOR_TRAVEL_TIME_MS config <= 2147483647 /\
  1 <= DOOR_ACTION_TIME_MS config <= 2147483647.

(** The floor [floorIterator] schedules after [currentFloor]. *)
Definition next_floor (dir : string) (currentFloor : Z) : Z :=
  if String.eqb dir "Up" then currentFloor + 1 else currentFloor - 1.

(** The floor [n] steps from [currentFloor] in direction [dir]. *)
Definition floor_after (dir : string) (currentFloor : Z) (n : nat) : Z :=
  if String.eqb dir "Up" then currentFloor + Z.of_nat n else currentFloor - Z.of_nat n.

(** The last floor a leg towards [endFloor] writes to the store. *)
Definition floor_before (dir : string) (endFloor : Z) : Z :=
  if String.eqb dir "Up" then endFloor - 1 else endFloor + 1.

(** The delay of the second leg is one [setTimeout] takes as it is,
    whatever the two floors of the first leg. *)
Definition estimate_in_range (config : Config) : Prop :=
  MAX_FLOORS config * FLOOR_TRAVEL_TIME_MS config + DOOR_ACTION_TIME_MS config * 2
  <= 2147483647.

(** Every elevator stands at a floor of the building. *)
Definition floors_in_range (config : Config) (w : world) : Prop :=
  forall r, In r (elevators w) -> 1 <= row_current_floor r <= MAX_FLOORS config.

(** What [callElevator] estimates for a trip of an elevator at floor [c]:
    both legs of travel, and a door opening and a door closing after each. *)
Definition estimated_duration (config : Config) (c startFloor endFloor : Z) : Z :=
  (Z.abs (startFloor - c) + Z.abs (endFloor - startFloor)) * FLOOR_TRAVEL_TIME_MS config
  + 4 * DOOR_ACTION_TIME_MS config.

(** The clock is kept by a step. *)
Definition same_instant (w w' : world) : Prop := now w' = now w.

(** [m] takes every state to one that [R] relates to it. *)
Definition respects (R : world -> world -> Prop) {A} (m : M A) : Prop :=
  forall w, R w (snd (m w)).

(** The store invariant is carried from one state to the other. *)
Definition keeps_store_inv (w w' : world) : Prop :=
  store_inv (elevators w) -> store_inv (elevators w').

(** No identifier is handed out twice: the count only grows. *)
Definition draws_more (w w' : world) : Prop :=
  (uuids_drawn w <= uuids_drawn w')%nat.

(** The three-way equivalence of the data model, on a stored row. *)
Definition idle_iff_no_direction_iff_no_job (r : elevator_row) : Prop :=
  (row_direction r = "None"%string <-> row_state r = "Idle"%string) /\
  (row_state r = "Idle"%string <-> parse_jobs (row_job_queue r) = Some []) /\
  (row_direction r = "None"%string <-> parse_jobs (row_job_queue r) = Some []).

(** The details of a [state_update] event that would carry the merged
    record. *)
Definition merged_details (e : elevator) : string :=
  Json.stringify
    (Json.Obj [("state"%string, Json.Str (state e));
               ("direction"%string, Json.Str (direction e));
               ("current_floor"%string, Json.Num (current_floor e))]).

(** The reading of the spec under which a [state_update] event carries the
    merged record: after the update the elevator reads back as some [e'],
    exactly one event was appended, and its details are those of [e']. *)
Definition state_update_carries_merged_record
    (uuid_of : nat -> string) (i : Z) (p : partial) (w : world) : Prop :=
  let w' := snd (updateElevatorState uuid_of i p w) in
  exists e' ev,
    fst (getElevatorById uuid_of (Some i) w') = Ok (Some e') /\
    event_logs w' = event_logs w ++ [ev] /\
    details ev = merged_details e'.

(** The elevator a timer's callback works on. *)
Definition names (t : task) : Z :=
  match t with
  | FloorStep i _ _ _ => i
  | DoorClose i _ => i
  | SecondLeg i _ _ _ => i
  end.

(** The four updates the service makes. *)
Definition floor_update (currentFloor : Z) : partial :=
  {| new_current_floor := Some currentFloor; new_state := None;
     new_direction := None; new_job_queue := None |}.

Definition doors_open_update : partial :=
  {| new_current_floor := None; new_state := Some "DoorsOpen"%string;
     new_direction := None; new_job_queue := None |}.

Definition idle_update : partial :=
  {| new_current_floor := None; new_state := Some "Idle"%string;
     new_direction := Some "None"%string; new_job_queue := Some [] |}.

Definition moving_update (startFloor endFloor : Z) (jobId_ : string) : partial :=
  {| new_current_floor := None; new_state := Some "Moving"%string;
     new_direction := Some (leg_direction startFloor endFloor);
     new_job_queue :=
       Some [{| start := startFloor; end_ := endFloor; jobId := jobId_ |}] |}.

(** The timer [floorIterator] leaves behind at [currentFloor]: the door
    closing at the end of the leg, the next floor before. *)
Definition scheduled_at (elevatorId : Z) (dir : string) (endFloor currentFloor : Z) : task :=
  if currentFloor =? endFloor then DoorClose elevatorId endFloor
  else FloorStep elevatorId dir endFloor (next_floor dir currentFloor).

(** The timer a callback leaves behind, if any. *)
Definition successor (t : task) : option task :=
  match t with
  | FloorStep i dir e c => Some (scheduled_at i dir e c)
  | DoorClose _ _ => None
  | SecondLeg i s e _ => Some (scheduled_at i (leg_direction s e) e s)
  end.




(** The SQL log got lines of the program itself only. *)
Definition adds_system_lines (w w' : world) : Prop :=
  exists sqls,
    sql_logs w' = sql_logs w ++ sqls /\
    Forall (fun l => who l = "system"%string) sqls.

(** The timers and the clock are kept. *)
Definition same_schedule (w w' : world) : Prop :=
  timers w' = timers w /\ now w' = now w.

(** Nothing was registered from [w] to [w'] but, at most, timer [t]. *)
Definition leaves_behind (t : option task) (w w' : world) : Prop :=
  exists l,
    timers w' = timers w ++ l /\
    (l = [] \/ exists due t', t = Some t' /\ l = [(due, t')]).


(** Table [elevators] is kept. *)
Definition same_rows (w w' : world) : Prop := elevators w' = elevators w.

(** No elevator stands above the top floor. *)
Definition floors_below_top (config : Config) (w : world) : Prop :=
  Forall (fun r => row_current_floor r <= MAX_FLOORS config) (elevators w).

Definition keeps_floors_below_top (config : Config) (w w' : world) : Prop :=
  floors_below_top config w -> floors_below_top config w'.

(** An update that writes no floor above the top floor. *)
Definition writes_below_top (config : Config) (i : Z) (p : partial) : Prop :=
  forall c, new_current_floor p = Some c -> c <= MAX_FLOORS config.



(** The rows of elevator [i], and the others. *)
Definition rows_of (i : Z) (w : world) : list elevator_row :=
  filter (fun r => row_id r =? i) (elevators w).

Definition rows_but (i : Z) (w : world) : list elevator_row :=
  filter (fun r => negb (row_id r =? i)) (elevators w).

Definition keeps_rows_of (i : Z) (w w' : world) : Prop := rows_of i w' = rows_of i w.

Definition keeps_rows_but (i : Z) (w w' : world) : Prop := rows_but i w' = rows_but i w.

(** No pending timer works on elevator [i]. *)
Definition no_timer_for (i : Z) (w : world) : Prop :=
  Forall (fun dt => names (snd dt) <> i) (timers w).

(** The state machine of an elevator, on the state, direction and queue
    columns of a row: three states, three directions, one job at most, and
    a job when moving. *)
Definition machine_fields (st dir queue : string) : Prop :=
  (st = "Idle"%string \/ st = "Moving"%string \/ st = "DoorsOpen"%string) /\
  (dir = "None"%string \/ dir = "Up"%string \/ dir = "Down"%string) /\
  exists q, queue = stringify_jobs q /\ (List.length q <= 1)%nat /\
            (st = "Moving"%string -> q <> []).

Definition in_state_machine (r : elevator_row) : Prop :=
  machine_fields (row_state r) (row_direction r) (row_job_queue r).

Definition keeps_state_machine (w w' : world) : Prop :=
  Forall in_state_machine (elevators w) -> Forall in_state_machine (elevators w').

(** An update that keeps [machine_fields]. *)
Definition machine_update (i : Z) (p : partial) : Prop :=
  forall st dir queue q,
    machine_fields st dir queue -> parse_jobs queue = Some q ->
    machine_fields (or_string (new_state p) st) (or_string (new_direction p) dir)
      (stringify_queue (or_queue (new_job_queue p) (QJobs q))).

(** From [w] to [w'] the clock did not go back, and each log is the log
    of [w] followed by lines in clock order stamped between the two
    clocks. *)
Definition logs_grow (w w' : world) : Prop :=
  now w <= now w' /\
  (exists evs,
     event_logs w' = event_logs w ++ evs /\
     StronglySorted Z.le (map timestamp evs) /\
     Forall (fun ev => now w <= timestamp ev <= now w') evs) /\
  (exists sqls,
     sql_logs w' = sql_logs w ++ sqls /\
     StronglySorted Z.le (map sql_timestamp sqls) /\
     Forall (fun r => now w <= sql_timestamp r <= now w') sqls).

(** The ids of the lines of both logs are identifiers drawn so far, each
    draw used for one line at most. *)
Definition ids_from_draws (uuid_of : nat -> string) (w : world) : Prop :=
  exists ke ks : list nat,
    map event_id (event_logs w) = map uuid_of ke /\
    map sql_id (sql_logs w) = map uuid_of ks /\
    NoDup (ke ++ ks) /\
    Forall (fun k => (k < uuids_drawn w)%nat) (ke ++ ks).

Definition keeps_ids_from_draws (uuid_of : nat -> string) (w w' : world) : Prop :=
  ids_from_draws uuid_of w -> ids_from_draws uuid_of w'.

(** The ids of the rows, in table order, are kept. *)
Definition same_fleet (w w' : world) : Prop :=
  map row_id (elevators w') = map row_id (elevators w).

(** The ids [initializeDb] gives to [n] elevators. *)
Definition fleet_ids (n : nat) : list Z := map Z.of_nat (seq 1 n).

(** A relation between the state before and after that the database layer
    keeps, for the updates [good] admits. *)
Class Writes (uuid_of : nat -> string) (R : world -> world -> Prop)
    (good : Z -> partial -> Prop) : Prop := {
  writes_refl : forall w, R w w;
  writes_trans : forall a b c, R a b -> R b c -> R a c;
  writes_uuidv4 : respects R (uuidv4 uuid_of);
  writes_logSql : forall q, respects R (logSql uuid_of q "system" None None);
  writes_logEvent : forall i t d, respects R (logEvent uuid_of i t d);
  writes_update : forall i p, good i p -> respects R (updateElevatorState uuid_of i p)
}.

(** A relation that the audit line of a request keeps. *)
Class Tracks (uuid_of : nat -> string) (R : world -> world -> Prop) : Prop := {
  tracks_request : forall req, respects R (track_request uuid_of req)
}.

(** A relation that registering a timer keeps. *)
Class Schedules (R : world -> world -> Prop) : Prop := {
  schedules_setTimeout : forall t d, respects R (setTimeout t d)
}.

(** A relation that the clock keeps when it moves forward, with or without
    a timer leaving the queue. *)
Class Clock (R : world -> world -> Prop) : Prop := {
  clock_pop : forall w due rest, R w (set_now (Z.max (now w) due) (set_timers rest w));
  clock_wait : forall w t, now w <= t -> R w (set_now t w)
}.

(** The updates a callback makes are [good]. *)
Definition good_task (good : Z -> partial -> Prop) (t : task) : Prop :=
  match t with
  | FloorStep i _ _ c => good i doors_open_update /\ good i (floor_update c)
  | DoorClose i _ => good i idle_update
  | SecondLeg i s e j =>
      good i (moving_update s e j) /\ good i doors_open_update /\ good i (floor_update s)
  end.

(** ** Sample runs *)

(** A generator that never repeats: the draw number in decimal. *)
Definition sample_uuid (n : nat) : string :=
  "uuid-" +++ NilEmpty.string_of_uint (Nat.to_uint n).

Definition default_config : Config := config_of_env None None None.

(** A process started with [n] elevators. *)
Definition started (n : Z) : world :=
  snd (initializeDb (Some n) empty_world).

Definition after_call (startFloor endFloor : Z) (w : world) : world :=
  snd (callElevator sample_uuid default_config startFloor endFloor w).

(** Fire the next [n] timers. *)
Fixpoint fire_times (uuid_of : nat -> string) (config : Config) (n : nat) (w : world)
  : world :=
  match n with
  | O => w
  | S n' =>
      match fire_next uuid_of config w with
      | Some w' => fire_times uuid_of config n' w'
      | None => w
      end
  end.

(** Two elevators at floor 1, a call from floor 5 to floor 15, and the clock
    advanced by the estimate of both legs:
    (4 + 10) floors of travel and four door actions. *)
Definition completed_trip : world :=
  advance sample_uuid default_config 100 (14 * 5000 + 4 * 2000)
    (after_call 5 15 (started 2)).

(** One elevator; a call from floor 1 to floor 3; once the doors of the
    first leg have closed, a second call from floor 5 to floor 6 takes the
    same elevator; then eight timers fire. *)
Definition overlapping_trips : world :=
  fire_times sample_uuid default_config 8
    (after_call 5 6
       (fire_times sample_uuid default_config 1 (after_call 1 3 (started 1)))).

(** One elevator on its way from floor 1 to floor 3 when its row is deleted;
    then every pending timer fires. *)
Definition deleted_mid_flight : world :=
  advance sample_uuid default_config 100 100000
    (delete_elevator 1 (after_call 3 5 (started 1))).

(** The fleet of the spec's scenario: elevators idle at floors 1 and 10. *)
Definition two_idle_elevators : world :=
  set_elevators
    [{| row_id := 1; row_current_floor := 1; row_state := "Idle";
        row_direction := "None"; row_job_queue := "[]" |};
     {| row_id := 2; row_current_floor := 10; row_state := "Idle";
        row_direction := "None"; row_job_queue := "[]" |}]
    empty_world.

(** Requests of a client on the machine of the server. *)
Definition call_request (startFloor endFloor : Z) : request :=
  {| method := "POST"; originalUrl := "/api/elevator/call";
     path := "/api/elevator/call"; ip := "127.0.0.1";
     target := PostCall {| start_floor := JsNumber startFloor;
                           end_floor := JsNumber endFloor |} |}.

Definition status_request (elevator_id_ : string) : request :=
  {| method := "GET";
     originalUrl := "/api/elevator/status?elevator_id=" +++ elevator_id_;
     path := "/api/elevator/status"; ip := "127.0.0.1";
     target := GetStatus (Some elevator_id_) |}.

Definition logs_request : request :=
  {| method := "GET"; originalUrl := "/api/elevator/logs";
     path := "/api/elevator/logs"; ip := "127.0.0.1"; target := GetLogs |}.

Definition after_request (req : request) (w : world) : world :=
  snd (serve sample_uuid default_config req w).

(** A server started with two elevators that has taken a call from floor 5
    to floor 15. *)
Definition dispatched : world := after_request (call_request 5 15) (started 2).

(** Any number of steps of a running process. *)
Inductive steps (uuid_of : nat -> string) (config : Config) : world -> world -> Prop :=
| steps_refl (w : world) : steps uuid_of config w w
| steps_next (w1 w2 w3 : world) :
    steps uuid_of config w1 w2 -> step uuid_of config w2 w3 ->
    steps uuid_of config w1 w3.

(** *** Shapes of JSON text used in the round-trip proofs *)

(** Every character is a sign or a digit. *)
Fixpoint all_int (s : string) : bool :=
  match s with
  | EmptyString => true
  | String c r => Json.is_int_char c && all_int r
  end.

(** The text ends, or goes on with something that is no part of a number. *)
Definition stops (r : string) : Prop :=
  match r with
  | EmptyString => True
  | String c _ => Json.is_int_char c = false
  end.

(** [JSON.stringify] of one job. *)
Definition job_text (j : job) : string := Json.stringify (job_value j).

(** * Properties *)

(** ** The program on small inputs *)

Example stringify_one_job :
  stringify_jobs [{| start := 1; end_ := 5; jobId := "a-b" |}]
  = ("[{" +++ Json.quoted "start" +++ ":1," +++ Json.quoted "end" +++ ":5,"
     +++ Json.quoted "jobId" +++ ":" +++ Json.quoted "a-b" +++ "}]").
Proof. reflexivity. Qed.

Example parse_two_jobs :
  parse_jobs (stringify_jobs [{| start := -3; end_ := 0; jobId := "x" |};
                              {| start := 12; end_ := 7; jobId := "" |}])
  = Some [{| start := -3; end_ := 0; jobId := "x" |};
          {| start := 12; end_ := 7; jobId := "" |}].
Proof. reflexivity. Qed.

Example parse_rejects_other_text : parse_jobs "[1]" = None.
Proof. reflexivity. Qed.

Example parseInt_reads_a_prefix :
  parseInt_string " 12abc" = Some 12 /\ parseInt_string "-0x1F" = Some (-31) /\
  parseInt_string "abc" = None /\ parseInt_string "" = None.
Proof. repeat split; reflexivity. Qed.

(** The spec's scenario: elevators at floors 1 and 10, a call from floor 5:
    the elevator at floor 1 is 4 floors away, the other 5. *)
Example closest_of_floors_1_and_10 :
  option_map id
    (closest_of 5 (filter is_idle (map object_of_row (elevators two_idle_elevators))))
  = Some 1.
Proof. reflexivity. Qed.

(** Two idle elevators equally far from the call: the first row wins. *)
Example closest_of_a_tie :
  option_map id
    (closest_of 5
       [{| id := 1; current_floor := 7; state := "Idle"; direction := "None";
           job_queue := QText "[]" |};
        {| id := 2; current_floor := 3; state := "Idle"; direction := "None";
           job_queue := QText "[]" |};
        {| id := 3; current_floor := 9; state := "Idle"; direction := "None";
           job_queue := QText "[]" |}])
  = Some 1.
Proof. reflexivity. Qed.

Example same_floor_is_rejected :
  fst (callElevator sample_uuid default_config 1 1 (started 1))
  = Ok (rejected "Invalid floor numbers.").
Proof. reflexivity. Qed.

Example status_of_an_unknown_id :
  fst (getElevatorStatus sample_uuid (Text "7") (started 3)) = Ok [].
Proof. vm_compute. reflexivity. Qed.

Example status_of_a_known_id :
  fst (getElevatorStatus sample_uuid (Text "2") (started 3))
  = Ok [{| id := 2; current_floor := 1; state := "Idle"; direction := "None";
           job_queue := QJobs [] |}].
Proof. vm_compute. reflexivity. Qed.

Example status_of_all :
  fst (getElevatorStatus sample_uuid Undefined (started 2))
  = Ok [{| id := 1; current_floor := 1; state := "Idle"; direction := "None";
           job_queue := QText "[]" |};
        {| id := 2; current_floor := 1; state := "Idle"; direction := "None";
           job_queue := QText "[]" |}].
Proof. vm_compute. reflexivity. Qed.

(** The timers of an accepted call: the next floor of the first leg after
    one travel interval, the second leg after the estimate of the first. *)
Example timers_after_a_call :
  timers (after_call 5 15 (started 2))
  = [(5000, FloorStep 1 "Up" 5 2); (24000, SecondLeg 1 5 15 (sample_uuid 1))].
Proof. vm_compute. reflexivity. Qed.

(** ** JSON round trip *)

Module JsonFacts.
Import Json.

Lemma append_assoc (a b c : string) : (a +++ b) +++ c = a +++ b +++ c.
Proof. induction a as [|x a IH]; simpl; [reflexivity | now rewrite IH]. Qed.

Lemma expect_append (lit r : string) : expect lit (lit +++ r) = Some r.
Proof.
  induction lit as [|a lit IH]; simpl; [reflexivity|].
  now rewrite Ascii.eqb_refl.
Qed.

Lemma string_body_escape_char (c : ascii) (t : string) :
  string_body (escape_char c +++ t) = cons_body c (string_body t).
Proof.
  destruct c as [[] [] [] [] [] [] [] []]; reflexivity.
Qed.

Lemma string_body_escape (s r : string) :
  string_body (escape s +++ String dquote r) = Some (s, r).
Proof.
  induction s as [|c s IH]; simpl.
  - reflexivity.
  - rewrite append_assoc, string_body_escape_char, IH. reflexivity.
Qed.

Lemma parse_string_quoted (s r : string) :
  parse_string (quoted s +++ r) = Some (s, r).
Proof.
  unfold quoted, parse_string. simpl.
  rewrite append_assoc. simpl. apply string_body_escape.
Qed.


Lemma span_int_app (a r : string) :
  all_int a = true -> stops r -> span_int (a +++ r) = (a, r).
Proof.
  induction a as [|c a IH]; simpl; intros Ha Hr.
  - destruct r as [|c r]; simpl in *; [reflexivity | now rewrite Hr].
  - apply andb_true_iff in Ha as [Hc Ha]. rewrite Hc, IH; auto.
Qed.

Lemma all_int_uint (d : Decimal.uint) : all_int (NilEmpty.string_of_uint d) = true.
Proof. induction d; simpl; auto. Qed.

Lemma all_int_string_of_Z (z : Z) : all_int (string_of_Z z) = true.
Proof.
  unfold string_of_Z, NilZero.string_of_int, NilZero.string_of_uint.
  destruct (Z.to_int z) as [d|d]; destruct d; simpl; auto using all_int_uint.
Qed.

Lemma int_of_string_of_Z (z : Z) :
  NilZero.int_of_string (string_of_Z z) = Some (Z.to_int z).
Proof.
  unfold string_of_Z. apply NilZero.isi.
  - destruct z; simpl; try discriminate;
      intros [= H]; now apply (Unsigned.to_uint_nonnil p).
  - destruct z; simpl; try discriminate;
      intros [= H]; now apply (Unsigned.to_uint_nonnil p).
Qed.

Lemma parse_int_string_of_Z (z : Z) (r : string) :
  stops r -> parse_int (string_of_Z z +++ r) = Some (z, r).
Proof.
  intros Hr. unfold parse_int.
  rewrite span_int_app by auto using all_int_string_of_Z.
  rewrite int_of_string_of_Z. now rewrite DecimalZ.of_to.
Qed.

End JsonFacts.

Import JsonFacts.

Lemma job_text_eq (j : job) (rest : string) :
  job_text j +++ rest =
  ("{" +++ Json.quoted "start" +++ ":") +++ Json.string_of_Z (start j) +++
  ("," +++ Json.quoted "end" +++ ":") +++ Json.string_of_Z (end_ j) +++
  ("," +++ Json.quoted "jobId" +++ ":") +++ Json.quoted (jobId j) +++ "}" +++ rest.
Proof.
  unfold job_text, job_value. cbn [Json.stringify map Json.join fst snd].
  repeat rewrite append_assoc. reflexivity.
Qed.

Lemma parse_job_text (j : job) (rest : string) :
  parse_job (job_text j +++ rest) = Some (j, rest).
Proof.
  rewrite job_text_eq. unfold parse_job.
  rewrite expect_append.
  rewrite parse_int_string_of_Z by reflexivity.
  rewrite expect_append.
  rewrite parse_int_string_of_Z by reflexivity.
  rewrite expect_append.
  rewrite parse_string_quoted.
  rewrite expect_append. now destruct j.
Qed.


Lemma length_append (a b : string) :
  String.length (a +++ b) = (String.length a + String.length b)%nat.
Proof. induction a; simpl; auto. Qed.

Lemma job_text_head (j : job) : exists t, job_text j = String "{" (String Json.dquote t).
Proof.
  unfold job_text, job_value. cbn [Json.stringify map Json.join fst snd].
  eexists. reflexivity.
Qed.

Lemma stringify_jobs_eq (q : list job) :
  stringify_jobs q = String "[" (Json.join "," (map job_text q) +++ "]").
Proof.
  unfold stringify_jobs. cbn [Json.stringify]. now rewrite map_map.
Qed.

Lemma join_cons2 (sep x y : string) (l : list string) :
  Json.join sep (x :: y :: l) = x +++ sep +++ Json.join sep (y :: l).
Proof. reflexivity. Qed.

Lemma parse_elems_join (q : list job) : forall (j : job) (rest : string) (fuel : nat),
  (List.length q < fuel)%nat ->
  parse_elems fuel (Json.join "," (map job_text (j :: q)) +++ String "]" rest)
  = Some (j :: q, rest).
Proof.
  induction q as [|j' q IH]; intros j rest fuel Hf;
    (destruct fuel as [|fuel]; [simpl in Hf; lia|]).
  - cbn [map Json.join parse_elems]. rewrite parse_job_text. reflexivity.
  - cbn [map]. rewrite join_cons2. rewrite !append_assoc.
    cbn [parse_elems]. rewrite parse_job_text.
    cbn [String.append]. cbn [Ascii.eqb Bool.eqb].
    change (job_text j' :: map job_text q) with (map job_text (j' :: q)).
    rewrite IH by (simpl in Hf; lia). reflexivity.
Qed.

Lemma length_join (q : list job) : forall j,
  (List.length q < String.length (Json.join "," (map job_text (j :: q))))%nat.
Proof.
  induction q as [|j' q IH]; intros j.
  - destruct (job_text_head j) as [t Ht]. cbn [map Json.join]. rewrite Ht. simpl. lia.
  - cbn [map]. rewrite join_cons2, !length_append.
    change (job_text j' :: map job_text q) with (map job_text (j' :: q)).
    specialize (IH j'). simpl List.length. simpl String.length at 2. lia.
Qed.

(** [JSON.parse] undoes [JSON.stringify] on job arrays. *)
Lemma parse_stringify_jobs (q : list job) : parse_jobs (stringify_jobs q) = Some q.
Proof.
  destruct q as [|j q]; [reflexivity|].
  rewrite stringify_jobs_eq. unfold parse_jobs. cbn [Ascii.eqb Bool.eqb].
  pose proof (length_join q j) as Hlen.
  pose proof (parse_elems_join q j EmptyString) as Hp.
  remember (Json.join "," (map job_text (j :: q))) as body eqn:Hb.
  assert (Hshape : exists t, body +++ "]" = String "{" (String Json.dquote t)).
  { subst body. destruct (job_text_head j) as [t Ht].
    destruct q as [|j' q]; cbn [map]; [cbn [Json.join]|rewrite join_cons2];
      rewrite Ht; simpl; eexists; reflexivity. }
  destruct Hshape as [t Ht].
  specialize (Hp (String.length (body +++ "]"))).
  rewrite length_append in Hp. simpl String.length in Hp at 2.
  assert (Hp' := Hp ltac:(lia)). clear Hp.
  rewrite <- length_append in Hp'. rewrite Ht in *. rewrite Hp'. reflexivity.
Qed.

(** ** What every operation leaves alone *)

Section Respects.

Variable uuid_of : nat -> string.
Variable config : Config.

(** A relation between the state before and after, kept by every write
    except those to table [elevators], and by the updates [good] admits. *)
Variable R : world -> world -> Prop.
Variable good : partial -> Prop.

Hypothesis R_refl : forall w, R w w.
Hypothesis R_trans : forall a b c, R a b -> R b c -> R a c.
Hypothesis R_uuid : forall w, R w (set_uuids_drawn (S (uuids_drawn w)) w).
Hypothesis R_sql : forall l w, R w (set_sql_logs l w).
Hypothesis R_event : forall l w, R w (set_event_logs l w).
Hypothesis R_timers : forall l w, R w (set_timers l w).
Hypothesis R_now : forall t w, R w (set_now t w).
Hypothesis R_update :
  forall i p w, good p -> R w (snd (updateElevatorState uuid_of i p w)).

Hypothesis good_floor : forall c,
  good {| new_current_floor := Some c; new_state := None;
          new_direction := None; new_job_queue := None |}.
Hypothesis good_doors :
  good {| new_current_floor := None; new_state := Some "DoorsOpen"%string;
          new_direction := None; new_job_queue := None |}.
Hypothesis good_idle :
  good {| new_current_floor := None; new_state := Some "Idle"%string;
          new_direction := Some "None"%string; new_job_queue := Some [] |}.
Hypothesis good_moving : forall dir j,
  dir = "Up"%string \/ dir = "Down"%string ->
  good {| new_current_floor := None; new_state := Some "Moving"%string;
          new_direction := Some dir; new_job_queue := Some [j] |}.

Lemma respects_ret {A} (a : A) : respects R (ret a).
Proof. intros w. apply R_refl. Qed.

Lemma respects_throw {A} (e : string) : respects R (@throw A e).
Proof. intros w. apply R_refl. Qed.

Lemma respects_gets {A} (f : world -> A) : respects R (gets f).
Proof. intros w. apply R_refl. Qed.

Lemma respects_bind {A B} (m : M A) (k : A -> M B) :
  respects R m -> (forall a, respects R (k a)) -> respects R (bind m k).
Proof.
  intros Hm Hk w. unfold bind. specialize (Hm w).
  destruct (m w) as [[a|e] w1]; simpl in *; [|exact Hm].
  eapply R_trans; [exact Hm | apply Hk].
Qed.

Lemma respects_detached {A} (m : M A) : respects R m -> respects R (detached m).
Proof. intros Hm w. apply Hm. Qed.

Lemma respects_uuidv4 : respects R (uuidv4 uuid_of).
Proof. intros w. apply R_uuid. Qed.

Lemma respects_setTimeout t d : respects R (setTimeout t d).
Proof. intros w. apply R_timers. Qed.

Lemma respects_logSql q a b c : respects R (logSql uuid_of q a b c).
Proof.
  apply respects_bind; [apply respects_uuidv4|]. intros i w. apply R_sql.
Qed.

Lemma respects_logEvent i t d : respects R (logEvent uuid_of i t d).
Proof.
  apply respects_bind; [apply respects_uuidv4|]. intros u w. apply R_event.
Qed.

Lemma respects_getElevators : respects R (getElevators uuid_of).
Proof.
  apply respects_bind; [apply respects_logSql|]. intros _. apply respects_gets.
Qed.

Lemma respects_getElevatorById i : respects R (getElevatorById uuid_of i).
Proof.
  apply respects_bind; [apply respects_logSql|]. intros _.
  apply respects_bind; [apply respects_gets|]. intros [r|]; [|apply respects_ret].
  destruct (parse_jobs (row_job_queue r)); [apply respects_ret | apply respects_throw].
Qed.

Lemma respects_findClosestIdleElevator s :
  respects R (findClosestIdleElevator uuid_of s).
Proof.
  apply respects_bind; [apply respects_getElevators|]. intros l. apply respects_ret.
Qed.

Lemma respects_arriveAtFloor i f : respects R (arriveAtFloor uuid_of config i f).
Proof.
  apply respects_bind; [intros w; now apply R_update|]. intros _.
  apply respects_bind; [apply respects_logEvent|]. intros _.
  apply respects_setTimeout.
Qed.

Lemma respects_closeDoors i f : respects R (closeDoors uuid_of i f).
Proof.
  apply respects_bind; [intros w; now apply R_update|]. intros _.
  apply respects_logEvent.
Qed.

Lemma respects_floorIterator i dir e c :
  respects R (floorIterator uuid_of config i dir e c).
Proof.
  unfold floorIterator. destruct (c =? e).
  - apply respects_detached, respects_arriveAtFloor.
  - apply respects_bind; [|intros _; apply respects_setTimeout].
    apply respects_detached. intros w. now apply R_update.
Qed.

Lemma respects_moveElevator i s e j : respects R (moveElevator uuid_of config i s e j).
Proof.
  apply respects_bind; [apply respects_getElevatorById|].
  intros [el|]; [|apply respects_ret].
  apply respects_bind; [|intros _; apply respects_floorIterator].
  intros w. apply R_update, good_moving. destruct (e >? s); auto.
Qed.

Lemma respects_callElevator s e : respects R (callElevator uuid_of config s e).
Proof.
  unfold callElevator.
  destruct ((s =? e) || (s >? MAX_FLOORS config) || (e >? MAX_FLOORS config));
    [apply respects_ret|].
  apply respects_bind; [apply respects_findClosestIdleElevator|].
  intros [el|]; [|apply respects_ret].
  apply respects_bind; [apply respects_uuidv4|]. intros j.
  apply respects_bind; [apply respects_logEvent|]. intros _.
  apply respects_bind; [apply respects_moveElevator|]. intros _.
  apply respects_bind; [apply respects_setTimeout|]. intros _.
  apply respects_ret.
Qed.

Lemma respects_getElevatorStatus a : respects R (getElevatorStatus uuid_of a).
Proof.
  unfold getElevatorStatus. destruct (truthy a); [|apply respects_getElevators].
  apply respects_bind; [apply respects_getElevatorById|]. intros o. apply respects_ret.
Qed.

Lemma respects_run_task t : respects R (run_task uuid_of config t).
Proof.
  destruct t; simpl.
  - apply respects_floorIterator.
  - apply respects_closeDoors.
  - apply respects_moveElevator.
Qed.

Lemma fire_next_respects w w' : fire_next uuid_of config w = Some w' -> R w w'.
Proof.
  unfold fire_next. destruct (next_timer (timers w)) as [[[due t] rest]|]; [|discriminate].
  intros [= <-].
  eapply R_trans; [apply R_timers|].
  eapply R_trans; [apply R_now|]. apply respects_run_task.
Qed.

Lemma step_respects w w' : step uuid_of config w w' -> R w w'.
Proof.
  destruct 1.
  - apply respects_callElevator.
  - apply respects_getElevatorStatus.
  - now apply fire_next_respects.
  - apply R_now.
Qed.

Lemma steps_respects w w' : steps uuid_of config w w' -> R w w'.
Proof.
  induction 1; [apply R_refl|]. eapply R_trans; eauto using step_respects.
Qed.

End Respects.

(** ** The store invariant *)

Lemma select_by_id_In (i : option Z) (rows : list elevator_row) (r : elevator_row) :
  select_by_id i rows = Some r -> In r rows.
Proof.
  destruct i as [n|]; simpl; [|discriminate]. intros H. now apply find_some in H.
Qed.

Lemma select_by_id_id (i : Z) (rows : list elevator_row) (r : elevator_row) :
  select_by_id (Some i) rows = Some r -> row_id r = i.
Proof. simpl. intros H. apply find_some in H as [_ H]. lia. Qed.

Lemma row_id_update_row i f st d q rows :
  map row_id (map (update_row i f st d q) rows) = map row_id rows.
Proof.
  rewrite map_map. apply map_ext. intros r. unfold update_row.
  now destruct (row_id r =? i).
Qed.

Lemma row_inv_update_row i f st d q rows :
  fields_inv st d q -> Forall row_inv rows ->
  Forall row_inv (map (update_row i f st d q) rows).
Proof.
  intros Hf Hrows. apply Forall_map. eapply Forall_impl; [|exact Hrows].
  intros r Hr. unfold update_row. now destruct (row_id r =? i).
Qed.

(** The two ways [updateElevatorState] can leave table [elevators]. *)
Lemma updateElevatorState_rows (uuid_of : nat -> string) i p w :
  let w' := snd (updateElevatorState uuid_of i p w) in
  elevators w' = elevators w \/
  exists r q,
    select_by_id (Some i) (elevators w) = Some r /\
    parse_jobs (row_job_queue r) = Some q /\
    elevators w' =
      map (update_row i
             (or_number (new_current_floor p) (row_current_floor r))
             (or_string (new_state p) (row_state r))
             (or_string (new_direction p) (row_direction r))
             (stringify_queue (or_queue (new_job_queue p) (QJobs q))))
          (elevators w).
Proof.
  unfold updateElevatorState, getElevatorById, logSql, logEvent, uuidv4,
    bind, gets, modify, ret, throw. simpl.
  destruct (find (fun r => row_id r =? i) (elevators w)) as [r|] eqn:Hfind; simpl;
    [|now left].
  destruct (parse_jobs (row_job_queue r)) as [q|] eqn:Hq; simpl; [|now left].
  right. exists r, q. auto.
Qed.

Lemma fields_inv_parse st dir queue q :
  fields_inv st dir queue -> parse_jobs queue = Some q -> queue = stringify_jobs q.
Proof.
  intros (q0 & -> & _) H. rewrite parse_stringify_jobs in H. now injection H as ->.
Qed.

Lemma updateElevatorState_keeps_store_inv (uuid_of : nat -> string) i p w :
  inv_partial p -> keeps_store_inv w (snd (updateElevatorState uuid_of i p w)).
Proof.
  intros Hp [Hrows Hsorted].
  destruct (updateElevatorState_rows uuid_of i p w) as [E | (r & q & Hsel & Hq & E)];
    rewrite E; [now split|].
  split.
  - apply row_inv_update_row; [|exact Hrows].
    apply (Hp _ _ (row_job_queue r)); [|exact Hq].
    apply select_by_id_In in Hsel. rewrite Forall_forall in Hrows. now apply Hrows.
  - now rewrite row_id_update_row.
Qed.

Lemma stringify_jobs_nil_iff (q : list job) : stringify_jobs q = "[]"%string <-> q = [].
Proof.
  split; [|now intros ->].
  intros H. pose proof (parse_stringify_jobs q) as Hp. rewrite H in Hp.
  now injection Hp as <-.
Qed.

Lemma inv_partial_floor c :
  inv_partial {| new_current_floor := Some c; new_state := None;
                 new_direction := None; new_job_queue := None |}.
Proof.
  intros st dir queue q Hf Hq. simpl.
  now rewrite <- (fields_inv_parse _ _ _ _ Hf Hq).
Qed.

Lemma inv_partial_doors :
  inv_partial {| new_current_floor := None; new_state := Some "DoorsOpen"%string;
                 new_direction := None; new_job_queue := None |}.
Proof.
  intros st dir queue q Hf Hq. simpl.
  rewrite <- (fields_inv_parse _ _ _ _ Hf Hq).
  destruct Hf as (q0 & E & Hd & _). exists q0. repeat split; try apply Hd; auto.
  discriminate.
Qed.

Lemma inv_partial_idle :
  inv_partial {| new_current_floor := None; new_state := Some "Idle"%string;
                 new_direction := Some "None"%string; new_job_queue := Some [] |}.
Proof. intros st dir queue q _ _. simpl. exists []. repeat split; auto. Qed.

Lemma inv_partial_moving dir j :
  dir = "Up"%string \/ dir = "Down"%string ->
  inv_partial {| new_current_floor := None; new_state := Some "Moving"%string;
                 new_direction := Some dir; new_job_queue := Some [j] |}.
Proof.
  intros Hdir st d queue q _ _. exists [j].
  destruct Hdir as [-> | ->]; simpl; repeat split; discriminate.
Qed.

Lemma keeps_store_inv_step uuid_of config w w' :
  step uuid_of config w w' -> keeps_store_inv w w'.
Proof.
  apply step_respects with (good := inv_partial); unfold keeps_store_inv; auto.
  - intros i p w0. apply updateElevatorState_keeps_store_inv.
  - apply inv_partial_floor.
  - apply inv_partial_doors.
  - apply inv_partial_idle.
  - apply inv_partial_moving.
Qed.

Lemma StronglySorted_snoc (l : list Z) (x : Z) :
  StronglySorted Z.lt l -> Forall (fun y => y < x) l -> StronglySorted Z.lt (l ++ [x]).
Proof.
  induction 1 as [|a l Hl IH Ha]; intros Hx; simpl.
  - repeat constructor.
  - inversion Hx; subst. constructor; [auto|].
    apply Forall_app. split; [exact Ha | now constructor].
Qed.

Lemma initial_row_inv i : row_inv (initial_row i).
Proof. exists []. repeat split; auto. Qed.

Lemma insert_elevators_store_inv (k : nat) : forall (i : Z) (w : world),
  store_inv (elevators w) -> Forall (fun r => row_id r < i) (elevators w) ->
  store_inv (elevators (snd (insert_elevators k i w))).
Proof.
  induction k as [|k IH]; intros i w Hinv Hlt; [exact Hinv|].
  cbn [insert_elevators]. unfold bind, modify. cbn [fst snd].
  apply IH; cbn [elevators set_elevators].
  - destruct Hinv as [Hrows Hsorted]. split.
    + apply Forall_app. split; [exact Hrows|]. constructor; [apply initial_row_inv | constructor].
    + rewrite map_app. apply StronglySorted_snoc; [exact Hsorted|].
      now apply Forall_map.
  - apply Forall_app. split.
    + eapply Forall_impl; [|exact Hlt]. simpl. intros; lia.
    + constructor; [simpl; lia | constructor].
Qed.

Lemma initializeDb_store_inv n :
  store_inv (elevators (snd (initializeDb n empty_world))).
Proof.
  unfold initializeDb, bind, gets. simpl.
  apply insert_elevators_store_inv; simpl; [split|]; constructor.
Qed.

(** Every state of a run keeps the store invariant. *)
Lemma reachable_store_inv uuid_of config n w :
  reachable uuid_of config n w -> store_inv (elevators w).
Proof.
  induction 1 as [|w w' _ IH Hstep].
  - apply initializeDb_store_inv.
  - now apply (keeps_store_inv_step _ _ _ _ Hstep).
Qed.

Lemma row_inv_canonical (r : elevator_row) : row_inv r -> canonical r.
Proof. intros (q & Hq & _). now exists q. Qed.

(** In every state of a run the queue columns read back. *)
Lemma reachable_well_formed uuid_of config n w :
  reachable uuid_of config n w -> well_formed w.
Proof.
  intros H. apply reachable_store_inv in H as [Hrows _].
  eapply Forall_impl; [|exact Hrows]. apply row_inv_canonical.
Qed.

(** ** Running the database functions *)

Section Runs.

Variable uuid_of : nat -> string.
Variable config : Config.

Lemma select_update_row i f st d q rows r :
  select_by_id (Some i) rows = Some r ->
  select_by_id (Some i) (map (update_row i f st d q) rows) =
  Some {| row_id := row_id r; row_current_floor := f; row_state := st;
          row_direction := d; row_job_queue := q |}.
Proof.
  simpl. induction rows as [|h rows IH]; simpl; [discriminate|].
  destruct (row_id h =? i) eqn:Hh.
  - intros [= ->]. unfold update_row. rewrite Hh. simpl. now rewrite Hh.
  - assert (E : update_row i f st d q h = h) by (unfold update_row; now rewrite Hh).
    rewrite E, Hh. exact IH.
Qed.

Lemma getElevatorById_found i w r q :
  select_by_id i (elevators w) = Some r ->
  parse_jobs (row_job_queue r) = Some q ->
  exists w',
    getElevatorById uuid_of i w = (Ok (Some (with_parsed_queue r q)), w') /\
    elevators w' = elevators w /\ event_logs w' = event_logs w /\
    timers w' = timers w /\ now w' = now w /\
    uuids_drawn w' = S (uuids_drawn w).
Proof.
  intros Hsel Hq.
  unfold getElevatorById, logSql, uuidv4, bind, gets, modify, ret. simpl.
  rewrite Hsel, Hq. eexists. split; [reflexivity|]. simpl. auto.
Qed.

Lemma getElevatorById_missing i w :
  select_by_id i (elevators w) = None ->
  exists w',
    getElevatorById uuid_of i w = (Ok None, w') /\
    elevators w' = elevators w /\ event_logs w' = event_logs w /\
    timers w' = timers w /\ now w' = now w /\
    uuids_drawn w' = S (uuids_drawn w).
Proof.
  intros Hsel.
  unfold getElevatorById, logSql, uuidv4, bind, gets, modify, ret. simpl.
  rewrite Hsel. eexists. split; [reflexivity|]. simpl. auto.
Qed.

(** An update of a row that exists and reads back. *)
Lemma updateElevatorState_found i p w r q :
  select_by_id (Some i) (elevators w) = Some r ->
  parse_jobs (row_job_queue r) = Some q ->
  exists w',
    updateElevatorState uuid_of i p w = (Ok tt, w') /\
    elevators w' =
      map (update_row i
             (or_number (new_current_floor p) (row_current_floor r))
             (or_string (new_state p) (row_state r))
             (or_string (new_direction p) (row_direction r))
             (stringify_queue (or_queue (new_job_queue p) (QJobs q))))
          (elevators w) /\
    event_logs w' =
      event_logs w ++
      [{| event_id := uuid_of (S (uuids_drawn w)); timestamp := now w;
          elevator_id := i; event_type := "state_update";
          details := Json.stringify (state_update_details p) |}] /\
    timers w' = timers w /\ now w' = now w /\
    uuids_drawn w' = S (S (uuids_drawn w)).
Proof.
  intros Hsel Hq.
  unfold updateElevatorState, getElevatorById, logSql, logEvent, uuidv4,
    bind, gets, modify, ret.
  simpl in *. rewrite Hsel, Hq. simpl.
  eexists. split; [reflexivity|]. simpl. auto 10.
Qed.

(** An update of a row that does not exist writes nothing but the audit
    line of its lookup. *)
Lemma updateElevatorState_missing i p w :
  select_by_id (Some i) (elevators w) = None ->
  exists w',
    updateElevatorState uuid_of i p w = (Ok tt, w') /\
    elevators w' = elevators w /\ event_logs w' = event_logs w /\
    timers w' = timers w /\ now w' = now w /\
    uuids_drawn w' = S (uuids_drawn w).
Proof.
  intros Hsel.
  unfold updateElevatorState, getElevatorById, logSql, logEvent, uuidv4,
    bind, gets, modify, ret.
  simpl in *. rewrite Hsel. simpl.
  eexists. split; [reflexivity|]. simpl. auto 10.
Qed.

Lemma updateElevatorState_selects i p w r q :
  select_by_id (Some i) (elevators w) = Some r ->
  parse_jobs (row_job_queue r) = Some q ->
  exists w',
    updateElevatorState uuid_of i p w = (Ok tt, w') /\
    select_by_id (Some i) (elevators w') = Some (merged_row r p q) /\
    timers w' = timers w /\ now w' = now w /\
    uuids_drawn w' = S (S (uuids_drawn w)).
Proof.
  intros Hsel Hq.
  destruct (updateElevatorState_found i p w r q Hsel Hq)
    as (w' & E & Hrows & _ & Ht & Hn & Hu).
  exists w'. repeat split; auto.
  rewrite Hrows. now apply select_update_row.
Qed.

Lemma or_string_leg_direction s e b :
  or_string (Some (leg_direction s e)) b = leg_direction s e.
Proof. unfold leg_direction. now destruct (e >? s). Qed.

Lemma moveElevator_found i s e j w r q :
  select_by_id (Some i) (elevators w) = Some r ->
  parse_jobs (row_job_queue r) = Some q ->
  exists w',
    moveElevator uuid_of config i s e j w = (Ok tt, w') /\
    select_by_id (Some i) (elevators w') =
      Some {| row_id := row_id r;
              row_current_floor :=
                if s =? e then row_current_floor r
                else or_number (Some s) (row_current_floor r);
              row_state := if s =? e then "DoorsOpen" else "Moving";
              row_direction := leg_direction s e;
              row_job_queue :=
                stringify_jobs [{| start := s; end_ := e; jobId := j |}] |} /\
    timers w' =
      timers w ++
      [if s =? e
       then (now w + timer_delay (DOOR_ACTION_TIME_MS config), DoorClose i e)
       else (now w + timer_delay (FLOOR_TRAVEL_TIME_MS config),
             FloorStep i (leg_direction s e) e
               (if String.eqb (leg_direction s e) "Up" then s + 1 else s - 1))] /\
    now w' = now w /\
    (uuids_drawn w <= uuids_drawn w')%nat.
Proof.
  intros Hsel Hq.
  unfold moveElevator.
  change (if e >? s then "Up"%string else "Down"%string) with (leg_direction s e).
  destruct (getElevatorById_found _ _ _ _ Hsel Hq) as (w1 & E1 & Hr1 & _ & Ht1 & Hn1 & Hu1).
  unfold bind at 1. rewrite E1.
  rewrite <- Hr1 in Hsel.
  set (job1 := {| start := s; end_ := e; jobId := j |}).
  match goal with |- context [updateElevatorState uuid_of i ?p] =>
    destruct (updateElevatorState_selects i p _ _ _ Hsel Hq)
      as (w2 & E2 & Hsel2 & Ht2 & Hn2 & Hu2)
  end.
  unfold bind at 1. rewrite E2.
  unfold merged_row in Hsel2.
  cbn [new_current_floor new_state new_direction new_job_queue
       or_number or_queue stringify_queue] in Hsel2.
  rewrite or_string_leg_direction in Hsel2.
  change (or_string (Some "Moving"%string) (row_state r)) with "Moving"%string in Hsel2.
  assert (Hq2 : parse_jobs (stringify_jobs [job1]) = Some [job1])
    by apply parse_stringify_jobs.
  unfold floorIterator. destruct (s =? e) eqn:Hse.
  - unfold detached, arriveAtFloor.
    match goal with |- context [updateElevatorState uuid_of i ?p] =>
      destruct (updateElevatorState_selects i p _ _ _ Hsel2 Hq2)
        as (w3 & E3 & Hsel3 & Ht3 & Hn3 & Hu3)
    end.
    unfold bind at 1. rewrite E3.
    unfold logEvent, setTimeout, uuidv4, bind, modify. cbn [fst snd].
    eexists. split; [reflexivity|].
    cbn [elevators timers now uuids_drawn set_timers set_event_logs set_uuids_drawn].
    split; [exact Hsel3 | split; [|split]].
    + rewrite Ht3, Ht2, Ht1, Hn3, Hn2, Hn1. reflexivity.
    + rewrite Hn3, Hn2, Hn1. reflexivity.
    + lia.
  - unfold detached.
    match goal with |- context [updateElevatorState uuid_of i ?p] =>
      destruct (updateElevatorState_selects i p _ _ _ Hsel2 Hq2)
        as (w3 & E3 & Hsel3 & Ht3 & Hn3 & Hu3)
    end.
    unfold bind at 1. rewrite E3. cbn [fst snd].
    unfold setTimeout, modify.
    eexists. split; [reflexivity|].
    cbn [elevators timers now uuids_drawn set_timers set_event_logs set_uuids_drawn].
    split; [exact Hsel3 | split; [|split]].
    + rewrite Ht3, Ht2, Ht1, Hn3, Hn2, Hn1. reflexivity.
    + rewrite Hn3, Hn2, Hn1. reflexivity.
    + lia.
Qed.

Lemma findClosestIdleElevator_run s w :
  exists w',
    findClosestIdleElevator uuid_of s w =
      (Ok (closest_of s (filter is_idle (map object_of_row (elevators w)))), w') /\
    elevators w' = elevators w /\ event_logs w' = event_logs w /\
    timers w' = timers w /\ now w' = now w /\
    uuids_drawn w' = S (uuids_drawn w).
Proof.
  unfold findClosestIdleElevator, getElevators, logSql, uuidv4, bind, gets, modify, ret.
  simpl. eexists. split; [reflexivity|]. simpl. auto.
Qed.

(** The loop keeps the first of the closest elevators seen so far. *)
Lemma closest_loop_spec s (rest : list elevator) : forall pre c seen,
  (forall x, In x pre -> distance_to s c < distance_to s x) ->
  (forall x, In x seen -> distance_to s c <= distance_to s x) ->
  exists before after,
    pre ++ c :: seen ++ rest =
      before ++ closest_loop s rest c (distance_to s c) :: after /\
    (forall x, In x before ->
       distance_to s (closest_loop s rest c (distance_to s c)) < distance_to s x) /\
    (forall x, In x after ->
       distance_to s (closest_loop s rest c (distance_to s c)) <= distance_to s x).
Proof.
  induction rest as [|x rest IH]; intros pre c seen Hpre Hseen.
  - exists pre, seen. rewrite app_nil_r. auto.
  - cbn [closest_loop]. destruct (distance_to s x <? distance_to s c) eqn:Hlt.
    + apply Z.ltb_lt in Hlt.
      destruct (IH (pre ++ c :: seen) x []) as (before & after & E & Hb & Ha).
      * intros y Hy. apply in_app_or in Hy as [Hy | [<- | Hy]].
        -- specialize (Hpre y Hy). lia.
        -- lia.
        -- specialize (Hseen y Hy). lia.
      * intros y [].
      * exists before, after. split; [|auto].
        rewrite <- E. cbn [app]. now rewrite <- app_assoc.
    + apply Z.ltb_ge in Hlt.
      destruct (IH pre c (seen ++ [x])) as (before & after & E & Hb & Ha).
      * exact Hpre.
      * intros y Hy. apply in_app_or in Hy as [Hy | [<- | []]]; auto.
      * exists before, after. split; [|auto].
        rewrite <- E. now rewrite <- app_assoc.
Qed.

Lemma closest_of_spec s idle el :
  closest_of s idle = Some el ->
  exists before after,
    idle = before ++ el :: after /\
    (forall x, In x before -> distance_to s el < distance_to s x) /\
    (forall x, In x after -> distance_to s el <= distance_to s x).
Proof.
  destruct idle as [|e0 rest]; [discriminate|]. intros [= <-].
  destruct (closest_loop_spec s rest [] e0 []) as (before & after & E & Hb & Ha);
    try (intros x []).
  exists before, after. auto.
Qed.

Lemma closest_of_some s idle : idle <> [] -> exists el, closest_of s idle = Some el.
Proof. destruct idle; [congruence|]. intros _. eexists. reflexivity. Qed.

Lemma select_by_id_exists (rows : list elevator_row) (r : elevator_row) :
  In r rows -> exists r', select_by_id (Some (row_id r)) rows = Some r'.
Proof.
  intros Hin. simpl.
  destruct (find (fun x => row_id x =? row_id r) rows) as [r'|] eqn:Hf; [eauto|].
  apply (find_none _ _ Hf) in Hin. lia.
Qed.

Lemma idle_objects_rows (rows : list elevator_row) (el : elevator) :
  In el (filter is_idle (map object_of_row rows)) ->
  exists r, In r rows /\ el = object_of_row r /\ row_state r = "Idle"%string.
Proof.
  intros Hin. apply filter_In in Hin as [Hin Hidle].
  apply in_map_iff in Hin as (r & <- & Hr). exists r. repeat split; auto.
  unfold is_idle in Hidle. now apply String.eqb_eq in Hidle.
Qed.

Lemma has_idle_filter (w : world) :
  has_idle w -> filter is_idle (map object_of_row (elevators w)) <> [].
Proof.
  intros (r & Hr & Hidle) E.
  assert (Hin : In (object_of_row r) (filter is_idle (map object_of_row (elevators w)))).
  { apply filter_In. split; [now apply in_map|].
    unfold is_idle. simpl. now apply String.eqb_eq. }
  rewrite E in Hin. destruct Hin.
Qed.

(** A call that passes validation and finds an idle elevator. *)
Lemma callElevator_accepts s e w el :
  well_formed w ->
  (s =? e) || (s >? MAX_FLOORS config) || (e >? MAX_FLOORS config) = false ->
  closest_of s (filter is_idle (map object_of_row (elevators w))) = Some el ->
  exists w' r',
    callElevator uuid_of config s e w =
      (Ok {| success := true; result_jobId := Some (uuid_of (S (uuids_drawn w)));
             message := "Elevator dispatched.";
             result_elevator_id := Some (id el); status := Some "Moving"%string |},
       w') /\
    select_by_id (Some (id el)) (elevators w') = Some r' /\
    row_state r' = (if current_floor el =? s then "DoorsOpen"%string else "Moving"%string) /\
    row_direction r' = leg_direction (current_floor el) s /\
    row_job_queue r' =
      stringify_jobs [{| start := current_floor el; end_ := s;
                         jobId := uuid_of (S (uuids_drawn w)) |}] /\
    timers w' =
      timers w ++
      [if current_floor el =? s
       then (now w + timer_delay (DOOR_ACTION_TIME_MS config), DoorClose (id el) s)
       else (now w + timer_delay (FLOOR_TRAVEL_TIME_MS config),
             FloorStep (id el) (leg_direction (current_floor el) s) s
               (if String.eqb (leg_direction (current_floor el) s) "Up"
                then current_floor el + 1 else current_floor el - 1));
       (now w + timer_delay (Z.abs (s - current_floor el) * FLOOR_TRAVEL_TIME_MS config
                             + DOOR_ACTION_TIME_MS config * 2),
        SecondLeg (id el) s e (uuid_of (S (uuids_drawn w))))] /\
    now w' = now w /\
    (S (S (uuids_drawn w)) <= uuids_drawn w')%nat.
Proof.
  intros Hwf Hvalid Hclosest.
  unfold callElevator. rewrite Hvalid.
  destruct (findClosestIdleElevator_run s w) as (w1 & E1 & Hr1 & _ & Ht1 & Hn1 & Hu1).
  unfold bind at 1. rewrite E1, Hclosest.
  destruct (closest_of_spec _ _ _ Hclosest) as (before & after & Hsplit & _ & _).
  assert (Hel : In el (filter is_idle (map object_of_row (elevators w))))
    by (rewrite Hsplit; apply in_elt).
  apply idle_objects_rows in Hel as (r & Hr & -> & _).
  destruct (select_by_id_exists _ _ Hr) as (r0 & Hsel).
  assert (Hcanon : canonical r0).
  { unfold well_formed in Hwf. rewrite Forall_forall in Hwf.
    apply Hwf. eapply select_by_id_In; eauto. }
  destruct Hcanon as (q & Hq0).
  assert (Hq : parse_jobs (row_job_queue r0) = Some q)
    by (rewrite Hq0; apply parse_stringify_jobs).
  cbn [id current_floor object_of_row].
  unfold bind at 1, uuidv4 at 1.
  unfold bind at 1, logEvent at 1, bind at 1, uuidv4 at 1, modify at 1.
  set (w2 := set_event_logs _ _).
  assert (Hsel2 : select_by_id (Some (row_id r)) (elevators w2) = Some r0)
    by (subst w2; cbn [elevators set_event_logs set_uuids_drawn]; now rewrite Hr1).
  destruct (moveElevator_found (row_id r) (row_current_floor r) s
              (uuid_of (uuids_drawn w1)) w2 r0 q Hsel2 Hq)
    as (w3 & E3 & Hsel3 & Ht3 & Hn3 & Hu3).
  unfold bind at 1. rewrite E3.
  unfold bind, setTimeout, modify, ret. cbn [fst snd].
  rewrite Hu1 in *.
  eexists. eexists. split; [reflexivity|].
  cbn [elevators timers now uuids_drawn set_timers].
  split; [exact Hsel3|]. cbn [row_state row_direction row_job_queue].
  subst w2. cbn [timers now uuids_drawn set_event_logs set_uuids_drawn] in *.
  repeat split.
  - rewrite Ht3, Ht1, Hn3, Hn1, <- app_assoc. reflexivity.
  - now rewrite Hn3.
  - lia.
Qed.

End Runs.

(** ** Timers *)

Lemma next_timer_In l t r : next_timer l = Some (t, r) -> In t l.
Proof.
  revert t r. induction l as [|a l IH]; intros t r; simpl; [discriminate|].
  destruct (next_timer l) as [[t' r']|].
  - destruct (fst a <=? fst t'); intros [= <- <-]; [now left|].
    right. eapply IH. reflexivity.
  - intros [= <- <-]. now left.
Qed.

Lemma next_timer_none l : next_timer l = None -> l = [].
Proof.
  destruct l as [|a l]; [reflexivity|]. simpl.
  destruct (next_timer l) as [[t' r']|]; [|discriminate].
  destruct (fst a <=? fst t'); discriminate.
Qed.

(** A timer due before everything registered earlier, and no later than
    anything registered after it, fires next. *)
Lemma next_timer_pick (l1 l2 : list (Z * task)) (x : Z * task) :
  (forall y, In y l1 -> fst x < fst y) ->
  (forall y, In y l2 -> fst x <= fst y) ->
  next_timer (l1 ++ x :: l2) = Some (x, l1 ++ l2).
Proof.
  intros H1 H2. induction l1 as [|a l1 IH]; simpl.
  - destruct (next_timer l2) as [[t' r']|] eqn:E.
    + apply next_timer_In in E. apply H2 in E.
      apply Z.leb_le in E. now rewrite E.
    + apply next_timer_none in E. now subst.
  - rewrite IH by (intros y Hy; apply H1; now right).
    assert (Hlt : fst x < fst a) by (apply H1; now left).
    apply Z.leb_gt in Hlt. now rewrite Hlt.
Qed.

Lemma timer_delay_in_range (d : Z) : 1 <= d <= 2147483647 -> timer_delay d = d.
Proof.
  intros [H1 H2]. unfold timer_delay.
  apply Z.ltb_ge in H1. apply Z.ltb_ge in H2. now rewrite H1, H2.
Qed.

(** ** One leg, timer by timer *)

Section Trip.

Variable uuid_of : nat -> string.
Variable config : Config.
Hypothesis delays : timers_in_range config.

Let travel := FLOOR_TRAVEL_TIME_MS config.
Let door := DOOR_ACTION_TIME_MS config.

Lemma floorIterator_step i dir e cur w r q :
  select_by_id (Some i) (elevators w) = Some r ->
  parse_jobs (row_job_queue r) = Some q ->
  cur <> e -> cur <> 0 ->
  exists w',
    floorIterator uuid_of config i dir e cur w = (Ok tt, w') /\
    select_by_id (Some i) (elevators w') =
      Some {| row_id := row_id r; row_current_floor := cur;
              row_state := row_state r; row_direction := row_direction r;
              row_job_queue := stringify_jobs q |} /\
    timers w' = timers w ++ [(now w + travel, FloorStep i dir e (next_floor dir cur))] /\
    now w' = now w.
Proof.
  intros Hsel Hq Hne Hnz. unfold floorIterator.
  rewrite (proj2 (Z.eqb_neq cur e) Hne).
  match goal with |- context [updateElevatorState uuid_of i ?p] =>
    destruct (updateElevatorState_selects uuid_of i p _ _ _ Hsel Hq)
      as (w1 & E1 & Hsel1 & Ht1 & Hn1 & _)
  end.
  unfold bind, detached. rewrite E1. unfold setTimeout, modify. cbn [fst snd].
  eexists. split; [reflexivity|].
  cbn [elevators timers now set_timers].
  unfold merged_row in Hsel1. simpl in Hsel1.
  rewrite (proj2 (Z.eqb_neq cur 0) Hnz) in Hsel1.
  split; [exact Hsel1|]. split; [|exact Hn1].
  rewrite Ht1, Hn1, (timer_delay_in_range _ (proj1 delays)). reflexivity.
Qed.

Lemma floorIterator_arrives i dir e w r q :
  select_by_id (Some i) (elevators w) = Some r ->
  parse_jobs (row_job_queue r) = Some q ->
  exists w',
    floorIterator uuid_of config i dir e e w = (Ok tt, w') /\
    select_by_id (Some i) (elevators w') =
      Some {| row_id := row_id r; row_current_floor := row_current_floor r;
              row_state := "DoorsOpen"; row_direction := row_direction r;
              row_job_queue := stringify_jobs q |} /\
    timers w' = timers w ++ [(now w + door, DoorClose i e)] /\
    now w' = now w.
Proof.
  intros Hsel Hq. unfold floorIterator. rewrite Z.eqb_refl.
  unfold detached, arriveAtFloor.
  match goal with |- context [updateElevatorState uuid_of i ?p] =>
    destruct (updateElevatorState_selects uuid_of i p _ _ _ Hsel Hq)
      as (w1 & E1 & Hsel1 & Ht1 & Hn1 & _)
  end.
  unfold bind at 1. rewrite E1.
  unfold logEvent, setTimeout, uuidv4, bind, modify. cbn [fst snd].
  eexists. split; [reflexivity|].
  cbn [elevators timers now set_timers set_event_logs set_uuids_drawn].
  split; [exact Hsel1|]. split; [|exact Hn1].
  rewrite Ht1, Hn1, (timer_delay_in_range _ (proj2 delays)). reflexivity.
Qed.

Lemma closeDoors_found i f w r q :
  select_by_id (Some i) (elevators w) = Some r ->
  parse_jobs (row_job_queue r) = Some q ->
  exists w',
    closeDoors uuid_of i f w = (Ok tt, w') /\
    select_by_id (Some i) (elevators w') =
      Some {| row_id := row_id r; row_current_floor := row_current_floor r;
              row_state := "Idle"; row_direction := "None"; row_job_queue := "[]" |} /\
    timers w' = timers w /\
    now w' = now w.
Proof.
  intros Hsel Hq. unfold closeDoors.
  match goal with |- context [updateElevatorState uuid_of i ?p] =>
    destruct (updateElevatorState_selects uuid_of i p _ _ _ Hsel Hq)
      as (w1 & E1 & Hsel1 & Ht1 & Hn1 & _)
  end.
  unfold bind at 1. rewrite E1.
  unfold logEvent, uuidv4, bind, modify. cbn [fst snd].
  eexists. split; [reflexivity|].
  cbn [elevators timers now set_timers set_event_logs set_uuids_drawn].
  auto.
Qed.

(** Firing a timer that is due next. *)
Lemma fire_next_pick w l1 x l2 :
  timers w = l1 ++ x :: l2 ->
  (forall y, In y l1 -> fst x < fst y) ->
  (forall y, In y l2 -> fst x <= fst y) ->
  now w <= fst x ->
  fire_next uuid_of config w =
  Some (snd (run_task uuid_of config (snd x) (set_now (fst x) (set_timers (l1 ++ l2) w)))).
Proof.
  intros Ht H1 H2 Hnow. unfold fire_next.
  rewrite Ht, (next_timer_pick _ _ _ H1 H2). destruct x as [due t]. cbn [fst snd] in *.
  now rewrite Z.max_r by exact Hnow.
Qed.

(** A pending floor step [n] floors short of the end of its leg runs the
    leg to its end in [n + 2] firings: [n] floor writes, the arrival, the
    door closing.  The last floor written is the one before the end. *)
Lemma leg_runs_to_idle i dir e (n : nat) : forall w cur r q T l1 l2,
  select_by_id (Some i) (elevators w) = Some r ->
  parse_jobs (row_job_queue r) = Some q ->
  timers w = l1 ++ (T, FloorStep i dir e cur) :: l2 ->
  now w <= T ->
  e = floor_after dir cur n ->
  1 <= cur -> 1 <= e ->
  (forall y, In y (l1 ++ l2) -> T + Z.of_nat n * travel + door < fst y) ->
  let w' := fire_times uuid_of config (n + 2) w in
  timers w' = l1 ++ l2 /\
  now w' = T + Z.of_nat n * travel + door /\
  select_by_id (Some i) (elevators w') =
    Some {| row_id := row_id r;
            row_current_floor :=
              match n with O => row_current_floor r | S _ => floor_before dir e end;
            row_state := "Idle"; row_direction := "None"; row_job_queue := "[]" |}.
Proof.
  assert (Htravel : 1 <= travel) by apply delays.
  assert (Hdoor : 1 <= door) by apply delays.
  induction n as [|n IH]; intros w cur r q T l1 l2 Hsel Hq Ht Hnow He Hcur Hend Hothers.
  - (* the step finds the elevator at the end of the leg *)
    assert (cur = e) by (unfold floor_after in He; destruct (String.eqb dir "Up"); lia).
    subst cur. cbn [Nat.add fire_times].
    rewrite (fire_next_pick w l1 _ l2 Ht); cbn [fst snd run_task]; try exact Hnow;
      try (intros y Hy; assert (Hy' : In y (l1 ++ l2)) by (apply in_or_app; auto);
           specialize (Hothers y Hy'); lia).
    set (w0 := set_now T (set_timers (l1 ++ l2) w)).
    destruct (floorIterator_arrives i dir e w0 r q Hsel Hq)
      as (w1 & E1 & Hsel1 & Ht1 & Hn1).
    rewrite E1. cbn [snd].
    assert (Hq1 : parse_jobs (stringify_jobs q) = Some q) by apply parse_stringify_jobs.
    subst w0. cbn [timers now set_now set_timers] in Ht1, Hn1.
    rewrite (fire_next_pick w1 (l1 ++ l2) _ [] Ht1); cbn [fst snd run_task];
      try (intros y Hy; try destruct Hy; specialize (Hothers y Hy); lia);
      try lia.
    destruct (closeDoors_found i e
                (set_now (T + door) (set_timers ((l1 ++ l2) ++ []) w1)) _ q Hsel1 Hq1)
      as (w2 & E2 & Hsel2 & Ht2 & Hn2).
    rewrite E2. cbn [snd]. cbn [timers now set_now set_timers] in Ht2, Hn2.
    rewrite Ht2, Hn2, app_nil_r. cbn [row_id row_current_floor] in Hsel2.
    repeat split; [lia | exact Hsel2].
  - (* the step writes [cur] and schedules the next floor *)
    assert (Hne : cur <> e)
      by (unfold floor_after in He; destruct (String.eqb dir "Up"); lia).
    assert (Hnz : cur <> 0) by lia.
    change (S n + 2)%nat with (S (n + 2)). cbn [fire_times].
    rewrite (fire_next_pick w l1 _ l2 Ht); cbn [fst snd run_task]; try exact Hnow;
      try (intros y Hy; assert (Hy' : In y (l1 ++ l2)) by (apply in_or_app; auto);
           specialize (Hothers y Hy'); lia).
    set (w0 := set_now T (set_timers (l1 ++ l2) w)).
    destruct (floorIterator_step i dir e cur w0 r q Hsel Hq Hne Hnz)
      as (w1 & E1 & Hsel1 & Ht1 & Hn1).
    rewrite E1. cbn [snd].
    assert (Hq1 : parse_jobs (stringify_jobs q) = Some q) by apply parse_stringify_jobs.
    subst w0. cbn [timers now set_now set_timers] in Ht1, Hn1.
    assert (He' : e = floor_after dir (next_floor dir cur) n)
      by (unfold floor_after, next_floor in *; destruct (String.eqb dir "Up"); lia).
    assert (Hcur' : 1 <= next_floor dir cur)
      by (unfold floor_after, next_floor in *; destruct (String.eqb dir "Up"); lia).
    specialize (IH w1 (next_floor dir cur) _ q (T + travel) (l1 ++ l2) []
                  Hsel1 Hq1 Ht1 ltac:(lia) He' Hcur' Hend).
    rewrite app_nil_r in IH. cbn [row_id row_current_floor] in IH.
    destruct IH as (IH1 & IH2 & IH3).
    { intros y Hy. specialize (Hothers y Hy). lia. }
    split; [exact IH1|]. split; [rewrite IH2; lia|].
    rewrite IH3. destruct n; [|reflexivity].
    do 3 f_equal. unfold floor_after, floor_before, next_floor in *.
    destruct (String.eqb dir "Up"); lia.
Qed.

Lemma fire_times_add a : forall b w,
  fire_times uuid_of config (a + b) w =
  fire_times uuid_of config b (fire_times uuid_of config a w).
Proof.
  induction a as [|a IH]; intros b w; [reflexivity|].
  cbn [Nat.add fire_times].
  destruct (fire_next uuid_of config w) as [w1|] eqn:E; [apply IH|].
  destruct b; simpl; now rewrite ?E.
Qed.

Lemma leg_direction_up s e : String.eqb (leg_direction s e) "Up" = (e >? s).
Proof. unfold leg_direction. now destruct (e >? s). Qed.

(** The second leg, from its timer to Idle. *)
Lemma second_leg_runs i s e j w r q T :
  select_by_id (Some i) (elevators w) = Some r ->
  parse_jobs (row_job_queue r) = Some q ->
  timers w = [(T, SecondLeg i s e j)] ->
  now w <= T ->
  s <> e -> 1 <= s -> 1 <= e ->
  let n := Z.to_nat (Z.abs (e - s) - 1) in
  let w' := fire_times uuid_of config (1 + (n + 2)) w in
  timers w' = [] /\
  now w' = T + Z.abs (e - s) * travel + door /\
  select_by_id (Some i) (elevators w') =
    Some {| row_id := row_id r;
            row_current_floor := floor_before (leg_direction s e) e;
            row_state := "Idle"; row_direction := "None"; row_job_queue := "[]" |}.
Proof.
  intros Hsel Hq Ht Hnow Hne Hs He n.
  assert (Htravel : 1 <= travel) by apply delays.
  rewrite fire_times_add. cbn [fire_times].
  rewrite (fire_next_pick w [] _ [] Ht); cbn [fst snd run_task app];
    try exact Hnow; try (intros y []).
  destruct (moveElevator_found uuid_of config i s e j
              (set_now T (set_timers [] w)) r q Hsel Hq)
    as (w1 & E1 & Hsel1 & Ht1 & Hn1 & _).
  rewrite E1. cbn [snd].
  cbn [timers now set_now set_timers app] in Ht1, Hn1.
  rewrite (proj2 (Z.eqb_neq s e) Hne) in Hsel1, Ht1.
  rewrite (timer_delay_in_range _ (proj1 delays)) in Ht1.
  assert (Hnz : s <> 0) by lia.
  simpl or_number in Hsel1. rewrite (proj2 (Z.eqb_neq s 0) Hnz) in Hsel1.
  assert (Hq1 : parse_jobs (stringify_jobs [{| start := s; end_ := e; jobId := j |}])
                = Some [{| start := s; end_ := e; jobId := j |}])
    by apply parse_stringify_jobs.
  fold (next_floor (leg_direction s e) s) in Ht1.
  pose proof (leg_direction_up s e) as Hup.
  assert (Hend : e = floor_after (leg_direction s e) (next_floor (leg_direction s e) s) n).
  { unfold floor_after, next_floor. rewrite Hup. subst n.
    destruct (e >? s) eqn:Hgt; [rewrite Z.gtb_ltb in Hgt; apply Z.ltb_lt in Hgt
                               |rewrite Z.gtb_ltb in Hgt; apply Z.ltb_ge in Hgt]; lia. }
  assert (Hcur : 1 <= next_floor (leg_direction s e) s).
  { unfold next_floor. rewrite Hup.
    destruct (e >? s) eqn:Hgt; [rewrite Z.gtb_ltb in Hgt; apply Z.ltb_lt in Hgt
                               |rewrite Z.gtb_ltb in Hgt; apply Z.ltb_ge in Hgt]; lia. }
  pose proof (leg_runs_to_idle i (leg_direction s e) e n w1
                (next_floor (leg_direction s e) s) _ _ (T + travel) [] []
                Hsel1 Hq1 Ht1 ltac:(lia) Hend Hcur He) as Hleg.
  cbn [app row_id row_current_floor] in Hleg.
  destruct Hleg as (H1 & H2 & H3); [intros y []|].
  assert (Hn : Z.of_nat n = Z.abs (e - s) - 1) by (subst n; lia).
  split; [exact H1|]. split.
  - rewrite H2, Hn. ring.
  - rewrite H3. do 2 f_equal.
    destruct n eqn:En; [|reflexivity].
    unfold floor_before. rewrite Hup. subst n.
    destruct (e >? s) eqn:Hgt; [rewrite Z.gtb_ltb in Hgt; apply Z.ltb_lt in Hgt
                               |rewrite Z.gtb_ltb in Hgt; apply Z.ltb_ge in Hgt]; lia.
Qed.

(** The first leg, from the state [callElevator] leaves to Idle at the
    pickup floor, with the second leg still pending. *)
Lemma first_leg_runs i c s w r q leg2 :
  select_by_id (Some i) (elevators w) = Some r ->
  parse_jobs (row_job_queue r) = Some q ->
  timers w =
    [if c =? s
     then (now w + timer_delay door, DoorClose i s)
     else (now w + timer_delay travel,
           FloorStep i (leg_direction c s) s
             (if String.eqb (leg_direction c s) "Up" then c + 1 else c - 1));
     leg2] ->
  now w + Z.abs (s - c) * travel + door < fst leg2 ->
  1 <= c -> 1 <= s ->
  exists (k : nat) (r2 : elevator_row),
    let w' := fire_times uuid_of config k w in
    timers w' = [leg2] /\
    now w' = now w + Z.abs (s - c) * travel + door /\
    select_by_id (Some i) (elevators w') = Some r2 /\
    row_id r2 = row_id r /\
    row_job_queue r2 = "[]"%string.
Proof.
  intros Hsel Hq Ht Hleg2 Hc Hs.
  assert (Htravel : 1 <= travel) by apply delays.
  assert (Hdoor : 1 <= door) by apply delays.
  assert (Et : timer_delay travel = travel)
    by apply (timer_delay_in_range _ (proj1 delays)).
  assert (Ed : timer_delay door = door)
    by apply (timer_delay_in_range _ (proj2 delays)).
  rewrite Et, Ed in Ht.
  destruct (c =? s) eqn:Hcs.
  - apply Z.eqb_eq in Hcs. subst c.
    replace (Z.abs (s - s)) with 0 in * by lia.
    exists 1%nat. cbn [fire_times].
    rewrite (fire_next_pick w [] _ [leg2] Ht); cbn [fst snd run_task app];
      try lia; try (intros y []; fail); try (intros y [<- | []]; lia).
    destruct (closeDoors_found i s (set_now (now w + door) (set_timers [leg2] w)) r q
                Hsel Hq) as (w1 & E1 & Hsel1 & Ht1 & Hn1).
    rewrite E1. cbn [snd]. cbn [timers now set_now set_timers] in Ht1, Hn1.
    eexists. split; [exact Ht1|]. split; [rewrite Hn1; lia|].
    split; [exact Hsel1|]. split; reflexivity.
  - apply Z.eqb_neq in Hcs.
    pose proof (leg_direction_up c s) as Hup.
    set (n := Z.to_nat (Z.abs (s - c) - 1)).
    assert (Hn : Z.of_nat n = Z.abs (s - c) - 1) by (subst n; lia).
    fold (next_floor (leg_direction c s) c) in Ht.
    assert (Hend : s = floor_after (leg_direction c s) (next_floor (leg_direction c s) c) n).
    { unfold floor_after, next_floor. rewrite Hup.
      destruct (s >? c) eqn:Hgt; [rewrite Z.gtb_ltb in Hgt; apply Z.ltb_lt in Hgt
                                 |rewrite Z.gtb_ltb in Hgt; apply Z.ltb_ge in Hgt]; lia. }
    assert (Hcur : 1 <= next_floor (leg_direction c s) c).
    { unfold next_floor. rewrite Hup.
      destruct (s >? c) eqn:Hgt; [rewrite Z.gtb_ltb in Hgt; apply Z.ltb_lt in Hgt
                                 |rewrite Z.gtb_ltb in Hgt; apply Z.ltb_ge in Hgt]; lia. }
    pose proof (leg_runs_to_idle i (leg_direction c s) s n w
                  (next_floor (leg_direction c s) c) r q (now w + travel) [] [leg2]
                  Hsel Hq Ht ltac:(lia) Hend Hcur Hs) as Hleg.
    cbn [app] in Hleg.
    destruct Hleg as (H1 & H2 & H3).
    { intros y [<- | []]. rewrite Hn. lia. }
    exists (n + 2)%nat. eexists.
    split; [exact H1|]. split; [rewrite H2, Hn; ring|].
    split; [exact H3|]. split; reflexivity.
Qed.

End Trip.

(** ** Letting the clock run *)

Lemma same_instant_update uuid_of i p w :
  same_instant w (snd (updateElevatorState uuid_of i p w)).
Proof.
  unfold same_instant, updateElevatorState, getElevatorById, logSql, logEvent, uuidv4,
    bind, gets, modify, ret, throw. simpl.
  destruct (find (fun r => row_id r =? i) (elevators w)) as [r|]; simpl; [|reflexivity].
  destruct (parse_jobs (row_job_queue r)); reflexivity.
Qed.

Lemma same_instant_run_task uuid_of config t w :
  same_instant w (snd (run_task uuid_of config t w)).
Proof.
  apply (respects_run_task uuid_of config same_instant (fun _ => True));
    unfold same_instant; simpl; intros; auto using same_instant_update; try congruence.
  apply same_instant_update.
Qed.

Lemma fire_next_now uuid_of config w w' :
  fire_next uuid_of config w = Some w' ->
  exists due t rest,
    next_timer (timers w) = Some ((due, t), rest) /\ now w' = Z.max (now w) due.
Proof.
  unfold fire_next.
  destruct (next_timer (timers w)) as [[[due t] rest]|]; [|discriminate].
  intros [= <-]. exists due, t, rest. split; [reflexivity|].
  now rewrite same_instant_run_task.
Qed.

Lemma fire_times_now uuid_of config k : forall w,
  now w <= now (fire_times uuid_of config k w).
Proof.
  induction k as [|k IH]; intros w; simpl; [lia|].
  destruct (fire_next uuid_of config w) as [w1|] eqn:E; [|lia].
  destruct (fire_next_now _ _ _ _ E) as (due & t & rest & _ & Hnow).
  specialize (IH w1). lia.
Qed.

(** Once firing [k] timers has emptied the queue no later than [deadline],
    advancing the clock to [deadline] does exactly that. *)
Lemma run_until_fire_times uuid_of config k : forall w fuel deadline,
  timers (fire_times uuid_of config k w) = [] ->
  now (fire_times uuid_of config k w) <= deadline ->
  (k < fuel)%nat ->
  run_until uuid_of config fuel deadline w
  = set_now deadline (fire_times uuid_of config k w).
Proof.
  induction k as [|k IH]; intros w fuel deadline Hempty Hnow Hfuel;
    (destruct fuel as [|fuel]; [lia|]); cbn [run_until].
  - cbn [fire_times] in *. rewrite Hempty. cbn [next_timer].
    now rewrite Z.max_r by exact Hnow.
  - cbn [fire_times] in *.
    destruct (fire_next uuid_of config w) as [w1|] eqn:E.
    + destruct (fire_next_now _ _ _ _ E) as (due & t & rest & Hnext & Hnow1).
      rewrite Hnext.
      pose proof (fire_times_now uuid_of config k w1) as Hmono.
      assert (Hdue : due <= deadline) by lia.
      apply Z.leb_le in Hdue. rewrite Hdue.
      apply IH; [exact Hempty | exact Hnow | lia].
    + unfold fire_next in E.
      destruct (next_timer (timers w)) as [[[due t] rest]|] eqn:Hnext; [discriminate|].
      now rewrite Z.max_r by exact Hnow.
Qed.

(** ** The identifier counter *)

Lemma draws_more_update uuid_of i p w :
  draws_more w (snd (updateElevatorState uuid_of i p w)).
Proof.
  unfold draws_more, updateElevatorState, getElevatorById, logSql, logEvent, uuidv4,
    bind, gets, modify, ret, throw. simpl.
  destruct (find (fun r => row_id r =? i) (elevators w)) as [r|]; simpl; [|lia].
  destruct (parse_jobs (row_job_queue r)); simpl; lia.
Qed.

Ltac draws_more_side :=
  unfold draws_more; simpl; intros; auto using draws_more_update; try lia.

Lemma draws_more_moveElevator uuid_of config i s e j w :
  draws_more w (snd (moveElevator uuid_of config i s e j w)).
Proof.
  apply (respects_moveElevator uuid_of config draws_more (fun _ => True));
    try solve [draws_more_side].
  intros. apply draws_more_update.
Qed.

Lemma draws_more_steps uuid_of config w w' :
  steps uuid_of config w w' -> draws_more w w'.
Proof.
  apply (steps_respects uuid_of config draws_more (fun _ => True));
    try solve [draws_more_side].
  intros. apply draws_more_update.
Qed.

(** The job id of an accepted call is one of the identifiers drawn during
    the call. *)
Lemma callElevator_job_id uuid_of config s e w r w' j :
  callElevator uuid_of config s e w = (Ok r, w') ->
  result_jobId r = Some j ->
  exists n, (n < uuids_drawn w')%nat /\ j = uuid_of n.
Proof.
  unfold callElevator.
  destruct ((s =? e) || (s >? MAX_FLOORS config) || (e >? MAX_FLOORS config)).
  { intros [= <- <-]. discriminate. }
  destruct (findClosestIdleElevator_run uuid_of s w) as (w1 & E1 & _ & _ & _ & _ & Hu1).
  unfold bind at 1. rewrite E1.
  destruct (closest_of s (filter is_idle (map object_of_row (elevators w)))) as [el|].
  2:{ intros [= <- <-]. discriminate. }
  unfold bind at 1, uuidv4 at 1.
  unfold bind at 1, logEvent at 1, bind at 1, uuidv4 at 1, modify at 1.
  set (w2 := set_event_logs _ _).
  pose proof (draws_more_moveElevator uuid_of config (id el) (current_floor el) s
                (uuid_of (uuids_drawn w1)) w2) as Hmono.
  unfold bind at 1.
  destruct (moveElevator uuid_of config (id el) (current_floor el) s
              (uuid_of (uuids_drawn w1)) w2) as [[[]|err] w3]; [|discriminate].
  unfold bind, setTimeout, modify, ret. cbn [fst snd].
  intros [= <- <-]. cbn [result_jobId]. intros [= <-].
  exists (uuids_drawn w1). split; [|reflexivity].
  unfold draws_more in Hmono. subst w2.
  cbn [fst snd uuids_drawn set_timers set_event_logs set_uuids_drawn] in *. lia.
Qed.

Lemma valid_call_passes config s e :
  valid_call config s e ->
  (s =? e) || (s >? MAX_FLOORS config) || (e >? MAX_FLOORS config) = false.
Proof.
  intros (Hne & Hs & He).
  rewrite !orb_false_iff. repeat split.
  - now apply Z.eqb_neq.
  - rewrite Z.gtb_ltb. apply Z.ltb_ge. lia.
  - rewrite Z.gtb_ltb. apply Z.ltb_ge. lia.
Qed.

Lemma sample_uuid_injective (a b : nat) : sample_uuid a = sample_uuid b -> a = b.
Proof.
  unfold sample_uuid. simpl. intros [= H].
  apply DecimalNat.Unsigned.to_uint_inj.
  pose proof (NilEmpty.usu (Nat.to_uint a)) as Ha.
  pose proof (NilEmpty.usu (Nat.to_uint b)) as Hb.
  rewrite H in Ha. congruence.
Qed.

(** ** The elevator a call takes, on the rows of the table *)

Lemma filter_split {A} (p : A -> bool) (l : list A) : forall l1 x l2,
  filter p l = l1 ++ x :: l2 ->
  exists m1 m2, l = m1 ++ x :: m2 /\ filter p m1 = l1 /\ filter p m2 = l2.
Proof.
  induction l as [|a l IH]; intros l1 x l2 H; cbn [filter] in H.
  - now destruct l1.
  - destruct (p a) eqn:Ha.
    + destruct l1 as [|b l1]; cbn [app] in H; injection H as -> H.
      * exists [], l. cbn. auto.
      * destruct (IH _ _ _ H) as (m1 & m2 & -> & H1 & H2).
        exists (b :: m1), m2. cbn [app filter]. rewrite Ha, H1. auto.
    + destruct (IH _ _ _ H) as (m1 & m2 & -> & H1 & H2).
      exists (a :: m1), m2. cbn [app filter]. rewrite Ha. auto.
Qed.

(** [findClosestIdleElevator] on the rows it reads: the first of the idle
    rows that no idle row is closer than. *)
Lemma closest_of_rows s (rows : list elevator_row) (el : elevator) :
  closest_of s (filter is_idle (map object_of_row rows)) = Some el ->
  exists before chosen after,
    rows = before ++ chosen :: after /\ el = object_of_row chosen /\
    row_state chosen = "Idle"%string /\
    (forall x, In x before -> row_state x = "Idle"%string ->
       Z.abs (row_current_floor chosen - s) < Z.abs (row_current_floor x - s)) /\
    (forall x, In x after -> row_state x = "Idle"%string ->
       Z.abs (row_current_floor chosen - s) <= Z.abs (row_current_floor x - s)).
Proof.
  intros Hc.
  destruct (closest_of_spec _ _ _ Hc) as (b & a & Hsplit & Hb & Ha).
  destruct (filter_split _ _ _ _ _ Hsplit) as (m1 & m2 & Hmap & H1 & H2).
  apply map_eq_app in Hmap as (r1 & rest & -> & Hm1 & Hrest).
  apply map_eq_cons in Hrest as (chosen & r2 & -> & Hel & Hm2).
  assert (Hidle : row_state chosen = "Idle"%string).
  { assert (Hin : In el (filter is_idle (map object_of_row (r1 ++ chosen :: r2))))
      by (rewrite Hsplit; apply in_elt).
    apply filter_In in Hin as [_ Hin]. subst el. now apply String.eqb_eq in Hin. }
  assert (Hidle_in : forall x l, In x l -> row_state x = "Idle"%string ->
            In (object_of_row x) (filter is_idle (map object_of_row l))).
  { intros x l Hx Hst. apply filter_In. split; [now apply in_map|].
    unfold is_idle. cbn. now apply String.eqb_eq. }
  exists r1, chosen, r2. subst el. repeat split; auto.
  - intros x Hx Hst. apply (Hb (object_of_row x)). rewrite <- H1, <- Hm1.
    now apply Hidle_in.
  - intros x Hx Hst. apply (Ha (object_of_row x)). rewrite <- H2, <- Hm2.
    now apply Hidle_in.
Qed.


Lemma leg_direction_eq c s :
  leg_direction c s = if s >? c then "Up"%string else "Down"%string.
Proof. reflexivity. Qed.

Lemma state_update_details_eq (p : partial) :
  state_update_details p =
  Json.Obj
    (match new_state p with
     | Some v => [("state"%string, Json.Str v)]
     | None => []
     end ++
     match new_direction p with
     | Some v => [("direction"%string, Json.Str v)]
     | None => []
     end ++
     match new_current_floor p with
     | Some v => [("current_floor"%string, Json.Num v)]
     | None => []
     end).
Proof.
  destruct p as [[f|] [st|] [dir|] q]; reflexivity.
Qed.

(** ** The properties of the specification *)

(** C3. For every valid call with at least one Idle elevator, the elevator
    [callElevator] selects is an Idle elevator at minimal distance
    |current_floor - start_floor| among the Idle elevators, and the first
    such elevator in the order of the table: every Idle elevator listed
    before it is strictly farther, every one listed after it is at least as
    far. *)
Theorem closest_idle_elevator_is_selected uuid_of config w s e :
  well_formed w -> valid_call config s e -> has_idle w ->
  exists (before : list elevator_row) (chosen : elevator_row)
         (after : list elevator_row) (res : call_result) (w' : world),
    callElevator uuid_of config s e w = (Ok res, w') /\
    success res = true /\
    result_elevator_id res = Some (row_id chosen) /\
    elevators w = before ++ chosen :: after /\
    row_state chosen = "Idle"%string /\
    (forall x, In x before -> row_state x = "Idle"%string ->
       Z.abs (row_current_floor chosen - s) < Z.abs (row_current_floor x - s)) /\
    (forall x, In x after -> row_state x = "Idle"%string ->
       Z.abs (row_current_floor chosen - s) <= Z.abs (row_current_floor x - s)).
Proof.
  intros Hwf Hvalid Hidle.
  destruct (closest_of_some s _ (has_idle_filter w Hidle)) as (el & Hc).
  destruct (callElevator_accepts uuid_of config s e w el Hwf
              (valid_call_passes _ _ _ Hvalid) Hc) as (w' & r' & E & _).
  destruct (closest_of_rows _ _ _ Hc) as (before & chosen & after & Hsplit & -> & H).
  exists before, chosen, after. eexists. exists w'.
  split; [exact E|]. split; [reflexivity|]. split; [reflexivity|].
  split; [exact Hsplit | exact H].
Qed.

Lemma two_idle_elevators_well_formed : well_formed two_idle_elevators.
Proof. repeat constructor; exists []; reflexivity. Qed.

Lemma valid_call_5_15 : valid_call default_config 5 15.
Proof. unfold valid_call, default_config. simpl. lia. Qed.

Lemma two_idle_elevators_has_idle : has_idle two_idle_elevators.
Proof. eexists. split; [left; reflexivity | reflexivity]. Qed.

Lemma closest_idle_elevator_is_selected_witness :
  well_formed two_idle_elevators /\ valid_call default_config 5 15 /\
  has_idle two_idle_elevators /\
  exists (before : list elevator_row) (chosen : elevator_row)
         (after : list elevator_row) (res : call_result) (w' : world),
    callElevator sample_uuid default_config 5 15 two_idle_elevators = (Ok res, w') /\
    success res = true /\
    result_elevator_id res = Some (row_id chosen) /\
    elevators two_idle_elevators = before ++ chosen :: after /\
    row_state chosen = "Idle"%string /\
    (forall x, In x before -> row_state x = "Idle"%string ->
       Z.abs (row_current_floor chosen - 5) < Z.abs (row_current_floor x - 5)) /\
    (forall x, In x after -> row_state x = "Idle"%string ->
       Z.abs (row_current_floor chosen - 5) <= Z.abs (row_current_floor x - 5)).
Proof.
  split; [apply two_idle_elevators_well_formed|].
  split; [apply valid_call_5_15|].
  split; [apply two_idle_elevators_has_idle|].
  apply (closest_idle_elevator_is_selected sample_uuid default_config
           two_idle_elevators 5 15).
  - apply two_idle_elevators_well_formed.
  - apply valid_call_5_15.
  - apply two_idle_elevators_has_idle.
Defined.

(** C5. Whenever no elevator is Idle, [callElevator] with floors that pass
    validation resolves with success = false and the message
    "No idle elevators available."; table [elevators] is left as it was, no
    event is logged and no timer is set. *)
Theorem no_idle_elevator_rejects_call uuid_of config w s e :
  s <> e -> s <= MAX_FLOORS config -> e <= MAX_FLOORS config ->
  (forall r, In r (elevators w) -> row_state r <> "Idle"%string) ->
  exists w',
    callElevator uuid_of config s e w =
      (Ok {| success := false; result_jobId := None;
             message := "No idle elevators available.";
             result_elevator_id := None; status := None |}, w') /\
    elevators w' = elevators w /\
    event_logs w' = event_logs w /\
    timers w' = timers w.
Proof.
  intros Hne Hs He Hnone.
  assert (Hvalid : (s =? e) || (s >? MAX_FLOORS config) || (e >? MAX_FLOORS config) = false).
  { rewrite !orb_false_iff, !Z.gtb_ltb. repeat split;
      [now apply Z.eqb_neq | apply Z.ltb_ge; lia | apply Z.ltb_ge; lia]. }
  assert (Hfilter : filter is_idle (map object_of_row (elevators w)) = []).
  { destruct (filter is_idle (map object_of_row (elevators w))) as [|el l] eqn:E;
      [reflexivity|].
    assert (Hin : In el (filter is_idle (map object_of_row (elevators w))))
      by (rewrite E; now left).
    apply idle_objects_rows in Hin as (r & Hr & _ & Hidle).
    now apply Hnone in Hr. }
  unfold callElevator. rewrite Hvalid.
  destruct (findClosestIdleElevator_run uuid_of s w) as (w1 & E1 & Hr1 & He1 & Ht1 & _).
  unfold bind. rewrite E1, Hfilter. cbn [closest_of ret rejected].
  exists w1. auto.
Qed.

Lemma no_idle_elevator_rejects_call_witness :
  5 <> 15 /\ 5 <= MAX_FLOORS default_config /\ 15 <= MAX_FLOORS default_config /\
  (forall r, In r (elevators (after_call 2 9 (started 1))) ->
             row_state r <> "Idle"%string) /\
  exists w',
    callElevator sample_uuid default_config 5 15 (after_call 2 9 (started 1)) =
      (Ok {| success := false; result_jobId := None;
             message := "No idle elevators available.";
             result_elevator_id := None; status := None |}, w') /\
    elevators w' = elevators (after_call 2 9 (started 1)) /\
    event_logs w' = event_logs (after_call 2 9 (started 1)) /\
    timers w' = timers (after_call 2 9 (started 1)).
Proof.
  assert (H1 : 5 <> 15) by lia.
  assert (H2 : 5 <= MAX_FLOORS default_config) by (simpl; lia).
  assert (H3 : 15 <= MAX_FLOORS default_config) by (simpl; lia).
  assert (H4 : forall r, In r (elevators (after_call 2 9 (started 1))) ->
                         row_state r <> "Idle"%string).
  { intros r [<- | []]. discriminate. }
  repeat (split; [assumption|]).
  exact (no_idle_elevator_rejects_call sample_uuid default_config
           (after_call 2 9 (started 1)) 5 15 H1 H2 H3 H4).
Defined.

(** C6. For every valid call with at least one Idle elevator, [callElevator]
    resolves with success = true, the id of the selected elevator, status
    "Moving" and a job id, after scheduling both legs.  When it resolves,
    the selected row is no longer Idle and holds the job of the first leg,
    from the floor the elevator stands at to start_floor, and the second leg
    is a pending timer.  When the elevator does not stand at start_floor
    already, the row is Moving in the direction of start_floor, and the two
    timers the call has registered are, in this order, the first floor step
    of the first leg, one floor on after FLOOR_TRAVEL_TIME_MS, and the
    second leg.  (When it does, the first leg is the arrival alone, which
    [callElevator] starts without awaiting it.)  The job id is an identifier
    drawn from the [uuid] generator during the call and, that generator
    never repeating, differs from every identifier handed out before the
    call, in particular from the job id of every earlier call of the run. *)
Theorem accepted_call_reports_dispatch uuid_of config w s e :
  (forall a b, uuid_of a = uuid_of b -> a = b) ->
  well_formed w -> valid_call config s e -> has_idle w ->
  exists (chosen : elevator_row) (j : string) (w' : world) (r' : elevator_row),
    callElevator uuid_of config s e w =
      (Ok {| success := true; result_jobId := Some j;
             message := "Elevator dispatched.";
             result_elevator_id := Some (row_id chosen);
             status := Some "Moving"%string |}, w') /\
    In chosen (elevators w) /\ row_state chosen = "Idle"%string /\
    select_by_id (Some (row_id chosen)) (elevators w') = Some r' /\
    row_state r' <> "Idle"%string /\
    row_job_queue r' =
      stringify_jobs [{| start := row_current_floor chosen; end_ := s; jobId := j |}] /\
    (row_current_floor chosen <> s ->
     row_state r' = "Moving"%string /\
     row_direction r' =
       (if s >? row_current_floor chosen then "Up"%string else "Down"%string) /\
     timers w' =
       timers w ++
       [(now w + timer_delay (FLOOR_TRAVEL_TIME_MS config),
         FloorStep (row_id chosen)
           (if s >? row_current_floor chosen then "Up"%string else "Down"%string) s
           (if s >? row_current_floor chosen
            then row_current_floor chosen + 1 else row_current_floor chosen - 1));
        (now w + timer_delay (Z.abs (s - row_current_floor chosen)
                                * FLOOR_TRAVEL_TIME_MS config
                              + DOOR_ACTION_TIME_MS config * 2),
         SecondLeg (row_id chosen) s e j)]) /\
    In (now w + timer_delay (Z.abs (s - row_current_floor chosen)
                               * FLOOR_TRAVEL_TIME_MS config
                             + DOOR_ACTION_TIME_MS config * 2),
        SecondLeg (row_id chosen) s e j) (timers w') /\
    j = uuid_of (S (uuids_drawn w)) /\
    (S (uuids_drawn w) < uuids_drawn w')%nat /\
    (forall n, (n < uuids_drawn w)%nat -> uuid_of n <> j) /\
    (forall w0 s0 e0 r0 w0',
       callElevator uuid_of config s0 e0 w0 = (Ok r0, w0') ->
       steps uuid_of config w0' w ->
       result_jobId r0 <> Some j).
Proof.
  intros Hinj Hwf Hvalid Hidle.
  destruct (closest_of_some s _ (has_idle_filter w Hidle)) as (el & Hc).
  destruct (callElevator_accepts uuid_of config s e w el Hwf
              (valid_call_passes _ _ _ Hvalid) Hc)
    as (w' & r' & E & Hsel & Hst & Hdir & Hq & Ht & _ & Hu).
  destruct (closest_of_rows _ _ _ Hc) as (before & chosen & after & Hsplit & -> & Hi & _).
  cbn [id current_floor object_of_row] in *.
  exists chosen, (uuid_of (S (uuids_drawn w))), w', r'.
  split; [exact E|]. split; [rewrite Hsplit; apply in_elt|]. split; [exact Hi|].
  split; [exact Hsel|].
  split; [rewrite Hst; destruct (row_current_floor chosen =? s); discriminate|].
  split; [exact Hq|].
  split.
  { intros Hne. apply Z.eqb_neq in Hne. rewrite Hne in Hst, Ht.
    rewrite leg_direction_up, leg_direction_eq in Ht. rewrite leg_direction_eq in Hdir.
    auto. }
  split; [rewrite Ht; apply in_or_app; right; right; left; reflexivity|].
  split; [reflexivity|]. split; [exact Hu|].
  split.
  - intros n Hn Heq. apply Hinj in Heq. lia.
  - intros w0 s0 e0 r0 w0' E0 Hsteps Hj.
    destruct (callElevator_job_id _ _ _ _ _ _ _ _ E0 Hj) as (n & Hn & Heq).
    apply Hinj in Heq. apply draws_more_steps in Hsteps. unfold draws_more in Hsteps.
    lia.
Qed.

Lemma accepted_call_reports_dispatch_witness :
  (forall a b, sample_uuid a = sample_uuid b -> a = b) /\
  well_formed two_idle_elevators /\ valid_call default_config 5 15 /\
  has_idle two_idle_elevators /\
  exists (chosen : elevator_row) (j : string) (w' : world) (r' : elevator_row),
    callElevator sample_uuid default_config 5 15 two_idle_elevators =
      (Ok {| success := true; result_jobId := Some j;
             message := "Elevator dispatched.";
             result_elevator_id := Some (row_id chosen);
             status := Some "Moving"%string |}, w') /\
    In chosen (elevators two_idle_elevators) /\ row_state chosen = "Idle"%string /\
    select_by_id (Some (row_id chosen)) (elevators w') = Some r' /\
    row_state r' <> "Idle"%string /\
    row_job_queue r' =
      stringify_jobs [{| start := row_current_floor chosen; end_ := 5; jobId := j |}] /\
    (row_current_floor chosen <> 5 ->
     row_state r' = "Moving"%string /\
     row_direction r' =
       (if 5 >? row_current_floor chosen then "Up"%string else "Down"%string) /\
     timers w' =
       timers two_idle_elevators ++
       [(now two_idle_elevators + timer_delay (FLOOR_TRAVEL_TIME_MS default_config),
         FloorStep (row_id chosen)
           (if 5 >? row_current_floor chosen then "Up"%string else "Down"%string) 5
           (if 5 >? row_current_floor chosen
            then row_current_floor chosen + 1 else row_current_floor chosen - 1));
        (now two_idle_elevators
         + timer_delay (Z.abs (5 - row_current_floor chosen)
                          * FLOOR_TRAVEL_TIME_MS default_config
                        + DOOR_ACTION_TIME_MS default_config * 2),
         SecondLeg (row_id chosen) 5 15 j)]) /\
    In (now two_idle_elevators
        + timer_delay (Z.abs (5 - row_current_floor chosen)
                         * FLOOR_TRAVEL_TIME_MS default_config
                       + DOOR_ACTION_TIME_MS default_config * 2),
        SecondLeg (row_id chosen) 5 15 j) (timers w') /\
    j = sample_uuid (S (uuids_drawn two_idle_elevators)) /\
    (S (uuids_drawn two_idle_elevators) < uuids_drawn w')%nat /\
    (forall n, (n < uuids_drawn two_idle_elevators)%nat -> sample_uuid n <> j) /\
    (forall w0 s0 e0 r0 w0',
       callElevator sample_uuid default_config s0 e0 w0 = (Ok r0, w0') ->
       steps sample_uuid default_config w0' two_idle_elevators ->
       result_jobId r0 <> Some j).
Proof.
  split; [exact sample_uuid_injective|].
  split; [apply two_idle_elevators_well_formed|].
  split; [apply valid_call_5_15|].
  split; [apply two_idle_elevators_has_idle|].
  exact (accepted_call_reports_dispatch sample_uuid default_config
           two_idle_elevators 5 15 sample_uuid_injective
           two_idle_elevators_well_formed valid_call_5_15
           two_idle_elevators_has_idle).
Defined.

Lemma reachable_call uuid_of config n w s e :
  reachable uuid_of config n w ->
  reachable uuid_of config n (snd (callElevator uuid_of config s e w)).
Proof. intros H. eapply reachable_step; [exact H | apply step_call]. Qed.

Lemma reachable_fire_times uuid_of config n k : forall w,
  reachable uuid_of config n w ->
  reachable uuid_of config n (fire_times uuid_of config k w).
Proof.
  induction k as [|k IH]; intros w H; simpl; [exact H|].
  destruct (fire_next uuid_of config w) as [w'|] eqn:E; [|exact H].
  apply IH. eapply reachable_step; [exact H | now apply step_timer].
Qed.

Lemma reachable_overlapping_trips :
  reachable sample_uuid default_config (Some 1) overlapping_trips.
Proof.
  unfold overlapping_trips, after_call.
  apply reachable_fire_times, reachable_call, reachable_fire_times, reachable_call.
  apply reachable_init.
Qed.

(** C7, as the code has it.  In every state reachable through
    initialisation, dispatch, floor steps, arrivals and door closings, and
    for every elevator: direction = None exactly when the job queue is
    empty, and state = Idle implies both. *)
Theorem idle_implies_no_direction_iff_no_job uuid_of config n w r :
  reachable uuid_of config n w -> In r (elevators w) ->
  (row_direction r = "None"%string <-> parse_jobs (row_job_queue r) = Some []) /\
  (row_state r = "Idle"%string ->
   row_direction r = "None"%string /\ parse_jobs (row_job_queue r) = Some []).
Proof.
  intros Hreach Hin.
  apply reachable_store_inv in Hreach as [Hrows _].
  rewrite Forall_forall in Hrows. destruct (Hrows r Hin) as (q & Hq & Hdir & Hidle).
  rewrite Hq, parse_stringify_jobs.
  assert (Hnil : Some q = Some [] <-> q = []) by (split; [now intros [= ->] | now intros ->]).
  split.
  - now rewrite Hnil.
  - intros Hst. specialize (Hidle Hst). split; [exact Hidle|].
    apply Hnil. now apply Hdir.
Qed.

Lemma idle_implies_no_direction_iff_no_job_witness :
  reachable sample_uuid default_config (Some 2) (after_call 5 15 (started 2)) /\
  In {| row_id := 1; row_current_floor := 1; row_state := "Moving";
        row_direction := "Up";
        row_job_queue :=
          stringify_jobs [{| start := 1; end_ := 5; jobId := sample_uuid 1 |}] |}
     (elevators (after_call 5 15 (started 2))) /\
  ("Up"%string = "None"%string <->
   parse_jobs (stringify_jobs [{| start := 1; end_ := 5; jobId := sample_uuid 1 |}])
     = Some []) /\
  ("Moving"%string = "Idle"%string ->
   "Up"%string = "None"%string /\
   parse_jobs (stringify_jobs [{| start := 1; end_ := 5; jobId := sample_uuid 1 |}])
     = Some []).
Proof.
  assert (H1 : reachable sample_uuid default_config (Some 2) (after_call 5 15 (started 2)))
    by (apply reachable_call, reachable_init).
  assert (H2 : In {| row_id := 1; row_current_floor := 1; row_state := "Moving";
                     row_direction := "Up";
                     row_job_queue :=
                       stringify_jobs
                         [{| start := 1; end_ := 5; jobId := sample_uuid 1 |}] |}
                  (elevators (after_call 5 15 (started 2))))
    by (left; vm_compute; reflexivity).
  split; [exact H1|]. split; [exact H2|].
  exact (idle_implies_no_direction_iff_no_job sample_uuid default_config (Some 2)
           (after_call 5 15 (started 2)) _ H1 H2).
Defined.

(** C7 as stated fails: when a second call takes an elevator between the
    two legs of an earlier job, the arrival of the later chain finds the
    row already cleared by the door closing of the earlier one, and leaves
    it with state DoorsOpen, direction None and an empty queue. *)
Lemma overlapping_trips_break_the_equivalence :
  ~ (forall w r,
       reachable sample_uuid default_config (Some 1) w ->
       In r (elevators w) -> idle_iff_no_direction_iff_no_job r).
Proof.
  intros H.
  assert (E : elevators overlapping_trips =
              [{| row_id := 1; row_current_floor := 4; row_state := "DoorsOpen";
                  row_direction := "None"; row_job_queue := "[]" |}])
    by (vm_compute; reflexivity).
  assert (Hin : In {| row_id := 1; row_current_floor := 4; row_state := "DoorsOpen";
                      row_direction := "None"; row_job_queue := "[]" |}
                   (elevators overlapping_trips))
    by (rewrite E; now left).
  destruct (H _ _ reachable_overlapping_trips Hin) as [[Hdir _] _].
  simpl in Hdir. specialize (Hdir eq_refl). discriminate.
Qed.

Lemma getElevatorById_inv uuid_of i w e w1 :
  getElevatorById uuid_of i w = (Ok (Some e), w1) ->
  exists r q,
    select_by_id i (elevators w) = Some r /\
    parse_jobs (row_job_queue r) = Some q /\
    e = with_parsed_queue r q.
Proof.
  unfold getElevatorById, logSql, uuidv4, bind, gets, modify, ret, throw. simpl.
  destruct (select_by_id i (elevators w)) as [r|] eqn:Hs; [|discriminate].
  destruct (parse_jobs (row_job_queue r)) as [q|] eqn:Hq; [|discriminate].
  intros [= <- _]. exists r, q. auto.
Qed.

Lemma parse_stringify_queue (o : option (list job)) (q : list job) :
  parse_jobs (stringify_queue (or_queue o (QJobs q))) =
  Some (match o with Some v => v | None => q end).
Proof. destruct o; simpl; apply parse_stringify_jobs. Qed.

Lemma select_other_rows i f st d q rows r :
  In r rows -> row_id r <> i -> In r (map (update_row i f st d q) rows).
Proof.
  intros Hin Hne. apply in_map_iff. exists r. split; [|exact Hin].
  unfold update_row. destruct (row_id r =? i) eqn:E; [|reflexivity].
  apply Z.eqb_eq in E. contradiction.
Qed.

(** C4, as the code has it.  For every elevator that exists and every
    partial update, [updateElevatorState] stores a record in which every
    omitted field keeps its prior value and every provided field that is
    neither 0 nor the empty string has the provided value, leaves the other
    rows alone, and appends exactly one state_update event, whose details
    are the JSON object of the state, the direction and the current_floor
    the update itself provides, in this order: a field the update omits is
    absent from the details, whatever the stored record holds. *)
Theorem update_merges_and_logs_the_update uuid_of w i p e w1 :
  getElevatorById uuid_of (Some i) w = (Ok (Some e), w1) ->
  exists (w' w2 : world) (e' : elevator) (ev : event_row),
    updateElevatorState uuid_of i p w = (Ok tt, w') /\
    getElevatorById uuid_of (Some i) w' = (Ok (Some e'), w2) /\
    id e' = id e /\
    (new_current_floor p = None -> current_floor e' = current_floor e) /\
    (new_state p = None -> state e' = state e) /\
    (new_direction p = None -> direction e' = direction e) /\
    (new_job_queue p = None -> job_queue e' = job_queue e) /\
    (forall v, new_current_floor p = Some v -> v <> 0 -> current_floor e' = v) /\
    (forall v, new_state p = Some v -> v <> EmptyString -> state e' = v) /\
    (forall v, new_direction p = Some v -> v <> EmptyString -> direction e' = v) /\
    (forall v, new_job_queue p = Some v -> job_queue e' = QJobs v) /\
    (forall r, In r (elevators w) -> row_id r <> i -> In r (elevators w')) /\
    event_logs w' = event_logs w ++ [ev] /\
    elevator_id ev = i /\
    event_type ev = "state_update"%string /\
    details ev =
      Json.stringify
        (Json.Obj
           (match new_state p with
            | Some v => [("state"%string, Json.Str v)]
            | None => []
            end ++
            match new_direction p with
            | Some v => [("direction"%string, Json.Str v)]
            | None => []
            end ++
            match new_current_floor p with
            | Some v => [("current_floor"%string, Json.Num v)]
            | None => []
            end)).
Proof.
  intros Hget.
  destruct (getElevatorById_inv _ _ _ _ _ Hget) as (r & q & Hsel & Hq & ->).
  destruct (updateElevatorState_found uuid_of i p w r q Hsel Hq)
    as (w' & E & Hrows & Hev & _ & _ & _).
  pose proof (select_update_row i
    (or_number (new_current_floor p) (row_current_floor r))
    (or_string (new_state p) (row_state r))
    (or_string (new_direction p) (row_direction r))
    (stringify_queue (or_queue (new_job_queue p) (QJobs q))) _ _ Hsel) as Hsel'.
  rewrite <- Hrows in Hsel'.
  destruct (getElevatorById_found uuid_of (Some i) w' _ _ Hsel'
              (parse_stringify_queue (new_job_queue p) q)) as (w2 & E2 & _).
  exists w', w2. eexists. eexists.
  split; [exact E|]. split; [exact E2|].
  cbn [id current_floor state direction job_queue with_parsed_queue
       row_id row_current_floor row_state row_direction].
  split; [reflexivity|].
  split; [now intros ->|]. split; [now intros ->|]. split; [now intros ->|].
  split; [now intros ->|].
  split; [intros v -> Hv; simpl; now rewrite (proj2 (Z.eqb_neq v 0) Hv)|].
  split; [intros v -> Hv; simpl; now rewrite (proj2 (String.eqb_neq v EmptyString) Hv)|].
  split; [intros v -> Hv; simpl; now rewrite (proj2 (String.eqb_neq v EmptyString) Hv)|].
  split; [now intros v ->|].
  split; [intros r0 Hin Hne; rewrite Hrows; now apply select_other_rows|].
  split; [exact Hev|]. cbn [elevator_id event_type details].
  rewrite state_update_details_eq. auto.
Qed.

Lemma update_merges_and_logs_the_update_witness :
  getElevatorById sample_uuid (Some 1) (started 2)
    = (Ok (Some {| id := 1; current_floor := 1; state := "Idle";
                   direction := "None"; job_queue := QJobs [] |}),
       snd (getElevatorById sample_uuid (Some 1) (started 2))) /\
  let e := {| id := 1; current_floor := 1; state := "Idle"%string;
              direction := "None"%string; job_queue := QJobs [] |} in
  let p := {| new_current_floor := Some 3; new_state := None;
              new_direction := None; new_job_queue := None |} in
  exists (w' w2 : world) (e' : elevator) (ev : event_row),
    updateElevatorState sample_uuid 1 p (started 2) = (Ok tt, w') /\
    getElevatorById sample_uuid (Some 1) w' = (Ok (Some e'), w2) /\
    id e' = id e /\
    (new_current_floor p = None -> current_floor e' = current_floor e) /\
    (new_state p = None -> state e' = state e) /\
    (new_direction p = None -> direction e' = direction e) /\
    (new_job_queue p = None -> job_queue e' = job_queue e) /\
    (forall v, new_current_floor p = Some v -> v <> 0 -> current_floor e' = v) /\
    (forall v, new_state p = Some v -> v <> EmptyString -> state e' = v) /\
    (forall v, new_direction p = Some v -> v <> EmptyString -> direction e' = v) /\
    (forall v, new_job_queue p = Some v -> job_queue e' = QJobs v) /\
    (forall r, In r (elevators (started 2)) -> row_id r <> 1 -> In r (elevators w')) /\
    event_logs w' = event_logs (started 2) ++ [ev] /\
    elevator_id ev = 1 /\
    event_type ev = "state_update"%string /\
    details ev =
      Json.stringify
        (Json.Obj
           (match new_state p with
            | Some v => [("state"%string, Json.Str v)]
            | None => []
            end ++
            match new_direction p with
            | Some v => [("direction"%string, Json.Str v)]
            | None => []
            end ++
            match new_current_floor p with
            | Some v => [("current_floor"%string, Json.Num v)]
            | None => []
            end)).
Proof.
  assert (H : getElevatorById sample_uuid (Some 1) (started 2)
              = (Ok (Some {| id := 1; current_floor := 1; state := "Idle";
                             direction := "None"; job_queue := QJobs [] |}),
                 snd (getElevatorById sample_uuid (Some 1) (started 2))))
    by (vm_compute; reflexivity).
  split; [exact H|].
  exact (update_merges_and_logs_the_update sample_uuid (started 2) 1
           {| new_current_floor := Some 3; new_state := None;
              new_direction := None; new_job_queue := None |} _ _ H).
Defined.

(** C4 as stated fails: an update of the floor alone logs the floor alone,
    not the merged state, direction and floor. *)
Lemma floor_update_logs_the_floor_alone :
  ~ state_update_carries_merged_record sample_uuid 1
      {| new_current_floor := Some 3; new_state := None;
         new_direction := None; new_job_queue := None |}
      (started 1).
Proof.
  unfold state_update_carries_merged_record.
  intros (e' & ev & Hget & Hlog & Hdetails).
  vm_compute in Hget. injection Hget as <-.
  vm_compute in Hlog. injection Hlog as <-.
  vm_compute in Hdetails. discriminate.
Qed.

Lemma getElevators_run uuid_of w :
  exists w',
    getElevators uuid_of w = (Ok (map object_of_row (elevators w)), w') /\
    elevators w' = elevators w /\ event_logs w' = event_logs w /\
    timers w' = timers w.
Proof.
  unfold getElevators, logSql, uuidv4, bind, gets, modify, ret. simpl.
  eexists. split; [reflexivity|]. simpl. auto.
Qed.

(** The status query in every state of a run.  It only reads the tables
    of elevators and events, and: given an argument that JavaScript counts
    as true (a non-zero number, a non-empty string), it reads it with
    [parseInt] and returns the empty list when what it reads names no
    elevator, the one-element list of that elevator's row with the job
    queue parsed when it names one; given nothing, 0 or the empty string it
    returns every row in the order of the table, which is ascending id. *)
Lemma status_query_by_id_or_all uuid_of config n w a :
  reachable uuid_of config n w ->
  elevators (snd (getElevatorStatus uuid_of a w)) = elevators w /\
  event_logs (snd (getElevatorStatus uuid_of a w)) = event_logs w /\
  (truthy a = true ->
   select_by_id (parseInt a) (elevators w) = None ->
   fst (getElevatorStatus uuid_of a w) = Ok []) /\
  (truthy a = true ->
   forall r, select_by_id (parseInt a) (elevators w) = Some r ->
   exists q, parse_jobs (row_job_queue r) = Some q /\
             fst (getElevatorStatus uuid_of a w) = Ok [with_parsed_queue r q]) /\
  (truthy a = false ->
   fst (getElevatorStatus uuid_of a w) = Ok (map object_of_row (elevators w)) /\
   StronglySorted Z.lt (map id (map object_of_row (elevators w)))).
Proof.
  intros Hreach. apply reachable_store_inv in Hreach as [Hrows Hsorted].
  unfold getElevatorStatus. destruct (truthy a) eqn:Ha.
  - destruct (select_by_id (parseInt a) (elevators w)) as [r|] eqn:Hsel.
    + assert (Hr : row_inv r)
        by (rewrite Forall_forall in Hrows; apply Hrows; eapply select_by_id_In; eauto).
      destruct Hr as (q & Hq & _).
      assert (Hparse : parse_jobs (row_job_queue r) = Some q)
        by (rewrite Hq; apply parse_stringify_jobs).
      destruct (getElevatorById_found uuid_of _ _ _ _ Hsel Hparse)
        as (w' & E & Hr' & He' & _).
      unfold bind. rewrite E. cbn [fst snd ret].
      repeat split; auto; try discriminate.
      intros _ r0 [= <-]. exists q. auto.
    + destruct (getElevatorById_missing uuid_of _ _ Hsel) as (w' & E & Hr' & He' & _).
      unfold bind. rewrite E. cbn [fst snd ret].
      repeat split; auto; discriminate.
  - destruct (getElevators_run uuid_of w) as (w' & E & Hr' & He' & _).
    rewrite E. cbn [fst snd].
    repeat split; auto; try discriminate.
    rewrite map_map. exact Hsorted.
Qed.

(** C9: what the code does at the id 0.  Three elevators, 1 to 3, so that
    neither 0 nor 4 names one.  Asked for elevator 4 the status query
    returns the empty list; asked for elevator 0 it returns all three
    elevators: [if (elevatorId)] takes the number 0 for no argument. *)
Theorem status_of_zero_lists_every_elevator :
  map row_id (elevators (started 3)) = [1; 2; 3] /\
  fst (getElevatorStatus sample_uuid (Number 4) (started 3)) = Ok [] /\
  fst (getElevatorStatus sample_uuid (Number 0) (started 3)) =
    Ok [{| id := 1; current_floor := 1; state := "Idle"; direction := "None";
           job_queue := QText "[]" |};
        {| id := 2; current_floor := 1; state := "Idle"; direction := "None";
           job_queue := QText "[]" |};
        {| id := 3; current_floor := 1; state := "Idle"; direction := "None";
           job_queue := QText "[]" |}] /\
  fst (getElevatorStatus sample_uuid (Number 0) (started 3)) =
  fst (getElevatorStatus sample_uuid Undefined (started 3)).
Proof. vm_compute. repeat split; reflexivity. Qed.

(** C10. For an elevator that exists, the two modes of the status query
    return snapshots of different shape: asked by id, the [job_queue] of
    the returned record is the parsed array; asked for all, the record of
    the same elevator is in the list with the stored JSON text as its
    [job_queue]; the two records agree on every other field and are not
    equal. *)
Theorem status_modes_differ_in_job_queue uuid_of w a r q :
  truthy a = true ->
  select_by_id (parseInt a) (elevators w) = Some r ->
  parse_jobs (row_job_queue r) = Some q ->
  exists (one other : elevator) (all : list elevator),
    fst (getElevatorStatus uuid_of a w) = Ok [one] /\
    fst (getElevatorStatus uuid_of Undefined w) = Ok all /\
    In other all /\
    id other = id one /\ current_floor other = current_floor one /\
    state other = state one /\ direction other = direction one /\
    job_queue one = QJobs q /\
    job_queue other = QText (row_job_queue r) /\
    one <> other.
Proof.
  intros Ha Hsel Hq.
  destruct (getElevatorById_found uuid_of _ _ _ _ Hsel Hq) as (w1 & E1 & _).
  destruct (getElevators_run uuid_of w) as (w2 & E2 & _).
  exists (with_parsed_queue r q), (object_of_row r), (map object_of_row (elevators w)).
  unfold getElevatorStatus. rewrite Ha. cbn [truthy]. unfold bind. rewrite E1, E2.
  cbn [fst ret]. repeat split.
  - apply in_map. eapply select_by_id_In; eauto.
  - intros H. apply (f_equal job_queue) in H. discriminate.
Qed.

Lemma status_modes_differ_in_job_queue_witness :
  truthy (Number 1) = true /\
  select_by_id (parseInt (Number 1)) (elevators (after_call 5 15 (started 2)))
    = Some {| row_id := 1; row_current_floor := 1; row_state := "Moving";
              row_direction := "Up";
              row_job_queue :=
                stringify_jobs [{| start := 1; end_ := 5; jobId := sample_uuid 1 |}] |} /\
  parse_jobs (stringify_jobs [{| start := 1; end_ := 5; jobId := sample_uuid 1 |}])
    = Some [{| start := 1; end_ := 5; jobId := sample_uuid 1 |}] /\
  exists (one other : elevator) (all : list elevator),
    fst (getElevatorStatus sample_uuid (Number 1) (after_call 5 15 (started 2)))
      = Ok [one] /\
    fst (getElevatorStatus sample_uuid Undefined (after_call 5 15 (started 2)))
      = Ok all /\
    In other all /\
    id other = id one /\ current_floor other = current_floor one /\
    state other = state one /\ direction other = direction one /\
    job_queue one = QJobs [{| start := 1; end_ := 5; jobId := sample_uuid 1 |}] /\
    job_queue other =
      QText (stringify_jobs [{| start := 1; end_ := 5; jobId := sample_uuid 1 |}]) /\
    one <> other.
Proof.
  assert (H1 : truthy (Number 1) = true) by reflexivity.
  assert (H2 : select_by_id (parseInt (Number 1))
                 (elevators (after_call 5 15 (started 2)))
               = Some {| row_id := 1; row_current_floor := 1; row_state := "Moving";
                         row_direction := "Up";
                         row_job_queue :=
                           stringify_jobs
                             [{| start := 1; end_ := 5; jobId := sample_uuid 1 |}] |})
    by (vm_compute; reflexivity).
  assert (H3 : parse_jobs
                 (stringify_jobs [{| start := 1; end_ := 5; jobId := sample_uuid 1 |}])
               = Some [{| start := 1; end_ := 5; jobId := sample_uuid 1 |}])
    by (vm_compute; reflexivity).
  split; [exact H1|]. split; [exact H2|]. split; [exact H3|].
  exact (status_modes_differ_in_job_queue sample_uuid
           (after_call 5 15 (started 2)) (Number 1) _ _ H1 H2 H3).
Defined.

(** C1: what the code does at a valid call.  Two elevators idle at floor 1;
    a call from floor 5 to floor 15 is accepted; the clock is advanced by the
    estimated duration of both legs.  Every timer has fired, elevator 1 is
    Idle with direction None and an empty queue, and the floor stored for it
    is 14: [floorIterator] writes the floor it leaves, never the one it
    arrives at. *)
Theorem completed_trip_stops_one_floor_short :
  fst (callElevator sample_uuid default_config 5 15 (started 2))
    = Ok {| success := true; result_jobId := Some (sample_uuid 1);
            message := "Elevator dispatched.";
            result_elevator_id := Some 1; status := Some "Moving"%string |} /\
  elevators completed_trip =
    [{| row_id := 1; row_current_floor := 14; row_state := "Idle";
        row_direction := "None"; row_job_queue := "[]" |};
     {| row_id := 2; row_current_floor := 1; row_state := "Idle";
        row_direction := "None"; row_job_queue := "[]" |}] /\
  timers completed_trip = [] /\
  now completed_trip = 78000 /\
  map (fun ev => (event_type ev, details ev))
      (filter (fun ev => String.eqb (event_type ev) "arrival") (event_logs completed_trip))
  = [("arrival"%string, Json.stringify (doors_details 5 "open"));
     ("arrival"%string, Json.stringify (doors_details 15 "open"))].
Proof. vm_compute. repeat split; reflexivity. Qed.

(** C2: what the code does below floor 1.  A call from floor 0 to floor 5
    passes the validation of [callElevator], which has no lower bound: it is
    accepted and an elevator is set moving towards floor 0. *)
Theorem call_below_the_first_floor_is_accepted :
  ~ valid_call default_config 0 5 /\
  callElevator sample_uuid default_config 0 5 (started 1)
    = (Ok {| success := true; result_jobId := Some (sample_uuid 1);
             message := "Elevator dispatched.";
             result_elevator_id := Some 1; status := Some "Moving"%string |},
       after_call 0 5 (started 1)) /\
  elevators (after_call 0 5 (started 1)) =
    [{| row_id := 1; row_current_floor := 1; row_state := "Moving";
        row_direction := "Down";
        row_job_queue :=
          stringify_jobs [{| start := 1; end_ := 0; jobId := sample_uuid 1 |}] |}] /\
  elevators
    (advance sample_uuid default_config 100 100000
       (snd (callElevator sample_uuid default_config (-3) 5 (started 1)))) =
    [{| row_id := 1; row_current_floor := 4; row_state := "Idle";
        row_direction := "None"; row_job_queue := "[]" |}] /\
  In (-2)
     (map row_current_floor
        (elevators
           (advance sample_uuid default_config 100 18000
              (snd (callElevator sample_uuid default_config (-3) 5 (started 1)))))).
Proof.
  split; [unfold valid_call; lia|].
  vm_compute. repeat split; try reflexivity. now left.
Qed.

(** C8: what the code does when the row disappears.  One elevator is on
    its way from floor 1 to floor 3 when its row is deleted.  The remaining
    timers fire without writing a row and without a state_update event, but
    [arriveAtFloor] and its door timer still log an arrival and a door_close
    event for the elevator that no longer exists. *)
Theorem arrival_is_logged_for_a_deleted_elevator :
  elevators deleted_mid_flight = [] /\
  timers deleted_mid_flight = [] /\
  map (fun ev => (timestamp ev, elevator_id ev, event_type ev, details ev))
      (event_logs deleted_mid_flight)
  = map (fun ev => (timestamp ev, elevator_id ev, event_type ev, details ev))
        (event_logs (after_call 3 5 (started 1)))
    ++ [(10000, 1, "arrival"%string, Json.stringify (doors_details 3 "open"));
        (12000, 1, "door_close"%string, Json.stringify (doors_details 3 "closed"))].
Proof. vm_compute. repeat split; reflexivity. Qed.

(** ** Further properties *)

Lemma floor_before_differs dir e : floor_before dir e <> e.
Proof. unfold floor_before. destruct (String.eqb dir "Up"); lia. Qed.

(** A trip, timer by timer, from the call to the door closing at the
    destination. *)
Lemma trip_runs_to_idle uuid_of config w s e :
  timers_in_range config -> estimate_in_range config ->
  well_formed w -> floors_in_range config w -> timers w = [] ->
  valid_call config s e -> has_idle w ->
  exists (chosen : elevator) (r_end : elevator_row) (fuel0 : nat),
    closest_of s (filter is_idle (map object_of_row (elevators w))) = Some chosen /\
    forall fuel, (fuel0 <= fuel)%nat ->
      let w_end :=
        advance uuid_of config fuel
          (estimated_duration config (current_floor chosen) s e)
          (snd (callElevator uuid_of config s e w)) in
      timers w_end = [] /\
      now w_end = now w + estimated_duration config (current_floor chosen) s e /\
      select_by_id (Some (id chosen)) (elevators w_end) = Some r_end /\
      row_state r_end = "Idle"%string /\
      row_direction r_end = "None"%string /\
      row_job_queue r_end = "[]"%string /\
      row_current_floor r_end = floor_before (leg_direction s e) e /\
      row_current_floor r_end <> e.
Proof.
  intros Hdelays Hestimate Hwf Hfloors Hquiet Hvalid Hidle.
  destruct (closest_of_some s _ (has_idle_filter w Hidle)) as (chosen & Hc).
  destruct (callElevator_accepts uuid_of config s e w chosen Hwf
              (valid_call_passes _ _ _ Hvalid) Hc)
    as (w1 & r1 & E & Hsel1 & _ & _ & Hq1 & Ht1 & Hn1 & _).
  rewrite Hquiet in Ht1. cbn [app] in Ht1.
  (* the floor the selected elevator stands at *)
  destruct (closest_of_spec _ _ _ Hc) as (before & after & Hsplit & _ & _).
  assert (Hin : In chosen (filter is_idle (map object_of_row (elevators w))))
    by (rewrite Hsplit; apply in_elt).
  apply idle_objects_rows in Hin as (r & Hr & Hchosen & _).
  assert (Hcf : 1 <= current_floor chosen <= MAX_FLOORS config)
    by (subst chosen; apply Hfloors, Hr).
  destruct Hvalid as (Hne & Hs & He).
  destruct Hdelays as [Htravel Hdoor].
  set (c := current_floor chosen) in *.
  set (travel := FLOOR_TRAVEL_TIME_MS config) in *.
  set (door := DOOR_ACTION_TIME_MS config) in *.
  set (i := id chosen) in *.
  set (j := uuid_of (S (uuids_drawn w))) in *.
  (* the delay of the second leg is taken as it is *)
  assert (Hdelay2 : timer_delay (Z.abs (s - c) * travel + door * 2)
                    = Z.abs (s - c) * travel + door * 2).
  { apply timer_delay_in_range. unfold estimate_in_range in Hestimate.
    fold travel door in Hestimate. nia. }
  rewrite Hdelay2 in Ht1.
  set (T2 := now w + (Z.abs (s - c) * travel + door * 2)) in *.
  assert (Hparse1 : parse_jobs (row_job_queue r1)
                    = Some [{| start := c; end_ := s; jobId := j |}])
    by (rewrite Hq1; apply parse_stringify_jobs).
  rewrite <- Hn1 in Ht1.
  destruct (first_leg_runs uuid_of config (conj Htravel Hdoor) i c s w1 r1 _
              (T2, SecondLeg i s e j) Hsel1 Hparse1 Ht1)
    as (k1 & r2 & Hleg1); try lia.
  { cbn [fst]. subst T2. fold travel door. lia. }
  cbn zeta in Hleg1. fold travel door in Hleg1.
  destruct Hleg1 as (Ht2 & Hn2 & Hsel2 & _ & Hq2).
  assert (Hparse2 : parse_jobs (row_job_queue r2) = Some [])
    by (rewrite Hq2; reflexivity).
  pose proof (second_leg_runs uuid_of config (conj Htravel Hdoor) i s e j
                (fire_times uuid_of config k1 w1) r2 [] T2 Hsel2 Hparse2 Ht2) as Hleg2.
  cbn zeta in Hleg2. fold travel door in Hleg2.
  destruct Hleg2 as (Ht3 & Hn3 & Hsel3); try lia.
  set (k2 := (1 + (Z.to_nat (Z.abs (e - s) - 1) + 2))%nat) in *.
  rewrite <- fire_times_add in Ht3, Hn3, Hsel3.
  exists chosen. eexists. exists (S (k1 + k2)).
  split; [exact Hc|]. intros fuel Hfuel. cbn zeta.
  rewrite E. cbn [snd]. unfold advance.
  rewrite (run_until_fire_times uuid_of config (k1 + k2) w1 fuel); [| exact Ht3 | | lia].
  - cbn [timers now elevators set_now].
    split; [exact Ht3|]. split; [now rewrite Hn1|].
    split; [exact Hsel3|]. cbn [row_state row_direction row_job_queue row_current_floor].
    repeat split. apply floor_before_differs.
  - rewrite Hn3, Hn1. unfold estimated_duration. fold travel door c. subst T2. lia.
Qed.

(** X1. For every valid call made while no timer is pending, on a store
    whose elevators stand at floors of the building, and with delays no
    shorter than the default ones (5000 ms a floor, 2000 ms a door action),
    which leave the writes a step does not await the time to settle before
    the next timer fires: once the clock has advanced by the estimated
    duration of both legs, no timer is left, and the selected elevator is
    Idle, with direction None and an empty job queue, but the floor stored
    for it is the floor next to the destination on the side it came from
    (end_floor - 1 going up, end_floor + 1 going down), never the
    destination. *)
Theorem completed_trip_is_idle_next_to_destination uuid_of config w s e :
  5000 <= FLOOR_TRAVEL_TIME_MS config <= 2147483647 ->
  2000 <= DOOR_ACTION_TIME_MS config <= 2147483647 ->
  MAX_FLOORS config * FLOOR_TRAVEL_TIME_MS config + DOOR_ACTION_TIME_MS config * 2
    <= 2147483647 ->
  well_formed w -> floors_in_range config w -> timers w = [] ->
  valid_call config s e -> has_idle w ->
  exists (chosen : elevator_row) (res : call_result) (w1 : world)
         (r_end : elevator_row) (fuel0 : nat),
    callElevator uuid_of config s e w = (Ok res, w1) /\
    result_elevator_id res = Some (row_id chosen) /\
    In chosen (elevators w) /\ row_state chosen = "Idle"%string /\
    forall fuel, (fuel0 <= fuel)%nat ->
      let duration :=
        (Z.abs (s - row_current_floor chosen) + Z.abs (e - s))
        * FLOOR_TRAVEL_TIME_MS config
        + 4 * DOOR_ACTION_TIME_MS config in
      let w_end := advance uuid_of config fuel duration w1 in
      timers w_end = [] /\
      now w_end = now w + duration /\
      select_by_id (Some (row_id chosen)) (elevators w_end) = Some r_end /\
      row_state r_end = "Idle"%string /\
      row_direction r_end = "None"%string /\
      row_job_queue r_end = "[]"%string /\
      row_current_floor r_end = (if e >? s then e - 1 else e + 1) /\
      row_current_floor r_end <> e.
Proof.
  intros Htravel Hdoor Hestimate Hwf Hfloors Hquiet Hvalid Hidle.
  assert (Hdelays : timers_in_range config) by (unfold timers_in_range; lia).
  destruct (trip_runs_to_idle uuid_of config w s e Hdelays Hestimate Hwf Hfloors Hquiet
              Hvalid Hidle) as (el & r_end & fuel0 & Hc & Hrun).
  destruct (callElevator_accepts uuid_of config s e w el Hwf
              (valid_call_passes _ _ _ Hvalid) Hc) as (w1 & r1 & E & _).
  destruct (closest_of_rows _ _ _ Hc) as (before & chosen & after & Hsplit & -> & Hi & _).
  cbn [id current_floor object_of_row] in *.
  exists chosen. eexists. exists w1, r_end, fuel0.
  split; [exact E|]. split; [reflexivity|].
  split; [rewrite Hsplit; apply in_elt|]. split; [exact Hi|].
  intros fuel Hfuel. specialize (Hrun fuel Hfuel). cbn zeta in *.
  rewrite E in Hrun. cbn [snd] in Hrun.
  unfold estimated_duration, floor_before in Hrun. rewrite leg_direction_up in Hrun.
  exact Hrun.
Qed.

Lemma completed_trip_is_idle_next_to_destination_witness :
  5000 <= FLOOR_TRAVEL_TIME_MS default_config <= 2147483647 /\
  2000 <= DOOR_ACTION_TIME_MS default_config <= 2147483647 /\
  MAX_FLOORS default_config * FLOOR_TRAVEL_TIME_MS default_config
    + DOOR_ACTION_TIME_MS default_config * 2 <= 2147483647 /\
  well_formed two_idle_elevators /\ floors_in_range default_config two_idle_elevators /\
  timers two_idle_elevators = [] /\
  valid_call default_config 5 15 /\ has_idle two_idle_elevators /\
  exists (chosen : elevator_row) (res : call_result) (w1 : world)
         (r_end : elevator_row) (fuel0 : nat),
    callElevator sample_uuid default_config 5 15 two_idle_elevators = (Ok res, w1) /\
    result_elevator_id res = Some (row_id chosen) /\
    In chosen (elevators two_idle_elevators) /\ row_state chosen = "Idle"%string /\
    forall fuel, (fuel0 <= fuel)%nat ->
      let duration :=
        (Z.abs (5 - row_current_floor chosen) + Z.abs (15 - 5))
        * FLOOR_TRAVEL_TIME_MS default_config
        + 4 * DOOR_ACTION_TIME_MS default_config in
      let w_end := advance sample_uuid default_config fuel duration w1 in
      timers w_end = [] /\
      now w_end = now two_idle_elevators + duration /\
      select_by_id (Some (row_id chosen)) (elevators w_end) = Some r_end /\
      row_state r_end = "Idle"%string /\
      row_direction r_end = "None"%string /\
      row_job_queue r_end = "[]"%string /\
      row_current_floor r_end = (if 15 >? 5 then 15 - 1 else 15 + 1) /\
      row_current_floor r_end <> 15.
Proof.
  assert (H1 : 5000 <= FLOOR_TRAVEL_TIME_MS default_config <= 2147483647)
    by (simpl; lia).
  assert (H2 : 2000 <= DOOR_ACTION_TIME_MS default_config <= 2147483647)
    by (simpl; lia).
  assert (H3 : MAX_FLOORS default_config * FLOOR_TRAVEL_TIME_MS default_config
               + DOOR_ACTION_TIME_MS default_config * 2 <= 2147483647)
    by (simpl; lia).
  assert (H4 : floors_in_range default_config two_idle_elevators)
    by (intros r [<- | [<- | []]]; simpl; lia).
  assert (H5 : timers two_idle_elevators = []) by reflexivity.
  split; [exact H1|]. split; [exact H2|]. split; [exact H3|].
  split; [exact two_idle_elevators_well_formed|]. split; [exact H4|].
  split; [exact H5|]. split; [exact valid_call_5_15|].
  split; [exact two_idle_elevators_has_idle|].
  exact (completed_trip_is_idle_next_to_destination sample_uuid default_config
           two_idle_elevators 5 15 H1 H2 H3 two_idle_elevators_well_formed H4 H5
           valid_call_5_15 two_idle_elevators_has_idle).
Defined.

(** X2. When the two floors are equal, or either is above MAX_FLOORS,
    [callElevator] resolves with success = false and the message
    "Invalid floor numbers." before it touches the database: the state of
    the process is the one it started from. *)
Theorem invalid_floors_are_rejected_untouched uuid_of config w s e :
  s = e \/ MAX_FLOORS config < s \/ MAX_FLOORS config < e ->
  callElevator uuid_of config s e w =
    (Ok {| success := false; result_jobId := None;
           message := "Invalid floor numbers.";
           result_elevator_id := None; status := None |}, w).
Proof.
  intros H. unfold callElevator.
  assert (E : (s =? e) || (s >? MAX_FLOORS config) || (e >? MAX_FLOORS config) = true).
  { rewrite !orb_true_iff, !Z.gtb_ltb, Z.eqb_eq, !Z.ltb_lt. tauto. }
  now rewrite E.
Qed.

Lemma invalid_floors_are_rejected_untouched_witness :
  (1 = 1 \/ MAX_FLOORS default_config < 1 \/ MAX_FLOORS default_config < 1) /\
  callElevator sample_uuid default_config 1 1 (started 1) =
    (Ok {| success := false; result_jobId := None;
           message := "Invalid floor numbers.";
           result_elevator_id := None; status := None |}, started 1).
Proof.
  assert (H : 1 = 1 \/ MAX_FLOORS default_config < 1 \/ MAX_FLOORS default_config < 1)
    by (left; reflexivity).
  split; [exact H|].
  exact (invalid_floors_are_rejected_untouched sample_uuid default_config
           (started 1) 1 1 H).
Defined.

(** X3. When no row has the elevator's id, a floor step of its movement
    chain and the start of a leg write no row and log no event; a floor
    step still schedules the step after it, the start of a leg schedules
    nothing. *)
Theorem steps_of_a_missing_elevator_write_nothing uuid_of config w i dir s e j cur :
  select_by_id (Some i) (elevators w) = None ->
  cur <> e ->
  elevators (snd (floorIterator uuid_of config i dir e cur w)) = elevators w /\
  event_logs (snd (floorIterator uuid_of config i dir e cur w)) = event_logs w /\
  fst (floorIterator uuid_of config i dir e cur w) = Ok tt /\
  timers (snd (floorIterator uuid_of config i dir e cur w)) =
    timers w ++ [(now w + timer_delay (FLOOR_TRAVEL_TIME_MS config),
                  FloorStep i dir e (next_floor dir cur))] /\
  elevators (snd (moveElevator uuid_of config i s e j w)) = elevators w /\
  event_logs (snd (moveElevator uuid_of config i s e j w)) = event_logs w /\
  timers (snd (moveElevator uuid_of config i s e j w)) = timers w /\
  fst (moveElevator uuid_of config i s e j w) = Ok tt.
Proof.
  intros Hsel Hne.
  unfold floorIterator, moveElevator. rewrite (proj2 (Z.eqb_neq cur e) Hne).
  match goal with |- context [updateElevatorState uuid_of i ?p] =>
    destruct (updateElevatorState_missing uuid_of i p w Hsel)
      as (w1 & E1 & Hr1 & He1 & Ht1 & Hn1 & _)
  end.
  destruct (getElevatorById_missing uuid_of (Some i) w Hsel)
    as (w2 & E2 & Hr2 & He2 & Ht2 & _).
  unfold bind, detached. rewrite E1, E2.
  unfold setTimeout, modify, ret. cbn [fst snd elevators event_logs timers set_timers].
  rewrite Ht1, Hn1. auto 10.
Qed.

Lemma steps_of_a_missing_elevator_write_nothing_witness :
  let w := delete_elevator 1 (after_call 3 5 (started 1)) in
  select_by_id (Some 1) (elevators w) = None /\
  4 <> 5 /\
  elevators (snd (floorIterator sample_uuid default_config 1 "Up" 5 4 w)) = elevators w /\
  event_logs (snd (floorIterator sample_uuid default_config 1 "Up" 5 4 w)) = event_logs w /\
  fst (floorIterator sample_uuid default_config 1 "Up" 5 4 w) = Ok tt /\
  timers (snd (floorIterator sample_uuid default_config 1 "Up" 5 4 w)) =
    timers w ++ [(now w + timer_delay (FLOOR_TRAVEL_TIME_MS default_config),
                  FloorStep 1 "Up" 5 (next_floor "Up" 4))] /\
  elevators (snd (moveElevator sample_uuid default_config 1 3 5 (sample_uuid 1) w))
    = elevators w /\
  event_logs (snd (moveElevator sample_uuid default_config 1 3 5 (sample_uuid 1) w))
    = event_logs w /\
  timers (snd (moveElevator sample_uuid default_config 1 3 5 (sample_uuid 1) w))
    = timers w /\
  fst (moveElevator sample_uuid default_config 1 3 5 (sample_uuid 1) w) = Ok tt.
Proof.
  cbn zeta.
  assert (H1 : select_by_id (Some 1)
                 (elevators (delete_elevator 1 (after_call 3 5 (started 1)))) = None)
    by reflexivity.
  assert (H2 : 4 <> 5) by lia.
  split; [exact H1|]. split; [exact H2|].
  exact (steps_of_a_missing_elevator_write_nothing sample_uuid default_config
           (delete_elevator 1 (after_call 3 5 (started 1))) 1 "Up" 3 5 (sample_uuid 1) 4
           H1 H2).
Defined.

(** ** Requests through the middleware *)

Lemma typeof_number (v : js_value) :
  typeof v = "number"%string <-> exists n, v = JsNumber n.
Proof.
  split; [|intros [n ->]; reflexivity].
  destruct v; cbn; try discriminate. eauto.
Qed.

Lemma try_catch_internal_error {A} (m : M A) (h : M A) (w : world) :
  (forall w0, snd (h w0) = w0) ->
  snd (try_catch m (fun _ => h) w) = snd (m w).
Proof.
  intros Hh. unfold try_catch. destruct (m w) as [[a|e] w1]; simpl; auto.
Qed.

Lemma snd_bind_ret {A B} (m : M A) (k : A -> M B) (w : world) :
  (forall a w0, snd (k a w0) = w0) -> snd (bind m k w) = snd (m w).
Proof.
  intros Hk. unfold bind. destruct (m w) as [[a|e] w1]; simpl; auto.
Qed.

Section Requests.

Variable uuid_of : nat -> string.
Variable config : Config.

Lemma track_request_tables req w :
  elevators (snd (track_request uuid_of req w)) = elevators w /\
  event_logs (snd (track_request uuid_of req w)) = event_logs w /\
  timers (snd (track_request uuid_of req w)) = timers w /\
  now (snd (track_request uuid_of req w)) = now w.
Proof. unfold track_request, detached, logSql, uuidv4, bind, modify. cbn. auto. Qed.

Lemma track_request_run req w :
  track_request uuid_of req w = (Ok tt, snd (track_request uuid_of req w)).
Proof. reflexivity. Qed.

Lemma serve_route req w :
  serve uuid_of config req w =
  match target req with
  | PostCall body => post_call uuid_of config body
  | GetStatus p => get_status uuid_of p
  | GetLogs => get_logs
  end (snd (track_request uuid_of req w)).
Proof. unfold serve, bind. rewrite track_request_run. reflexivity. Qed.

Lemma post_call_world body w :
  snd (post_call uuid_of config body w) =
  match start_floor body, end_floor body with
  | JsNumber s, JsNumber e => snd (callElevator uuid_of config s e w)
  | _, _ => w
  end.
Proof.
  unfold post_call. rewrite try_catch_internal_error by reflexivity.
  destruct (start_floor body); try reflexivity.
  destruct (end_floor body); try reflexivity.
  apply snd_bind_ret. intros r w0. now destruct (success r).
Qed.

Lemma get_status_world p w :
  snd (get_status uuid_of p w) =
  snd (getElevatorStatus uuid_of (match p with Some s => Text s | None => Undefined end) w).
Proof.
  unfold get_status. rewrite try_catch_internal_error by reflexivity.
  now apply snd_bind_ret.
Qed.

Lemma get_logs_world w : snd (get_logs w) = w.
Proof. reflexivity. Qed.

End Requests.

(** ** Effects of the operations, from those of the database layer *)

Lemma good_task_True t : good_task (fun _ _ => True) t.
Proof. destruct t; cbn; auto. Qed.

Section Effects.

Variable uuid_of : nat -> string.
Variable config : Config.
Variable R : world -> world -> Prop.
Variable good : Z -> partial -> Prop.
Context {writes : Writes uuid_of R good} {tracks : Tracks uuid_of R}
        {schedules : Schedules R} {clock : Clock R}.

Lemma effect_ret {A} (a : A) : respects R (ret a).
Proof. intros w. apply writes_refl. Qed.

Lemma effect_bind {A B} (m : M A) (k : A -> M B) :
  respects R m -> (forall a, respects R (k a)) -> respects R (bind m k).
Proof.
  intros Hm Hk w. unfold bind. specialize (Hm w).
  destruct (m w) as [[a|e] w1]; simpl in *; [|exact Hm].
  eapply writes_trans; [exact Hm | apply Hk].
Qed.

Lemma effect_detached {A} (m : M A) : respects R m -> respects R (detached m).
Proof. intros Hm w. apply Hm. Qed.

Lemma effect_try_catch {A} (m : M A) (h : string -> M A) :
  respects R m -> (forall e, respects R (h e)) -> respects R (try_catch m h).
Proof.
  intros Hm Hh w. unfold try_catch. specialize (Hm w).
  destruct (m w) as [[a|e] w1]; simpl in *; [exact Hm|].
  eapply writes_trans; [exact Hm | apply Hh].
Qed.

Lemma effect_getElevators : respects R (getElevators uuid_of).
Proof.
  apply effect_bind; [apply writes_logSql|]. intros _ w. apply writes_refl.
Qed.

Lemma effect_getElevatorById i : respects R (getElevatorById uuid_of i).
Proof.
  apply effect_bind; [apply writes_logSql|]. intros _.
  apply effect_bind; [intros w; apply writes_refl|]. intros [r|]; [|apply effect_ret].
  destruct (parse_jobs (row_job_queue r)); [apply effect_ret | intros w; apply writes_refl].
Qed.

Lemma effect_findClosestIdleElevator s : respects R (findClosestIdleElevator uuid_of s).
Proof.
  apply effect_bind; [apply effect_getElevators|]. intros l. apply effect_ret.
Qed.

Lemma effect_arriveAtFloor i f :
  good i doors_open_update -> respects R (arriveAtFloor uuid_of config i f).
Proof.
  intros Hi. apply effect_bind; [now apply writes_update|]. intros _.
  apply effect_bind; [apply writes_logEvent|]. intros _. apply schedules_setTimeout.
Qed.

Lemma effect_closeDoors i f :
  good i idle_update -> respects R (closeDoors uuid_of i f).
Proof.
  intros Hi. apply effect_bind; [now apply writes_update|]. intros _. apply writes_logEvent.
Qed.

Lemma effect_floorIterator i dir e c :
  good i doors_open_update -> good i (floor_update c) ->
  respects R (floorIterator uuid_of config i dir e c).
Proof.
  intros Hd Hf. unfold floorIterator. destruct (c =? e).
  - now apply effect_detached, effect_arriveAtFloor.
  - apply effect_bind; [|intros _; apply schedules_setTimeout].
    now apply effect_detached, writes_update.
Qed.

Lemma effect_moveElevator i s e j :
  good i (moving_update s e j) -> good i doors_open_update -> good i (floor_update s) ->
  respects R (moveElevator uuid_of config i s e j).
Proof.
  intros Hm Hd Hf. apply effect_bind; [apply effect_getElevatorById|].
  intros [el|]; [|apply effect_ret].
  apply effect_bind; [now apply writes_update|].
  intros _. now apply effect_floorIterator.
Qed.

Lemma effect_run_task t : good_task good t -> respects R (run_task uuid_of config t).
Proof.
  destruct t; simpl.
  - intros [Hd Hf]. now apply effect_floorIterator.
  - apply effect_closeDoors.
  - intros (Hm & Hd & Hf). now apply effect_moveElevator.
Qed.

Lemma effect_getElevatorStatus a : respects R (getElevatorStatus uuid_of a).
Proof.
  unfold getElevatorStatus. destruct (truthy a); [|apply effect_getElevators].
  apply effect_bind; [apply effect_getElevatorById|]. intros o. apply effect_ret.
Qed.

Lemma effect_getLogs : respects R getLogs.
Proof.
  apply effect_bind; [intros w; apply writes_refl|]. intros l.
  apply effect_bind; [intros w; apply writes_refl|]. intros l'. apply effect_ret.
Qed.

Lemma effect_get_status q : respects R (get_status uuid_of q).
Proof.
  apply effect_try_catch; [|intros e; apply effect_ret].
  apply effect_bind; [apply effect_getElevatorStatus|]. intros l. apply effect_ret.
Qed.

Lemma effect_get_logs : respects R get_logs.
Proof.
  apply effect_try_catch; [|intros e; apply effect_ret].
  apply effect_bind; [apply effect_getLogs|]. intros l. apply effect_ret.
Qed.

Lemma effect_track_request req : respects R (track_request uuid_of req).
Proof. apply tracks_request. Qed.

Lemma effect_fire_next w w' :
  (forall due t rest, next_timer (timers w) = Some ((due, t), rest) -> good_task good t) ->
  fire_next uuid_of config w = Some w' -> R w w'.
Proof.
  unfold fire_next. destruct (next_timer (timers w)) as [[[due t] rest]|]; [|discriminate].
  intros Hgood [= <-]. eapply writes_trans; [apply clock_pop|].
  apply effect_run_task. eapply Hgood. reflexivity.
Qed.

(** A call, when the updates of the elevator it picks are [good]. *)
Lemma effect_callElevator_chosen s e w :
  (forall el j,
     closest_of s (filter is_idle (map object_of_row (elevators w))) = Some el ->
     good (id el) (moving_update (current_floor el) s j) /\
     good (id el) doors_open_update /\
     good (id el) (floor_update (current_floor el))) ->
  R w (snd (callElevator uuid_of config s e w)).
Proof.
  intros Hgood. unfold callElevator.
  destruct ((s =? e) || (s >? MAX_FLOORS config) || (e >? MAX_FLOORS config));
    [apply writes_refl|].
  pose proof (effect_findClosestIdleElevator s w) as H1.
  destruct (findClosestIdleElevator_run uuid_of s w) as (w1 & E1 & _).
  unfold bind at 1. rewrite E1 in *. cbn [snd] in H1.
  destruct (closest_of s (filter is_idle (map object_of_row (elevators w)))) as [el|];
    [|exact H1].
  eapply writes_trans; [exact H1|].
  apply effect_bind; [apply writes_uuidv4|]. intros j.
  destruct (Hgood el j eq_refl) as (Hm & Hd & Hf).
  apply effect_bind; [apply writes_logEvent|]. intros _.
  apply effect_bind; [now apply effect_moveElevator|]. intros _.
  apply effect_bind; [apply schedules_setTimeout|]. intros _.
  apply effect_ret.
Qed.

(** When the updates of every callback are [good]. *)
Hypothesis service_good : forall t, good_task good t.

Lemma effect_callElevator s e : respects R (callElevator uuid_of config s e).
Proof.
  intros w. apply effect_callElevator_chosen. intros el j _.
  apply (service_good (SecondLeg (id el) (current_floor el) s j)).
Qed.

Lemma effect_post_call b : respects R (post_call uuid_of config b).
Proof.
  apply effect_try_catch; [|intros e; apply effect_ret].
  destruct (start_floor b); try apply effect_ret.
  destruct (end_floor b); try apply effect_ret.
  apply effect_bind; [apply effect_callElevator|]. intros r.
  destruct (success r); apply effect_ret.
Qed.

Lemma effect_serve req : respects R (serve uuid_of config req).
Proof.
  apply effect_bind; [apply effect_track_request|]. intros _.
  destruct (target req).
  - apply effect_post_call.
  - apply effect_get_status.
  - apply effect_get_logs.
Qed.

Lemma effect_serve_step w w' : serve_step uuid_of config w w' -> R w w'.
Proof.
  destruct 1 as [w req|w w' H|w t H _].
  - apply effect_serve.
  - eapply effect_fire_next; [|exact H]. intros. apply service_good.
  - now apply clock_wait.
Qed.

Lemma effect_serve_steps w w' : serve_steps uuid_of config w w' -> R w w'.
Proof.
  induction 1; [apply writes_refl|]. eapply writes_trans; eauto using effect_serve_step.
Qed.

End Effects.

(** [updateElevatorState] keeps a relation that the log lines and any
    change of rows keep. *)
Lemma update_from_rows (uuid_of : nat -> string) (R : world -> world -> Prop) :
  (forall w, R w w) -> (forall a b c, R a b -> R b c -> R a c) ->
  (forall q, respects R (logSql uuid_of q "system" None None)) ->
  (forall i t d, respects R (logEvent uuid_of i t d)) ->
  (forall i f st dir q w,
     R w (set_elevators (map (update_row i f st dir q) (elevators w)) w)) ->
  forall i p, respects R (updateElevatorState uuid_of i p).
Proof.
  intros Hrefl Htrans Hsql Hevent Hrows i p w.
  unfold updateElevatorState, getElevatorById. unfold bind at 1. unfold bind at 1.
  pose proof (Hsql ("SELECT * FROM elevators WHERE id = " +++ render_number (Some i)) w)
    as H1.
  destruct (logSql uuid_of _ "system" None None w) as [[[]|err] w1]; cbn [snd] in *;
    [|exact H1].
  unfold bind, gets, ret, throw, modify. cbn [fst snd].
  destruct (select_by_id (Some i) (elevators w1)) as [r|]; [|exact H1].
  destruct (parse_jobs (row_job_queue r)) as [q|]; [|exact H1].
  eapply Htrans; [exact H1|]. eapply Htrans; [apply Hrows|]. apply Hevent.
Qed.

(** ** The logs *)

Lemma StronglySorted_app (l1 l2 : list Z) :
  StronglySorted Z.le l1 -> StronglySorted Z.le l2 ->
  (forall x y, In x l1 -> In y l2 -> x <= y) ->
  StronglySorted Z.le (l1 ++ l2).
Proof.
  induction l1 as [|a l1 IH]; simpl; intros H1 H2 H; [exact H2|].
  inversion H1; subst. constructor.
  - apply IH; auto.
  - apply Forall_app. split; [assumption|].
    apply Forall_forall. intros y Hy. apply H; auto.
Qed.

Lemma logs_grow_same (w w' : world) :
  now w <= now w' -> event_logs w' = event_logs w -> sql_logs w' = sql_logs w ->
  logs_grow w w'.
Proof.
  intros Hn He Hs. split; [exact Hn|]. split.
  - exists []. rewrite app_nil_r. repeat split; [exact He | constructor | constructor].
  - exists []. rewrite app_nil_r. repeat split; [exact Hs | constructor | constructor].
Qed.

Lemma logs_grow_refl w : logs_grow w w.
Proof. apply logs_grow_same; [lia | reflexivity | reflexivity]. Qed.

Lemma stamped_app {A} (stamp : A -> Z) (a b c : Z) (l1 l2 : list A) :
  a <= b -> b <= c ->
  StronglySorted Z.le (map stamp l1) -> Forall (fun x => a <= stamp x <= b) l1 ->
  StronglySorted Z.le (map stamp l2) -> Forall (fun x => b <= stamp x <= c) l2 ->
  StronglySorted Z.le (map stamp (l1 ++ l2)) /\
  Forall (fun x => a <= stamp x <= c) (l1 ++ l2).
Proof.
  intros Hab Hbc S1 F1 S2 F2. split.
  - rewrite map_app. apply StronglySorted_app; auto.
    intros x y Hx Hy. apply in_map_iff in Hx as [x' [<- Hx]].
    apply in_map_iff in Hy as [y' [<- Hy]].
    rewrite Forall_forall in F1, F2. specialize (F1 _ Hx). specialize (F2 _ Hy). lia.
  - apply Forall_app. split; eapply Forall_impl; try eassumption; simpl; intros; lia.
Qed.

Lemma logs_grow_trans a b c : logs_grow a b -> logs_grow b c -> logs_grow a c.
Proof.
  intros [Hab [[e1 [E1 [S1 F1]]] [q1 [Q1 [T1 G1]]]]]
         [Hbc [[e2 [E2 [S2 F2]]] [q2 [Q2 [T2 G2]]]]].
  split; [lia|]. split.
  - exists (e1 ++ e2). rewrite E2, E1, app_assoc. split; [reflexivity|].
    now apply (stamped_app timestamp (now a) (now b) (now c)).
  - exists (q1 ++ q2). rewrite Q2, Q1, app_assoc. split; [reflexivity|].
    now apply (stamped_app sql_timestamp (now a) (now b) (now c)).
Qed.

Section Logs.

Variable uuid_of : nat -> string.
Variable config : Config.

Lemma logs_grow_logSql q a b c : respects logs_grow (logSql uuid_of q a b c).
Proof.
  intros w. unfold logs_grow, logSql, bind, uuidv4, modify. cbn.
  split; [lia|]. split.
  - exists []. rewrite app_nil_r. repeat split; constructor.
  - eexists. split; [reflexivity|]. split.
    + simpl. repeat constructor.
    + repeat constructor; simpl; lia.
Qed.

Lemma logs_grow_logEvent i t d : respects logs_grow (logEvent uuid_of i t d).
Proof.
  intros w. unfold logs_grow, logEvent, bind, uuidv4, modify. cbn.
  split; [lia|]. split.
  - eexists. split; [reflexivity|]. split.
    + simpl. repeat constructor.
    + repeat constructor; simpl; lia.
  - exists []. rewrite app_nil_r. repeat split; constructor.
Qed.

Lemma logs_grow_update i p : respects logs_grow (updateElevatorState uuid_of i p).
Proof.
  apply update_from_rows.
  - apply logs_grow_refl.
  - apply logs_grow_trans.
  - intros q. apply logs_grow_logSql.
  - apply logs_grow_logEvent.
  - intros i0 f st dir q w0. apply logs_grow_same; simpl; [lia | reflexivity | reflexivity].
Qed.

#[export] Instance logs_grow_writes : Writes uuid_of logs_grow (fun _ _ => True).
Proof.
  split.
  - apply logs_grow_refl.
  - apply logs_grow_trans.
  - intros w0. apply logs_grow_same; simpl; [lia | reflexivity | reflexivity].
  - intros q. apply logs_grow_logSql.
  - apply logs_grow_logEvent.
  - intros i p _. apply logs_grow_update.
Qed.

#[export] Instance logs_grow_tracks : Tracks uuid_of logs_grow.
Proof. split. intros req w0. apply logs_grow_logSql. Qed.

#[export] Instance logs_grow_schedules : Schedules logs_grow.
Proof.
  split. intros t d w0. apply logs_grow_same; simpl; [lia | reflexivity | reflexivity].
Qed.

#[export] Instance logs_grow_clock : Clock logs_grow.
Proof.
  split.
  - intros w0 due rest. apply logs_grow_same; simpl; [lia | reflexivity | reflexivity].
  - intros w0 t Ht. apply logs_grow_same; simpl; [lia | reflexivity | reflexivity].
Qed.

Lemma logs_grow_serve_steps w w' :
  serve_steps uuid_of config w w' -> logs_grow w w'.
Proof.
  apply (effect_serve_steps uuid_of config logs_grow (fun _ _ => True)), good_task_True.
Qed.

Lemma insert_elevators_logs n i w :
  event_logs (snd (insert_elevators n i w)) = event_logs w /\
  sql_logs (snd (insert_elevators n i w)) = sql_logs w /\
  now (snd (insert_elevators n i w)) = now w /\
  timers (snd (insert_elevators n i w)) = timers w /\
  uuids_drawn (snd (insert_elevators n i w)) = uuids_drawn w.
Proof.
  revert i w. induction n as [|n IH]; intros i w; simpl; [auto|].
  unfold bind, modify. simpl. destruct (IH (i + 1) (set_elevators (elevators w ++ [initial_row i]) w)) as (A & B & C & D & E).
  auto.
Qed.

Lemma initializeDb_logs N w :
  event_logs (snd (initializeDb N w)) = event_logs w /\
  sql_logs (snd (initializeDb N w)) = sql_logs w /\
  now (snd (initializeDb N w)) = now w /\
  timers (snd (initializeDb N w)) = timers w /\
  uuids_drawn (snd (initializeDb N w)) = uuids_drawn w.
Proof.
  unfold initializeDb, bind, gets. simpl.
  destruct (Nat.eqb _ 0); [apply insert_elevators_logs | simpl; auto].
Qed.

Lemma served_serve_steps N w :
  served uuid_of config N w ->
  serve_steps uuid_of config (snd (initializeDb N empty_world)) w.
Proof.
  induction 1; [constructor | econstructor; eassumption].
Qed.

(** X4. From any state of the server on, whatever requests come and timers
    fire, the event log and the SQL log only grow at the end: the lines
    they hold stay, each in its place. *)
Theorem logs_only_grow w w' :
  serve_steps uuid_of config w w' ->
  (exists evs, event_logs w' = event_logs w ++ evs) /\
  (exists sqls, sql_logs w' = sql_logs w ++ sqls).
Proof.
  intros Hs. destruct (logs_grow_serve_steps _ _ Hs) as (_ & (evs & E & _) & (sqls & Q & _)).
  eauto.
Qed.

Lemma served_request N req w :
  served uuid_of config N w -> served uuid_of config N (snd (serve uuid_of config req w)).
Proof. intros H. eapply served_step; [exact H | apply serve_request]. Qed.


Lemma serve_steps_trans a b c :
  serve_steps uuid_of config a b -> serve_steps uuid_of config b c ->
  serve_steps uuid_of config a c.
Proof.
  intros Hab Hbc. induction Hbc as [b|b c d Hbc IH Hstep]; [exact Hab|].
  eapply serve_steps_next; [apply IH, Hab | exact Hstep].
Qed.

Lemma serve_steps_fire_times (k : nat) : forall w,
  serve_steps uuid_of config w (fire_times uuid_of config k w).
Proof.
  induction k as [|k IH]; intros w; cbn [fire_times]; [constructor|].
  destruct (fire_next uuid_of config w) as [w'|] eqn:E; [|constructor].
  eapply serve_steps_trans; [|apply IH].
  eapply serve_steps_next; [constructor | now apply serve_timer].
Qed.

End Logs.

Lemma served_dispatched : served sample_uuid default_config (Some 2) dispatched.
Proof. apply served_request, served_init. Qed.

Lemma logs_only_grow_witness :
  serve_steps sample_uuid default_config dispatched
    (after_request logs_request (fire_times sample_uuid default_config 3 dispatched)) /\
  (exists evs,
     event_logs (after_request logs_request
                   (fire_times sample_uuid default_config 3 dispatched)) =
     event_logs dispatched ++ evs) /\
  (exists sqls,
     sql_logs (after_request logs_request
                 (fire_times sample_uuid default_config 3 dispatched)) =
     sql_logs dispatched ++ sqls).
Proof.
  assert (H : serve_steps sample_uuid default_config dispatched
                (after_request logs_request
                   (fire_times sample_uuid default_config 3 dispatched)))
    by (eapply serve_steps_next; [apply serve_steps_fire_times | apply serve_request]).
  split; [exact H|].
  exact (logs_only_grow sample_uuid default_config dispatched _ H).
Defined.

(** ** The ids of the log lines *)

Lemma ids_from_draws_same uuid_of (w w' : world) :
  event_logs w' = event_logs w -> sql_logs w' = sql_logs w ->
  (uuids_drawn w <= uuids_drawn w')%nat ->
  keeps_ids_from_draws uuid_of w w'.
Proof.
  intros He Hs Hn (ke & ks & E & Q & D & B). exists ke, ks.
  rewrite He, Hs. repeat split; auto.
  eapply Forall_impl; [|exact B]. simpl. intros; lia.
Qed.

Lemma NoDup_fresh_middle (l1 l2 : list nat) (k : nat) :
  NoDup (l1 ++ l2) -> Forall (fun x => (x < k)%nat) (l1 ++ l2) ->
  NoDup (l1 ++ k :: l2).
Proof.
  intros D B. eapply Permutation_NoDup; [apply Permutation_middle|].
  constructor; [|exact D].
  intros Hin. rewrite Forall_forall in B. specialize (B _ Hin). lia.
Qed.

Lemma Forall_fresh_middle (l1 l2 : list nat) (k : nat) :
  Forall (fun x => (x < k)%nat) (l1 ++ l2) ->
  Forall (fun x => (x < S k)%nat) (l1 ++ k :: l2).
Proof.
  intros B. apply Forall_app in B as [B1 B2]. apply Forall_app. split.
  - eapply Forall_impl; [|exact B1]. simpl. intros; lia.
  - constructor; [lia|]. eapply Forall_impl; [|exact B2]. simpl. intros; lia.
Qed.

Lemma ids_from_draws_logSql uuid_of q a b c :
  respects (keeps_ids_from_draws uuid_of) (logSql uuid_of q a b c).
Proof.
  intros w (ke & ks & E & Q & D & B).
  exists ke, (ks ++ [uuids_drawn w]).
  unfold logSql, bind, uuidv4, modify. cbn.
  rewrite !map_app, Q. cbn. repeat split; auto.
  - rewrite app_assoc. rewrite <- (app_nil_r ((ke ++ ks) ++ [uuids_drawn w])), <- app_assoc.
    cbn. apply NoDup_fresh_middle; rewrite app_nil_r; assumption.
  - rewrite app_assoc. rewrite <- (app_nil_r ((ke ++ ks) ++ [uuids_drawn w])), <- app_assoc.
    cbn. apply Forall_fresh_middle; rewrite app_nil_r; assumption.
Qed.

Lemma ids_from_draws_logEvent uuid_of i t d :
  respects (keeps_ids_from_draws uuid_of) (logEvent uuid_of i t d).
Proof.
  intros w (ke & ks & E & Q & D & B).
  exists (ke ++ [uuids_drawn w]), ks.
  unfold logEvent, bind, uuidv4, modify. cbn.
  rewrite !map_app, E. cbn. repeat split; auto.
  - rewrite <- app_assoc. cbn. now apply NoDup_fresh_middle.
  - rewrite <- app_assoc. cbn. now apply Forall_fresh_middle.
Qed.

Lemma NoDup_map_injective {A B} (f : A -> B) (l : list A) :
  (forall a b, f a = f b -> a = b) -> NoDup l -> NoDup (map f l).
Proof.
  intros Hf. induction 1 as [|x l Hx D IH]; simpl; constructor; auto.
  intros Hin. apply in_map_iff in Hin as [y [Hy Hin]]. apply Hf in Hy. now subst.
Qed.

Section Ids.

Variable uuid_of : nat -> string.
Variable config : Config.

Lemma ids_from_draws_update i p :
  respects (keeps_ids_from_draws uuid_of) (updateElevatorState uuid_of i p).
Proof.
  apply update_from_rows.
  - intros w0 H. exact H.
  - intros a b c Hab Hbc H. auto.
  - intros q. apply ids_from_draws_logSql.
  - apply ids_from_draws_logEvent.
  - intros i0 f st dir q w0. apply ids_from_draws_same; cbn; auto.
Qed.

#[export] Instance ids_from_draws_writes :
  Writes uuid_of (keeps_ids_from_draws uuid_of) (fun _ _ => True).
Proof.
  split.
  - intros w0 H. exact H.
  - intros a b c Hab Hbc H. auto.
  - intros w0. apply ids_from_draws_same; cbn; auto.
  - intros q. apply ids_from_draws_logSql.
  - apply ids_from_draws_logEvent.
  - intros i p _. apply ids_from_draws_update.
Qed.

#[export] Instance ids_from_draws_tracks : Tracks uuid_of (keeps_ids_from_draws uuid_of).
Proof. split. intros req w0. apply ids_from_draws_logSql. Qed.

#[export] Instance ids_from_draws_schedules : Schedules (keeps_ids_from_draws uuid_of).
Proof. split. intros t d w0. apply ids_from_draws_same; cbn; auto. Qed.

#[export] Instance ids_from_draws_clock : Clock (keeps_ids_from_draws uuid_of).
Proof.
  split.
  - intros w0 due rest. apply ids_from_draws_same; cbn; auto.
  - intros w0 t Ht. apply ids_from_draws_same; cbn; auto.
Qed.

Lemma ids_from_draws_serve_steps w w' :
  serve_steps uuid_of config w w' -> keeps_ids_from_draws uuid_of w w'.
Proof.
  apply (effect_serve_steps uuid_of config (keeps_ids_from_draws uuid_of)
           (fun _ _ => True)), good_task_True.
Qed.

Lemma served_ids_from_draws N w :
  served uuid_of config N w -> ids_from_draws uuid_of w.
Proof.
  intros H. apply served_serve_steps in H. apply ids_from_draws_serve_steps in H.
  apply H. destruct (initializeDb_logs N empty_world) as (A & B & _ & _ & C).
  exists [], []. rewrite A, B. cbn. repeat split; constructor.
Qed.

(** X5. When the uuid package never hands out the same identifier twice,
    no two lines of the logs of a server share an id, be they event lines,
    SQL lines, or one of each: no insert into either log can fail on its
    primary key. *)
Theorem log_line_ids_are_pairwise_distinct N w :
  (forall a b, uuid_of a = uuid_of b -> a = b) ->
  served uuid_of config N w ->
  NoDup (map event_id (event_logs w) ++ map sql_id (sql_logs w)).
Proof.
  intros Hinj H. apply served_ids_from_draws in H as (ke & ks & E & Q & D & _).
  rewrite E, Q, <- map_app. now apply NoDup_map_injective.
Qed.

End Ids.

Lemma log_line_ids_are_pairwise_distinct_witness :
  served sample_uuid default_config (Some 2) dispatched /\
  NoDup (map event_id (event_logs dispatched) ++ map sql_id (sql_logs dispatched)).
Proof.
  split; [exact served_dispatched|].
  exact (log_line_ids_are_pairwise_distinct sample_uuid default_config (Some 2) dispatched
           sample_uuid_injective served_dispatched).
Defined.

(** ** The server keeps the store invariant and the fleet *)

Section Fleet.

Variable uuid_of : nat -> string.
Variable config : Config.

(** A request leaves table [elevators] as one step of the service does. *)
Lemma serve_as_step req w :
  exists w1,
    elevators w1 = elevators w /\
    (snd (serve uuid_of config req w) = w1 \/
     step uuid_of config w1 (snd (serve uuid_of config req w))).
Proof.
  exists (snd (track_request uuid_of req w)).
  split; [apply track_request_tables|].
  rewrite serve_route. destruct (target req) as [body|p|].
  - rewrite post_call_world.
    destruct (start_floor body); auto. destruct (end_floor body); auto.
    right. constructor.
  - rewrite get_status_world. right. constructor.
  - now left.
Qed.

Lemma keeps_store_inv_serve_step w w' :
  serve_step uuid_of config w w' -> keeps_store_inv w w'.
Proof.
  destruct 1 as [w req|w w' H|w t H1 H2].
  - destruct (serve_as_step req w) as (w1 & E & [-> | Hstep]); intros Hinv.
    + now rewrite E.
    + apply (keeps_store_inv_step _ _ _ _ Hstep). now rewrite E.
  - apply (keeps_store_inv_step uuid_of config). now constructor.
  - apply (keeps_store_inv_step uuid_of config). now constructor.
Qed.

Lemma served_store_inv N w : served uuid_of config N w -> store_inv (elevators w).
Proof.
  induction 1 as [|w w' _ IH Hstep].
  - apply initializeDb_store_inv.
  - now apply (keeps_store_inv_serve_step _ _ Hstep).
Qed.

Lemma served_well_formed N w : served uuid_of config N w -> well_formed w.
Proof.
  intros H. apply served_store_inv in H as [Hrows _].
  eapply Forall_impl; [|exact Hrows]. apply row_inv_canonical.
Qed.

#[export] Instance same_fleet_writes : Writes uuid_of same_fleet (fun _ _ => True).
Proof.
  split; unfold same_fleet, respects; try reflexivity.
  - intros a b c Hab Hbc. congruence.
  - intros i p _ w0.
    destruct (updateElevatorState_rows uuid_of i p w0) as [E | (r & q & _ & _ & E)];
      cbv zeta in E; rewrite E; [reflexivity | apply row_id_update_row].
Qed.

#[export] Instance same_fleet_tracks : Tracks uuid_of same_fleet.
Proof. split. intros req w0. reflexivity. Qed.

#[export] Instance same_fleet_schedules : Schedules same_fleet.
Proof. split. intros t d w. reflexivity. Qed.

#[export] Instance same_fleet_clock : Clock same_fleet.
Proof. split; reflexivity. Qed.


Lemma insert_elevators_rows (k : nat) : forall (i : Z) (w : world),
  elevators (snd (insert_elevators k i w)) =
  elevators w ++ map (fun j => initial_row (i + Z.of_nat j)) (seq 0 k).
Proof.
  induction k as [|k IH]; intros i w; cbn [insert_elevators seq map].
  - now rewrite app_nil_r.
  - unfold bind, modify. cbn [fst snd]. rewrite IH. cbn [elevators set_elevators].
    rewrite <- app_assoc. cbn [app]. rewrite Z.add_0_r. do 2 f_equal.
    rewrite <- seq_shift, map_map. apply map_ext. intros j. f_equal. lia.
Qed.

Lemma initializeDb_empty N w :
  elevators w = [] ->
  elevators (snd (initializeDb N w)) =
  map initial_row (fleet_ids (Z.to_nat (or_default N 3))).
Proof.
  intros E. unfold initializeDb, bind, gets. cbn [fst snd]. rewrite E. cbn [List.length Nat.eqb].
  rewrite insert_elevators_rows, E. cbn [app]. unfold fleet_ids.
  rewrite <- seq_shift, !map_map. apply map_ext. intros j. f_equal. lia.
Qed.

Lemma initializeDb_nonempty N w : elevators w <> [] -> initializeDb N w = (Ok tt, w).
Proof.
  intros E. unfold initializeDb, bind, gets. cbn [fst snd].
  destruct (elevators w); [contradiction | reflexivity].
Qed.



End Fleet.


(** ** Starting on a database *)

Lemma set_elevators_same w : set_elevators (elevators w) w = w.
Proof. now destruct w. Qed.

Lemma insert_elevators_run (k : nat) : forall (i : Z) (w : world),
  insert_elevators k i w =
  (Ok tt, set_elevators
            (elevators w ++ map (fun j => initial_row (i + Z.of_nat j)) (seq 0 k)) w).
Proof.
  induction k as [|k IH]; intros i w; cbn [insert_elevators seq map].
  - now rewrite app_nil_r, set_elevators_same.
  - unfold bind, modify. rewrite IH. cbn [elevators set_elevators].
    rewrite <- app_assoc. cbn [app]. rewrite Z.add_0_r.
    rewrite <- seq_shift, map_map.
    rewrite (map_ext (fun j => initial_row (i + 1 + Z.of_nat j))
               (fun j => initial_row (i + Z.of_nat (S j))));
      [reflexivity | intros j; f_equal; lia].
Qed.

(** X7. [initializeDb] on a database without elevators inserts elevators
    1 to NUM_ELEVATORS (1 to 3 when that variable is unset, not a number, or
    0), each at floor 1, Idle, with direction None and the job queue [[]],
    and touches nothing else; on a database that has an elevator it changes
    nothing at all.  So running it a second time never changes anything: a
    restart keeps the rows it finds. *)
Theorem initializeDb_creates_the_fleet_once N w :
  let n := Z.to_nat (match N with
                     | Some v => if v =? 0 then 3 else v
                     | None => 3
                     end) in
  let w' := snd (initializeDb N w) in
  fst (initializeDb N w) = Ok tt /\
  elevators w' =
    match elevators w with
    | [] =>
        map (fun k => {| row_id := Z.of_nat k; row_current_floor := 1;
                         row_state := "Idle"; row_direction := "None";
                         row_job_queue := "[]" |})
            (seq 1 n)
    | _ :: _ => elevators w
    end /\
  event_logs w' = event_logs w /\ sql_logs w' = sql_logs w /\
  timers w' = timers w /\ now w' = now w /\ uuids_drawn w' = uuids_drawn w /\
  initializeDb N w' = (Ok tt, w').
Proof.
  cbv zeta.
  destruct (initializeDb_logs N w) as (He & Hs & Hn & Ht & Hu).
  split; [|split; [|repeat split; auto]].
  - unfold initializeDb, bind, gets. cbn [fst snd].
    destruct (Nat.eqb (List.length (elevators w)) 0); [|reflexivity].
    now rewrite insert_elevators_run.
  - destruct (elevators w) as [|r rows] eqn:E.
    + rewrite initializeDb_empty by exact E. unfold fleet_ids. now rewrite map_map.
    + rewrite initializeDb_nonempty by (rewrite E; discriminate). exact E.
  - destruct (elevators w) as [|r rows] eqn:E.
    + destruct (Z.to_nat (or_default N 3)) as [|k] eqn:Ek.
      * assert (Hsame : snd (initializeDb N w) = w).
        { unfold initializeDb, bind, gets. cbn [fst snd]. rewrite E, Ek. reflexivity. }
        rewrite Hsame. unfold initializeDb, bind, gets. cbn [fst snd].
        rewrite E, Ek. reflexivity.
      * apply initializeDb_nonempty. rewrite initializeDb_empty by exact E.
        rewrite Ek. cbn. discriminate.
    + apply initializeDb_nonempty. rewrite initializeDb_nonempty by (rewrite E; discriminate).
      cbn [snd]. rewrite E. discriminate.
Qed.

(** ** The routes *)

Section Routes.

Variable uuid_of : nat -> string.
Variable config : Config.



End Routes.



(** ** From a call to the logs *)

Section Trace.

Variable uuid_of : nat -> string.
Variable config : Config.

Lemma logs_grow_In w w' ev : logs_grow w w' -> In ev (event_logs w) -> In ev (event_logs w').
Proof.
  intros (_ & (evs & E & _) & _) H. rewrite E. apply in_or_app. now left.
Qed.

(** An accepted call has written its [call] event. *)
Lemma callElevator_logs_the_call s e w r w' :
  callElevator uuid_of config s e w = (Ok r, w') -> success r = true ->
  exists i j ev,
    result_jobId r = Some j /\ result_elevator_id r = Some i /\
    In ev (event_logs w') /\ event_type ev = "call"%string /\ elevator_id ev = i /\
    details ev = Json.stringify (call_details s e j) /\ timestamp ev = now w.
Proof.
  unfold callElevator.
  destruct ((s =? e) || (s >? MAX_FLOORS config) || (e >? MAX_FLOORS config)).
  { intros [= <- <-]. discriminate. }
  destruct (findClosestIdleElevator_run uuid_of s w) as (w1 & E1 & _ & _ & _ & Hn1 & _).
  unfold bind at 1. rewrite E1.
  destruct (closest_of s (filter is_idle (map object_of_row (elevators w)))) as [el|].
  2: { intros [= <- <-]. discriminate. }
  unfold bind at 1, uuidv4 at 1.
  unfold bind at 1, logEvent at 1, bind at 1, uuidv4 at 1, modify at 1.
  set (ev := {| event_id := _; timestamp := _; elevator_id := _; event_type := _;
                details := _ |}).
  set (w2 := set_event_logs _ _).
  pose proof (effect_moveElevator uuid_of config logs_grow (fun _ _ => True)
                (id el) (current_floor el) s (uuid_of (uuids_drawn w1)) I I I w2) as Hgrow.
  unfold bind at 1.
  destruct (moveElevator uuid_of config (id el) (current_floor el) s
              (uuid_of (uuids_drawn w1)) w2) as [[[]|err] w3]; [|discriminate].
  unfold bind, setTimeout, modify, ret. cbn [fst snd].
  intros [= <- <-] _.
  exists (id el), (uuid_of (uuids_drawn w1)), ev. cbn.
  repeat split; auto.
  apply (logs_grow_In _ _ _ Hgrow). subst w2. cbn. apply in_or_app. right. now left.
Qed.

Lemma get_logs_run w :
  get_logs w =
  (Ok {| status_code := 200; json := LogsBody (event_logs w) (sql_logs w) |}, w).
Proof. reflexivity. Qed.

(** X10. A job that POST /call, with integer floors, answered with 202
    stays traceable: after any further requests and timers, GET /logs
    answers 200 with the whole event log, and that log holds a call event
    of the elevator named in the answer, whose details are the JSON text of
    the object with start_floor and end_floor of the request and the jobId
    of the answer, in this order. *)
Theorem dispatched_job_stays_in_the_logs w req s e r w1 w2 req' :
  target req = PostCall {| start_floor := JsNumber s; end_floor := JsNumber e |} ->
  serve uuid_of config req w = (Ok {| status_code := 202; json := Dispatched r |}, w1) ->
  serve_steps uuid_of config w1 w2 ->
  target req' = GetLogs ->
  exists i j ev sqls w3,
    result_jobId r = Some j /\ result_elevator_id r = Some i /\
    serve uuid_of config req' w2 =
      (Ok {| status_code := 200; json := LogsBody (event_logs w2) sqls |}, w3) /\
    In ev (event_logs w2) /\ event_type ev = "call"%string /\ elevator_id ev = i /\
    details ev =
      Json.stringify
        (Json.Obj [("start_floor"%string, Json.Num s);
                   ("end_floor"%string, Json.Num e);
                   ("jobId"%string, Json.Str j)]).
Proof.
  intros Htarget Hcall Hsteps Htarget'.
  rewrite serve_route, Htarget in Hcall. unfold post_call, try_catch in Hcall.
  cbn [start_floor end_floor] in Hcall. unfold bind in Hcall.
  destruct (callElevator uuid_of config s e (snd (track_request uuid_of req w)))
    as [[r0|err] w0] eqn:E; [|discriminate].
  destruct (success r0) eqn:Hsuccess; [|discriminate].
  injection Hcall as <- <-.
  destruct (callElevator_logs_the_call _ _ _ _ _ E Hsuccess)
    as (i & j & ev & Hj & Hi & Hin & Htype & Hid & Hdetails & _).
  exists i, j, ev. rewrite serve_route, Htarget', get_logs_run.
  destruct (track_request_tables uuid_of req' w2) as (_ & -> & _).
  do 2 eexists. split; [exact Hj|]. split; [exact Hi|]. split; [reflexivity|].
  split; [|auto]. eapply logs_grow_In; [|exact Hin].
  now apply (logs_grow_serve_steps uuid_of config).
Qed.

End Trace.

Lemma dispatched_job_stays_in_the_logs_witness :
  serve sample_uuid default_config (call_request 5 15) (started 2) =
    (Ok {| status_code := 202;
           json := Dispatched
             {| success := true; result_jobId := Some (sample_uuid 2);
                message := "Elevator dispatched.";
                result_elevator_id := Some 1; status := Some "Moving"%string |} |},
     dispatched) /\
  exists i j ev sqls w3,
    Some (sample_uuid 2) = Some j /\ Some 1 = Some i /\
    serve sample_uuid default_config logs_request
      (fire_times sample_uuid default_config 3 dispatched) =
      (Ok {| status_code := 200;
             json := LogsBody
               (event_logs (fire_times sample_uuid default_config 3 dispatched)) sqls |},
       w3) /\
    In ev (event_logs (fire_times sample_uuid default_config 3 dispatched)) /\
    event_type ev = "call"%string /\ elevator_id ev = i /\
    details ev =
      Json.stringify
        (Json.Obj [("start_floor"%string, Json.Num 5);
                   ("end_floor"%string, Json.Num 15);
                   ("jobId"%string, Json.Str j)]).
Proof.
  assert (H : serve sample_uuid default_config (call_request 5 15) (started 2) =
    (Ok {| status_code := 202;
           json := Dispatched
             {| success := true; result_jobId := Some (sample_uuid 2);
                message := "Elevator dispatched.";
                result_elevator_id := Some 1; status := Some "Moving"%string |} |},
     dispatched)) by (vm_compute; reflexivity).
  split; [exact H|].
  exact (dispatched_job_stays_in_the_logs sample_uuid default_config (started 2)
           (call_request 5 15) 5 15 _ dispatched
           (fire_times sample_uuid default_config 3 dispatched) logs_request
           eq_refl H (serve_steps_fire_times sample_uuid default_config 3 dispatched)
           eq_refl).
Defined.

(** ** The timers a callback leaves behind *)

Lemma same_schedule_refl w : same_schedule w w.
Proof. split; reflexivity. Qed.

Lemma same_schedule_trans a b c : same_schedule a b -> same_schedule b c -> same_schedule a c.
Proof. intros [H1 H2] [H3 H4]. split; congruence. Qed.

#[export] Instance same_schedule_writes uuid_of :
  Writes uuid_of same_schedule (fun _ _ => True).
Proof.
  assert (Hsql : forall q, respects same_schedule (logSql uuid_of q "system" None None))
    by (intros q w; split; reflexivity).
  assert (Hevent : forall i t d, respects same_schedule (logEvent uuid_of i t d))
    by (intros i t d w; split; reflexivity).
  split; auto using same_schedule_refl.
  - apply same_schedule_trans.
  - intros w. split; reflexivity.
  - intros i p _. apply update_from_rows; auto using same_schedule_refl.
    all: try apply same_schedule_trans.
    all: intros; split; reflexivity.
Qed.

Lemma leaves_behind_same t w w' : same_schedule w w' -> leaves_behind t w w'.
Proof. intros [H _]. exists []. rewrite app_nil_r. auto. Qed.

Lemma leaves_behind_after t a b c :
  same_schedule a b -> leaves_behind t b c -> leaves_behind t a c.
Proof. intros [H _] (l & E & Hl). exists l. rewrite E, H. auto. Qed.

Section Schedule.

Variable uuid_of : nat -> string.
Variable config : Config.

Lemma same_schedule_update i p : respects same_schedule (updateElevatorState uuid_of i p).
Proof. now apply (writes_update (R := same_schedule)). Qed.

Lemma same_schedule_closeDoors i f : respects same_schedule (closeDoors uuid_of i f).
Proof. now apply (effect_closeDoors uuid_of same_schedule (fun _ _ => True)). Qed.

Lemma same_schedule_getElevatorById i : respects same_schedule (getElevatorById uuid_of i).
Proof. apply (effect_getElevatorById uuid_of same_schedule (fun _ _ => True)). Qed.

Lemma arriveAtFloor_timers i f w :
  leaves_behind (Some (DoorClose i f)) w (snd (arriveAtFloor uuid_of config i f w)).
Proof.
  unfold arriveAtFloor. unfold bind at 1.
  pose proof (same_schedule_update i doors_open_update w) as H1.
  fold doors_open_update.
  destruct (updateElevatorState uuid_of i doors_open_update w) as [[[]|err] w1];
    cbn [snd] in *; [|now apply leaves_behind_same].
  apply (leaves_behind_after _ _ _ _ H1).
  unfold bind, logEvent, uuidv4, setTimeout, modify. cbn.
  eexists. split; [reflexivity|]. right. eauto.
Qed.

Lemma floorIterator_timers i dir e c w :
  leaves_behind (Some (scheduled_at i dir e c)) w
    (snd (floorIterator uuid_of config i dir e c w)).
Proof.
  unfold floorIterator, scheduled_at. destruct (c =? e).
  - apply arriveAtFloor_timers.
  - unfold bind, detached, setTimeout, modify. cbn [fst snd].
    pose proof (same_schedule_update i (floor_update c) w) as H1.
    fold (floor_update c).
    apply (leaves_behind_after _ _ _ _ H1).
    eexists. split; [reflexivity|]. right. unfold next_floor. eauto.
Qed.

Lemma moveElevator_timers i s e j w :
  leaves_behind (Some (scheduled_at i (leg_direction s e) e s)) w
    (snd (moveElevator uuid_of config i s e j w)).
Proof.
  unfold moveElevator. unfold bind at 1.
  pose proof (same_schedule_getElevatorById (Some i) w) as H1.
  destruct (getElevatorById uuid_of (Some i) w) as [[[el|]|err] w1]; cbn [snd] in *;
    try now apply leaves_behind_same.
  apply (leaves_behind_after _ _ _ _ H1).
  fold (leg_direction s e). fold (moving_update s e j). unfold bind.
  pose proof (same_schedule_update i (moving_update s e j) w1) as H2.
  destruct (updateElevatorState uuid_of i (moving_update s e j) w1) as [[[]|err] w2];
    cbn [snd] in *; [|now apply leaves_behind_same].
  apply (leaves_behind_after _ _ _ _ H2). apply floorIterator_timers.
Qed.

Lemma run_task_timers t w :
  leaves_behind (successor t) w (snd (run_task uuid_of config t w)).
Proof.
  destruct t as [i dir e c|i f|i s e j]; cbn [run_task successor].
  - apply floorIterator_timers.
  - apply leaves_behind_same, same_schedule_closeDoors.
  - apply moveElevator_timers.
Qed.

End Schedule.

(** ** Every leg ends *)




Lemma next_timer_Permutation l t rest :
  next_timer l = Some (t, rest) -> Permutation l (t :: rest).
Proof.
  revert t rest. induction l as [|a l IH]; intros t rest; cbn [next_timer]; [discriminate|].
  destruct (next_timer l) as [[t' r']|] eqn:E.
  - destruct (fst a <=? fst t'); intros [= <- <-]; [reflexivity|].
    rewrite (IH _ _ eq_refl). apply perm_swap.
  - apply next_timer_none in E. subst l. intros [= <- <-]. reflexivity.
Qed.






Section Ends.

Variable uuid_of : nat -> string.
Variable config : Config.

Lemma fire_next_timers w w' :
  fire_next uuid_of config w = Some w' ->
  exists due t rest l,
    next_timer (timers w) = Some ((due, t), rest) /\
    timers w' = rest ++ l /\
    (l = [] \/ exists due' t', successor t = Some t' /\ l = [(due', t')]).
Proof.
  unfold fire_next.
  destruct (next_timer (timers w)) as [[[due t] rest]|]; [|discriminate].
  intros [= <-].
  destruct (run_task_timers uuid_of config t
              (set_now (Z.max (now w) due) (set_timers rest w))) as (l & E & Hl).
  exists due, t, rest, l. auto.
Qed.



(** The timers a call registers: none, or those of the closest idle
    elevator. *)
Lemma callElevator_timers s e w :
  let w' := snd (callElevator uuid_of config s e w) in
  timers w' = timers w \/
  exists el l,
    (s =? e) || (s >? MAX_FLOORS config) || (e >? MAX_FLOORS config) = false /\
    closest_of s (filter is_idle (map object_of_row (elevators w))) = Some el /\
    timers w' = timers w ++ l /\
    Forall (fun dt =>
              snd dt = scheduled_at (id el) (leg_direction (current_floor el) s) s
                         (current_floor el) \/
              exists j, snd dt = SecondLeg (id el) s e j) l.
Proof.
  cbv zeta. destruct (callElevator uuid_of config s e w) as [res w'] eqn:Hrun.
  cbn [snd]. unfold callElevator in Hrun.
  destruct ((s =? e) || (s >? MAX_FLOORS config) || (e >? MAX_FLOORS config)) eqn:Hvalid;
    [injection Hrun as _ <-; now left|].
  destruct (findClosestIdleElevator_run uuid_of s w) as (w1 & E1 & _ & _ & Ht1 & _).
  unfold bind at 1 in Hrun. rewrite E1 in Hrun.
  destruct (closest_of s (filter is_idle (map object_of_row (elevators w)))) as [el|];
    [|injection Hrun as _ <-; left; exact Ht1].
  right. exists el.
  unfold bind at 1, uuidv4 at 1 in Hrun.
  unfold bind at 1, logEvent at 1, bind at 1, uuidv4 at 1, modify at 1 in Hrun.
  set (w2 := set_event_logs _ _) in Hrun.
  assert (Ht2 : timers w2 = timers w) by (subst w2; exact Ht1).
  destruct (moveElevator_timers uuid_of config (id el) (current_floor el) s
              (uuid_of (uuids_drawn w1)) w2) as (l & E & Hl).
  unfold bind at 1 in Hrun.
  destruct (moveElevator uuid_of config (id el) (current_floor el) s
              (uuid_of (uuids_drawn w1)) w2) as [[[]|err] w3]; cbn [snd] in E.
  - unfold bind, setTimeout, modify, ret in Hrun. cbn [fst snd] in Hrun.
    injection Hrun as _ <-. cbn [timers set_timers].
    eexists. split; [reflexivity|]. split; [reflexivity|].
    rewrite E, Ht2, <- app_assoc. split; [reflexivity|].
    apply Forall_app. split.
    + destruct Hl as [-> | (due & t' & [= <-] & ->)];
      [constructor | constructor; [now left | constructor]].
    + constructor; [right; cbn [snd]; eauto | constructor].
  - injection Hrun as _ <-. eexists. split; [reflexivity|]. split; [reflexivity|].
    rewrite E, Ht2. split; [reflexivity|].
    destruct Hl as [-> | (due & t' & [= <-] & ->)];
      [constructor | constructor; [now left | constructor]].
Qed.

Lemma same_schedule_getElevatorStatus a :
  respects same_schedule (getElevatorStatus uuid_of a).
Proof. apply (effect_getElevatorStatus uuid_of same_schedule (fun _ _ => True)). Qed.





End Ends.


(** ** No elevator above the top floor *)

#[export] Instance same_rows_writes uuid_of : Writes uuid_of same_rows (fun _ _ => False).
Proof.
  split; unfold same_rows, respects; try reflexivity; [|contradiction].
  intros a b c Hab Hbc. congruence.
Qed.

#[export] Instance same_rows_schedules : Schedules same_rows.
Proof. split. intros t d w. reflexivity. Qed.

Lemma or_number_below (top : Z) (c : option Z) (old : Z) :
  (forall v, c = Some v -> v <= top) -> old <= top -> or_number c old <= top.
Proof.
  intros Hc Hold. destruct c as [v|]; cbn; [|exact Hold].
  destruct (v =? 0); [exact Hold | now apply Hc].
Qed.

Section Top.

Variable uuid_of : nat -> string.
Variable config : Config.

Let top := MAX_FLOORS config.

Lemma floors_below_top_update i p :
  writes_below_top config i p ->
  respects (keeps_floors_below_top config) (updateElevatorState uuid_of i p).
Proof.
  intros Hp w Hw. unfold floors_below_top in *.
  destruct (updateElevatorState_rows uuid_of i p w) as [E | (r & q & Hsel & _ & E)];
    cbv zeta in E; rewrite E; [exact Hw|].
  apply Forall_map. eapply Forall_impl; [|exact Hw].
  intros r0 Hr0. unfold update_row. destruct (row_id r0 =? i); [|exact Hr0].
  cbn [row_current_floor]. apply or_number_below; [exact Hp|].
  apply select_by_id_In in Hsel. rewrite Forall_forall in Hw. now apply Hw.
Qed.

#[export] Instance floors_below_top_writes :
  Writes uuid_of (keeps_floors_below_top config) (writes_below_top config).
Proof.
  split; unfold keeps_floors_below_top, respects; auto.
  intros i p Hp. now apply floors_below_top_update.
Qed.

#[export] Instance floors_below_top_schedules : Schedules (keeps_floors_below_top config).
Proof. split. intros t d w Hw. exact Hw. Qed.

#[export] Instance floors_below_top_clock : Clock (keeps_floors_below_top config).
Proof. split; intros; intros Hw; exact Hw. Qed.






Lemma same_rows_getElevatorStatus a : respects same_rows (getElevatorStatus uuid_of a).
Proof. apply (effect_getElevatorStatus uuid_of same_rows (fun _ _ => False)). Qed.



End Top.


(** ** One elevator at a time *)

Lemma filter_update_row_other (keep : elevator_row -> bool) i f st d q rows :
  (forall r, row_id r = i -> keep r = false) ->
  filter keep (map (update_row i f st d q) rows) = filter keep rows.
Proof.
  intros Hi. induction rows as [|r rows IH]; [reflexivity|]. cbn [map filter].
  rewrite IH. unfold update_row. destruct (row_id r =? i) eqn:E; [|reflexivity].
  apply Z.eqb_eq in E. rewrite (Hi r E).
  set (r' := {| row_id := row_id r; row_current_floor := f; row_state := st;
                row_direction := d; row_job_queue := q |}).
  now rewrite (Hi r' E).
Qed.

Section Isolation.

Variable uuid_of : nat -> string.
Variable config : Config.

Lemma keeps_rows_of_update i j p :
  j <> i -> respects (keeps_rows_of i) (updateElevatorState uuid_of j p).
Proof.
  intros Hne w. unfold keeps_rows_of, rows_of.
  destruct (updateElevatorState_rows uuid_of j p w) as [E | (r & q & _ & _ & E)];
    cbv zeta in E; rewrite E; [reflexivity|].
  apply filter_update_row_other. intros r0 <-. now apply Z.eqb_neq.
Qed.

Lemma keeps_rows_but_update i p :
  respects (keeps_rows_but i) (updateElevatorState uuid_of i p).
Proof.
  intros w. unfold keeps_rows_but, rows_but.
  destruct (updateElevatorState_rows uuid_of i p w) as [E | (r & q & _ & _ & E)];
    cbv zeta in E; rewrite E; [reflexivity|].
  apply filter_update_row_other. intros r0 <-. now rewrite Z.eqb_refl.
Qed.

#[export] Instance keeps_rows_of_writes i :
  Writes uuid_of (keeps_rows_of i) (fun j _ => j <> i).
Proof.
  split; unfold keeps_rows_of, respects; try reflexivity.
  - intros a b c Hab Hbc. congruence.
  - intros j p Hne. now apply keeps_rows_of_update.
Qed.

#[export] Instance keeps_rows_of_schedules i : Schedules (keeps_rows_of i).
Proof. split. intros t d w. reflexivity. Qed.

#[export] Instance keeps_rows_of_clock i : Clock (keeps_rows_of i).
Proof. split; reflexivity. Qed.

#[export] Instance keeps_rows_but_writes i :
  Writes uuid_of (keeps_rows_but i) (fun j _ => j = i).
Proof.
  split; unfold keeps_rows_but, respects; try reflexivity.
  - intros a b c Hab Hbc. congruence.
  - intros j p ->. apply keeps_rows_but_update.
Qed.

#[export] Instance keeps_rows_but_schedules i : Schedules (keeps_rows_but i).
Proof. split. intros t d w. reflexivity. Qed.

#[export] Instance keeps_rows_but_clock i : Clock (keeps_rows_but i).
Proof. split; reflexivity. Qed.

Lemma good_task_names (good : Z -> Prop) t :
  good (names t) -> good_task (fun j _ => good j) t.
Proof. destruct t; cbn; auto. Qed.

Lemma names_successor t t' : successor t = Some t' -> names t' = names t.
Proof.
  destruct t as [i dir e c|i f|i s e j]; cbn [successor]; intros [= <-];
    unfold scheduled_at; [destruct (c =? e) | destruct (s =? e)]; reflexivity.
Qed.

(** X13. A timer that fires works on its own elevator only: the rows of
    every other elevator are as they were, and the timers pending
    afterwards are those that were pending besides it, followed by what it
    registered, which can only be a timer for the same elevator. *)
Theorem a_timer_touches_its_elevator_only w w' due t rest :
  next_timer (timers w) = Some ((due, t), rest) ->
  fire_next uuid_of config w = Some w' ->
  rows_but (names t) w' = rows_but (names t) w /\
  exists l, timers w' = rest ++ l /\ Forall (fun dt => names (snd dt) = names t) l.
Proof.
  intros Hnext Hfire. split.
  - apply (effect_fire_next uuid_of config (keeps_rows_but (names t))
             (fun j _ => j = names t) w w'); [|exact Hfire].
    intros due0 t0 rest0 E. rewrite Hnext in E. injection E as _ <- _.
    now apply (good_task_names (fun j => j = names t)).
  - destruct (fire_next_timers _ _ _ _ Hfire) as (due0 & t0 & rest0 & l & E & Ht & Hl).
    rewrite Hnext in E. injection E as <- <- <-.
    exists l. split; [exact Ht|].
    destruct Hl as [-> | (due' & t' & Hsucc & ->)]; constructor; [|constructor].
    now apply names_successor.
Qed.

(** An elevator no timer works on, and that is not idle, is left as it is. *)
Lemma serve_step_strands i w w' :
  serve_step uuid_of config w w' ->
  (forall r, In r (rows_of i w) -> row_state r <> "Idle"%string) ->
  no_timer_for i w ->
  rows_of i w' = rows_of i w /\ no_timer_for i w'.
Proof.
  intros Hstep Hbusy Htimers.
  assert (Hchosen : forall w0 s el,
            elevators w0 = elevators w ->
            closest_of s (filter is_idle (map object_of_row (elevators w0))) = Some el ->
            id el <> i).
  { intros w0 s el E0 Hel. rewrite E0 in Hel.
    destruct (closest_of_spec _ _ _ Hel) as (before & after & Hsplit & _).
    assert (Hin : In el (filter is_idle (map object_of_row (elevators w))))
      by (rewrite Hsplit; apply in_elt).
    apply idle_objects_rows in Hin as (r & Hr & -> & Hidle).
    cbn [id object_of_row]. intros Hi. apply (Hbusy r); [|exact Hidle].
    apply filter_In. split; [exact Hr | now apply Z.eqb_eq]. }
  destruct Hstep as [w req|w w' H|w t H _].
  - destruct (track_request_tables uuid_of req w) as (Hr0 & _ & Ht0 & _).
    set (w0 := snd (track_request uuid_of req w)) in *.
    assert (H0 : rows_of i w0 = rows_of i w /\ no_timer_for i w0)
      by (unfold rows_of, no_timer_for; now rewrite Hr0, Ht0).
    rewrite serve_route. fold w0. destruct (target req) as [body|p|].
    + rewrite post_call_world.
      destruct (start_floor body) as [| | |s| |]; try exact H0.
      destruct (end_floor body) as [| | |e| |]; try exact H0.
      destruct H0 as [Hrows0 Htimers0]. split.
      * rewrite <- Hrows0.
        apply (effect_callElevator_chosen uuid_of config (keeps_rows_of i)
                 (fun j _ => j <> i)).
        intros el j Hel. pose proof (Hchosen w0 s el Hr0 Hel). auto.
      * destruct (callElevator_timers uuid_of config s e w0)
          as [E | (el & l & _ & Hel & E & Hl)];
          unfold no_timer_for in *; rewrite E; [exact Htimers0|].
        apply Forall_app. split; [exact Htimers0|].
        pose proof (Hchosen w0 s el Hr0 Hel) as Hne.
        eapply Forall_impl; [|exact Hl]. intros dt [-> | (j & ->)]; [|exact Hne].
        unfold scheduled_at. now destruct (current_floor el =? s).
    + rewrite get_status_world. unfold rows_of, no_timer_for.
      rewrite (same_rows_getElevatorStatus uuid_of _ w0),
        (proj1 (same_schedule_getElevatorStatus uuid_of _ w0)).
      exact H0.
    + exact H0.
  - destruct (fire_next_timers _ _ _ _ H) as (due & t & rest & l & Hnext & E & Hl).
    assert (Ht : names t <> i).
    { pose proof (next_timer_In _ _ _ Hnext) as Hin. unfold no_timer_for in Htimers.
      rewrite Forall_forall in Htimers. exact (Htimers _ Hin). }
    split.
    + apply (effect_fire_next uuid_of config (keeps_rows_of i) (fun j _ => j <> i) w w');
        [|exact H].
      intros due0 t0 rest0 E0. rewrite Hnext in E0. injection E0 as _ <- _.
      now apply (good_task_names (fun j => j <> i)).
    + unfold no_timer_for in *. rewrite E.
      apply next_timer_Permutation in Hnext.
      eapply Permutation_Forall in Htimers; [|exact Hnext].
      inversion Htimers as [|x r _ Hrest]; subst.
      apply Forall_app. split; [exact Hrest|].
      destruct Hl as [-> | (due' & t' & Hsucc & ->)]; constructor; [|constructor].
      cbn [snd]. now rewrite (names_successor _ _ Hsucc).
  - split; [reflexivity | exact Htimers].
Qed.

(** X14. Timers live in the process and rows in the database file, and
    nothing at start-up looks at the rows it finds.  So an elevator that is
    not Idle when the process is restarted stays as it is, whatever requests
    come and timers fire afterwards: its row never changes, no timer is ever
    registered for it, and, the dispatcher taking idle elevators only, it is
    never sent anywhere again. *)
Theorem a_restart_strands_a_busy_elevator N w i w' :
  (exists r, In r (elevators w) /\ row_id r = i) ->
  (forall r, In r (elevators w) -> row_id r = i -> row_state r <> "Idle"%string) ->
  serve_steps uuid_of config (restart N w) w' ->
  rows_of i w' = rows_of i w /\ no_timer_for i w'.
Proof.
  intros (r0 & Hr0 & _) Hbusy Hsteps.
  assert (E : restart N w = set_timers [] w).
  { unfold restart. rewrite initializeDb_nonempty; [reflexivity|].
    cbn [elevators set_timers]. intros E. now rewrite E in Hr0. }
  rewrite E in Hsteps. clear E.
  remember (set_timers [] w) as w0 eqn:E0.
  induction Hsteps as [w0|w0 w1 w2 Hsteps IH Hstep].
  - subst w0. split; [reflexivity | constructor].
  - destruct (IH E0) as [Hrows Htimers].
    destruct (serve_step_strands i w1 w2 Hstep) as [Hrows' Htimers']; [|exact Htimers|].
    + intros r Hr. rewrite Hrows in Hr. apply filter_In in Hr as [Hin Hid].
      apply Hbusy; [exact Hin | now apply Z.eqb_eq].
    + split; [congruence | exact Htimers'].
Qed.

End Isolation.

Lemma a_timer_touches_its_elevator_only_witness :
  next_timer (timers dispatched) =
    Some ((5000, FloorStep 1 "Up" 5 2), [(24000, SecondLeg 1 5 15 (sample_uuid 2))]) /\
  fire_next sample_uuid default_config dispatched =
    Some (fire_times sample_uuid default_config 1 dispatched) /\
  rows_but 1 (fire_times sample_uuid default_config 1 dispatched) = rows_but 1 dispatched /\
  exists l,
    timers (fire_times sample_uuid default_config 1 dispatched) =
      [(24000, SecondLeg 1 5 15 (sample_uuid 2))] ++ l /\
    Forall (fun dt => names (snd dt) = 1) l.
Proof.
  assert (H1 : next_timer (timers dispatched) =
    Some ((5000, FloorStep 1 "Up" 5 2), [(24000, SecondLeg 1 5 15 (sample_uuid 2))]))
    by (vm_compute; reflexivity).
  assert (H2 : fire_next sample_uuid default_config dispatched =
    Some (fire_times sample_uuid default_config 1 dispatched))
    by (vm_compute; reflexivity).
  split; [exact H1|]. split; [exact H2|].
  exact (a_timer_touches_its_elevator_only sample_uuid default_config dispatched _ _ _ _
           H1 H2).
Defined.

Lemma a_restart_strands_a_busy_elevator_witness :
  (exists r, In r (elevators dispatched) /\ row_id r = 1) /\
  (forall r, In r (elevators dispatched) -> row_id r = 1 ->
             row_state r <> "Idle"%string) /\
  serve_steps sample_uuid default_config (restart (Some 2) dispatched)
    (after_request (call_request 3 7) (restart (Some 2) dispatched)) /\
  rows_of 1 (after_request (call_request 3 7) (restart (Some 2) dispatched)) =
    rows_of 1 dispatched /\
  no_timer_for 1 (after_request (call_request 3 7) (restart (Some 2) dispatched)).
Proof.
  assert (Hrows : elevators dispatched =
            [{| row_id := 1; row_current_floor := 1; row_state := "Moving";
                row_direction := "Up";
                row_job_queue :=
                  stringify_jobs [{| start := 1; end_ := 5; jobId := sample_uuid 2 |}] |};
             {| row_id := 2; row_current_floor := 1; row_state := "Idle";
                row_direction := "None"; row_job_queue := "[]" |}])
    by (vm_compute; reflexivity).
  assert (H1 : exists r, In r (elevators dispatched) /\ row_id r = 1)
    by (rewrite Hrows; eexists; split; [left; reflexivity | reflexivity]).
  assert (H2 : forall r, In r (elevators dispatched) -> row_id r = 1 ->
                         row_state r <> "Idle"%string).
  { rewrite Hrows. intros r [<- | [<- | []]]; cbn; [discriminate | lia]. }
  assert (H3 : serve_steps sample_uuid default_config (restart (Some 2) dispatched)
                 (after_request (call_request 3 7) (restart (Some 2) dispatched)))
    by (eapply serve_steps_next; [apply serve_steps_refl | apply serve_request]).
  split; [exact H1|]. split; [exact H2|]. split; [exact H3|].
  exact (a_restart_strands_a_busy_elevator sample_uuid default_config (Some 2) dispatched 1 _
           H1 H2 H3).
Defined.

(** ** Audit lines, and the status after a call *)

Section Audit.

Variable uuid_of : nat -> string.
Variable config : Config.

Lemma adds_system_lines_same w w' : sql_logs w' = sql_logs w -> adds_system_lines w w'.
Proof. intros E. exists []. rewrite app_nil_r. split; [exact E | constructor]. Qed.

Lemma adds_system_lines_trans a b c :
  adds_system_lines a b -> adds_system_lines b c -> adds_system_lines a c.
Proof.
  intros (l1 & E1 & H1) (l2 & E2 & H2). exists (l1 ++ l2).
  rewrite E2, E1, app_assoc. split; [reflexivity | now apply Forall_app].
Qed.

#[export] Instance adds_system_lines_writes :
  Writes uuid_of adds_system_lines (fun _ _ => True).
Proof.
  assert (Hsql : forall q, respects adds_system_lines (logSql uuid_of q "system" None None)).
  { intros q w. eexists. split; [reflexivity|]. constructor; [reflexivity | constructor]. }
  assert (Hevent : forall i t d, respects adds_system_lines (logEvent uuid_of i t d))
    by (intros i t d w; now apply adds_system_lines_same).
  split.
  - intros w. now apply adds_system_lines_same.
  - apply adds_system_lines_trans.
  - intros w. now apply adds_system_lines_same.
  - exact Hsql.
  - exact Hevent.
  - intros i p _. apply update_from_rows.
    + intros w. now apply adds_system_lines_same.
    + apply adds_system_lines_trans.
    + exact Hsql.
    + exact Hevent.
    + intros i0 f st dir q w. now apply adds_system_lines_same.
Qed.

#[export] Instance adds_system_lines_schedules : Schedules adds_system_lines.
Proof. split. intros t d w. now apply adds_system_lines_same. Qed.

#[export] Instance adds_system_lines_clock : Clock adds_system_lines.
Proof. split; intros; now apply adds_system_lines_same. Qed.

Lemma adds_system_lines_route req w :
  adds_system_lines w
    (snd (match target req with
          | PostCall body => post_call uuid_of config body
          | GetStatus p => get_status uuid_of p
          | GetLogs => get_logs
          end w)).
Proof.
  destruct (target req).
  - apply (effect_post_call uuid_of config adds_system_lines (fun _ _ => True)),
      good_task_True.
  - apply (effect_get_status uuid_of adds_system_lines (fun _ _ => True)).
  - apply (effect_get_logs uuid_of adds_system_lines (fun _ _ => True)).
Qed.

(** X15. Every request is audited, whatever its route answers: once the
    writes of the request have settled, the SQL log has one more line of
    API_Client, with the address of the client, the method and the URL
    asked for, stamped with the time of the request under the first
    identifier the request draws (the insert is started before the route
    runs, and is not awaited); every other line the request adds is one of
    the program itself, who = system.  Where the line stands among these is
    left open. *)
Theorem every_request_is_audited req w :
  exists before after,
    sql_logs (snd (serve uuid_of config req w)) =
    sql_logs w ++ before ++
    {| sql_id := uuid_of (uuids_drawn w); sql_timestamp := now w;
       query_text := "Logged API request: " +++ method req +++ " " +++ path req;
       who := "API_Client"; where_from := Some (ip req);
       what := Some (method req +++ " " +++ originalUrl req) |} :: after /\
    Forall (fun l => who l = "system"%string) (before ++ after).
Proof.
  rewrite serve_route.
  destruct (adds_system_lines_route req (snd (track_request uuid_of req w)))
    as (sqls & E & Hsys).
  exists [], sqls. rewrite E. unfold track_request, detached, logSql, uuidv4, bind, modify.
  cbn [fst snd sql_logs set_sql_logs set_uuids_drawn now uuids_drawn app].
  split; [now rewrite <- app_assoc | exact Hsys].
Qed.

(** X16. Right after POST /call, with integer floors, has answered 202 for
    an elevator, and before any timer fires, GET /status with an
    elevator_id that reads as this elevator's id answers 200 with this
    elevator alone: its job queue is the one job of its first leg, from the
    floor [c] where it stood idle to start_floor, under the job id of the
    answer, and its direction is that of this leg, Up when start_floor is
    above [c] and Down otherwise.  Its state is Moving when it has to
    travel; when it stood at start_floor already, the door opening was
    started without being awaited, and the state is Moving or DoorsOpen. *)
Theorem status_after_an_accepted_call N w req s e r w1 i txt req' :
  served uuid_of config N w ->
  target req = PostCall {| start_floor := JsNumber s; end_floor := JsNumber e |} ->
  serve uuid_of config req w = (Ok {| status_code := 202; json := Dispatched r |}, w1) ->
  result_elevator_id r = Some i ->
  truthy (Text txt) = true -> parseInt (Text txt) = Some i ->
  target req' = GetStatus (Some txt) ->
  exists el c j w2,
    serve uuid_of config req' w1 =
      (Ok {| status_code := 200; json := StatusBody [el] |}, w2) /\
    id el = i /\ result_jobId r = Some j /\
    job_queue el = QJobs [{| start := c; end_ := s; jobId := j |}] /\
    (c <> s -> state el = "Moving"%string) /\
    (state el = "Moving"%string \/ state el = "DoorsOpen"%string) /\
    direction el = (if s >? c then "Up"%string else "Down"%string) /\
    exists r0, In r0 (elevators w) /\ row_id r0 = i /\
               row_state r0 = "Idle"%string /\ row_current_floor r0 = c.
Proof.
  intros Hserved Htarget Hcall Hi Htruthy Hparse Htarget'.
  pose proof (served_well_formed _ _ _ _ Hserved) as Hwf.
  rewrite serve_route, Htarget in Hcall.
  destruct (track_request_tables uuid_of req w) as (Hr0 & _).
  set (w0 := snd (track_request uuid_of req w)) in *.
  assert (Hwf0 : well_formed w0) by (unfold well_formed; now rewrite Hr0).
  unfold post_call, try_catch in Hcall. cbn [start_floor end_floor] in Hcall.
  destruct ((s =? e) || (s >? MAX_FLOORS config) || (e >? MAX_FLOORS config)) eqn:Hvalid.
  { unfold callElevator in Hcall. rewrite Hvalid in Hcall. discriminate. }
  destruct (closest_of s (filter is_idle (map object_of_row (elevators w0))))
    as [el0|] eqn:Hclosest.
  2: { unfold callElevator in Hcall. rewrite Hvalid in Hcall.
       destruct (findClosestIdleElevator_run uuid_of s w0) as (w' & E1 & _).
       unfold bind in Hcall. rewrite E1, Hclosest in Hcall. discriminate. }
  destruct (callElevator_accepts uuid_of config s e w0 el0 Hwf0 Hvalid Hclosest)
    as (w' & r' & E & Hsel & Hstate & Hdir & Hqueue & _).
  unfold bind in Hcall. rewrite E in Hcall. cbn [success] in Hcall.
  injection Hcall as <- <-. cbn [result_elevator_id] in Hi. injection Hi as <-.
  destruct (closest_of_spec _ _ _ Hclosest) as (before & after & Hsplit & _).
  assert (Hin : In el0 (filter is_idle (map object_of_row (elevators w0))))
    by (rewrite Hsplit; apply in_elt).
  apply idle_objects_rows in Hin as (r0 & Hin0 & -> & Hidle).
  cbn [id current_floor object_of_row] in *.
  rewrite serve_route, Htarget'.
  destruct (track_request_tables uuid_of req' w') as (Hr1 & _).
  set (w1 := snd (track_request uuid_of req' w')) in *.
  unfold get_status, try_catch, getElevatorStatus. rewrite Htruthy, Hparse.
  assert (Hsel1 : select_by_id (Some (row_id r0)) (elevators w1) = Some r')
    by now rewrite Hr1.
  assert (Hq : parse_jobs (row_job_queue r') =
               Some [{| start := row_current_floor r0; end_ := s;
                        jobId := uuid_of (S (uuids_drawn w0)) |}])
    by (rewrite Hqueue; apply parse_stringify_jobs).
  destruct (getElevatorById_found uuid_of _ _ _ _ Hsel1 Hq) as (w2 & E2 & _).
  unfold bind. rewrite E2. cbn [ret].
  do 4 eexists. split; [reflexivity|].
  cbn [id job_queue state direction with_parsed_queue result_jobId].
  split; [eapply select_by_id_id; eauto|]. split; [reflexivity|].
  split; [reflexivity|].
  split; [intros Hne; rewrite Hstate; apply Z.eqb_neq in Hne; now rewrite Hne|].
  split; [rewrite Hstate; destruct (row_current_floor r0 =? s); auto|].
  split; [exact Hdir|].
  exists r0. rewrite <- Hr0. auto.
Qed.

End Audit.

Lemma status_after_an_accepted_call_witness :
  served sample_uuid default_config (Some 2) (started 2) /\
  serve sample_uuid default_config (call_request 5 15) (started 2) =
    (Ok {| status_code := 202;
           json := Dispatched
             {| success := true; result_jobId := Some (sample_uuid 2);
                message := "Elevator dispatched.";
                result_elevator_id := Some 1; status := Some "Moving"%string |} |},
     dispatched) /\
  truthy (Text "1") = true /\ parseInt (Text "1") = Some 1 /\
  exists el c j w2,
    serve sample_uuid default_config (status_request "1") dispatched =
      (Ok {| status_code := 200; json := StatusBody [el] |}, w2) /\
    id el = 1 /\ Some (sample_uuid 2) = Some j /\
    job_queue el = QJobs [{| start := c; end_ := 5; jobId := j |}] /\
    (c <> 5 -> state el = "Moving"%string) /\
    (state el = "Moving"%string \/ state el = "DoorsOpen"%string) /\
    direction el = (if 5 >? c then "Up"%string else "Down"%string) /\
    exists r0, In r0 (elevators (started 2)) /\ row_id r0 = 1 /\
               row_state r0 = "Idle"%string /\ row_current_floor r0 = c.
Proof.
  assert (H1 : served sample_uuid default_config (Some 2) (started 2))
    by apply served_init.
  assert (H2 : serve sample_uuid default_config (call_request 5 15) (started 2) =
    (Ok {| status_code := 202;
           json := Dispatched
             {| success := true; result_jobId := Some (sample_uuid 2);
                message := "Elevator dispatched.";
                result_elevator_id := Some 1; status := Some "Moving"%string |} |},
     dispatched)) by (vm_compute; reflexivity).
  split; [exact H1|]. split; [exact H2|].
  split; [reflexivity|]. split; [reflexivity|].
  exact (status_after_an_accepted_call sample_uuid default_config (Some 2) (started 2)
           (call_request 5 15) 5 15 _ dispatched 1 "1" (status_request "1")
           H1 eq_refl H2 eq_refl eq_refl eq_refl eq_refl).
Defined.

(** ** The state machine of an elevator *)

Lemma machine_fields_parse st dir queue q :
  machine_fields st dir queue -> parse_jobs queue = Some q -> queue = stringify_jobs q.
Proof.
  intros (_ & _ & q0 & -> & _) H. rewrite parse_stringify_jobs in H. now injection H as ->.
Qed.

Lemma machine_update_floor i c : machine_update i (floor_update c).
Proof.
  intros st dir queue q H Hq.
  cbn [floor_update new_state new_direction new_job_queue or_string or_queue
       stringify_queue].
  now rewrite <- (machine_fields_parse _ _ _ _ H Hq).
Qed.

Lemma machine_update_doors i : machine_update i doors_open_update.
Proof.
  intros st dir queue q H Hq.
  cbn [doors_open_update new_state new_direction new_job_queue or_string or_queue
       stringify_queue String.eqb].
  rewrite <- (machine_fields_parse _ _ _ _ H Hq).
  destruct H as (_ & Hdir & q0 & E & Hlen & _).
  split; [auto|]. split; [exact Hdir|]. exists q0. repeat split; auto. discriminate.
Qed.

Lemma machine_update_idle i : machine_update i idle_update.
Proof.
  intros st dir queue q _ _.
  cbn [idle_update new_state new_direction new_job_queue or_string or_queue
       stringify_queue String.eqb].
  split; [auto|]. split; [auto|].
  exists []. repeat split; auto. discriminate.
Qed.

Lemma machine_update_moving i s e j : machine_update i (moving_update s e j).
Proof.
  intros st dir queue q _ _. cbn [moving_update new_state new_direction new_job_queue
                                  or_queue stringify_queue].
  rewrite or_string_leg_direction. cbn [or_string String.eqb Ascii.eqb Bool.eqb].
  split; [auto|]. split; [unfold leg_direction; destruct (e >? s); auto|].
  eexists. split; [reflexivity|]. split; [cbn; lia | discriminate].
Qed.

Lemma machine_task t : good_task machine_update t.
Proof.
  destruct t; cbn [good_task];
    auto using machine_update_floor, machine_update_doors, machine_update_idle,
      machine_update_moving.
Qed.

Section Machine.

Variable uuid_of : nat -> string.
Variable config : Config.

Lemma keeps_state_machine_update i p :
  machine_update i p -> respects keeps_state_machine (updateElevatorState uuid_of i p).
Proof.
  intros Hp w Hw.
  destruct (updateElevatorState_rows uuid_of i p w) as [E | (r & q & Hsel & Hq & E)];
    cbv zeta in E; rewrite E; [exact Hw|].
  apply Forall_map. eapply Forall_impl; [|exact Hw].
  intros r0 Hr0. unfold update_row. destruct (row_id r0 =? i); [|exact Hr0].
  apply (Hp _ _ (row_job_queue r)); [|exact Hq].
  apply select_by_id_In in Hsel. rewrite Forall_forall in Hw. now apply Hw.
Qed.

#[export] Instance keeps_state_machine_writes :
  Writes uuid_of keeps_state_machine machine_update.
Proof.
  split; unfold keeps_state_machine, respects; auto.
  intros i p Hp. now apply keeps_state_machine_update.
Qed.

#[export] Instance keeps_state_machine_tracks : Tracks uuid_of keeps_state_machine.
Proof. split. intros req w0 Hw. exact Hw. Qed.

#[export] Instance keeps_state_machine_schedules : Schedules keeps_state_machine.
Proof. split. intros t d w Hw. exact Hw. Qed.

#[export] Instance keeps_state_machine_clock : Clock keeps_state_machine.
Proof. split; intros; intros Hw; exact Hw. Qed.

(** X17. Every row of a server is in the state machine of an elevator: its
    state is Idle, Moving or DoorsOpen, its direction None, Up or Down, and
    its job queue is the text of a list of one job at most, with a job
    whenever the state is Moving.  No call is ever queued behind another. *)
Theorem rows_stay_in_the_state_machine N w r :
  served uuid_of config N w -> In r (elevators w) -> in_state_machine r.
Proof.
  intros Hserved.
  assert (H : Forall in_state_machine (elevators w)).
  { apply served_serve_steps in Hserved.
    apply (effect_serve_steps uuid_of config keeps_state_machine machine_update
             machine_task) in Hserved.
    apply Hserved. rewrite initializeDb_empty by reflexivity.
    apply Forall_map, Forall_forall. intros i _.
    split; [auto|]. split; [auto|]. exists []. repeat split; auto. discriminate. }
  rewrite Forall_forall in H. apply H.
Qed.

End Machine.

Lemma rows_stay_in_the_state_machine_witness :
  served sample_uuid default_config (Some 2) dispatched /\
  forall r, In r (elevators dispatched) -> in_state_machine r.
Proof.
  split; [exact served_dispatched|].
  intros r.
  exact (rows_stay_in_the_state_machine sample_uuid default_config (Some 2) dispatched r
           served_dispatched).
Defined.
